(** * openfoodfacts-to-eatnlift: the record normalizer of [main.go]

    A shallow embedding of [ProcessProduct] and of the functions it calls
    ([mapNutrient], [toFloat64], [normalizeAllergen],
    [extractIngredientAllergen], [parseServingSize] and its helpers) and
    of [main], which calls it, with the properties the specification
    states about them and further properties of the code.

    Go values are modelled as the program has them:
    - a Go [string] is a sequence of bytes: Rocq's [string], whose
      characters are the 256 byte values;
    - [float64] is the kernel's binary64 type [float];
    - [map[string]T] is stdpp's [gmap string T];
    - a [[]string] is a slice header pointing into a store of backing
      arrays, so that two slices over one array alias;
    - [interface{}] values decoded from JSON are the inductive [jsonValue].

    A Go map is a reference as well.  No statement of the program assigns
    to an entry of a map it was handed (the nutrients are only read, and
    the translations are a map of the function's own), so maps are
    modelled by their contents.

    The packages of Go's standard library the program calls ([strings],
    [unicode/utf8], [regexp], [strconv], [fmt]) are modelled in modules of
    the same names, first. *)

From Stdlib Require Import ZArith NArith List Bool Ascii String DecimalString Lia.
From Stdlib Require Import DecimalPos DecimalN.
From Stdlib Require Import PrimFloat FloatOps SpecFloat.
From stdpp Require Import gmap strings.

Local Open Scope string_scope.
Local Open Scope Z_scope.

(** ** Bytes *)

Definition byte (c : ascii) : Z := Z.of_N (N_of_ascii c).
Definition chr (n : Z) : ascii := ascii_of_N (Z.to_N n).

Fixpoint bytes (l : list Z) : string :=
  match l with
  | [] => ""
  | n :: l' => String (chr n) (bytes l')
  end.

Definition inRange (lo hi : Z) (c : ascii) : bool :=
  (lo <=? byte c) && (byte c <=? hi).

Fixpoint skip (n : nat) (s : string) : string :=
  match n, s with
  | O, _ => s
  | S n', String _ s' => skip n' s'
  | S _, "" => ""
  end.

Fixpoint keep (n : nat) (s : string) : string :=
  match n, s with
  | S n', String c s' => String c (keep n' s')
  | _, _ => ""
  end.

Fixpoint srev_onto (s acc : string) : string :=
  match s with
  | "" => acc
  | String c s' => srev_onto s' (String c acc)
  end.

Definition srev (s : string) : string := srev_onto s "".

Fixpoint sforall (f : ascii -> bool) (s : string) : bool :=
  match s with
  | "" => true
  | String c s' => f c && sforall f s'
  end.

Fixpoint smap (f : ascii -> ascii) (s : string) : string :=
  match s with
  | "" => ""
  | String c s' => String (f c) (smap f s')
  end.

(** ** Package [unicode/utf8] and [unicode] *)

Module utf8.

Definition RuneError : Z := 65533.
Definition RuneSelf : Z := 128.
Definition UTFMax : nat := 4.

Definition cont (lo hi : Z) (c : ascii) : bool := inRange lo hi c.
Definition low6 (c : ascii) : Z := Z.land (byte c) 63.

(** [DecodeRuneInString]: the first rune of [s] and its width in bytes;
    [(RuneError, 0)] on the empty string and [(RuneError, 1)] on an
    encoding that is invalid, too short, not the shortest form, a
    surrogate or beyond U+10FFFF. *)
Definition DecodeRuneInString (s : string) : Z * nat :=
  match s with
  | "" => (RuneError, 0%nat)
  | String b0 s1 =>
    let x := byte b0 in
    if x <? 128 then (x, 1%nat)
    else if (194 <=? x) && (x <=? 223) then
      match s1 with
      | String b1 _ =>
        if cont 128 191 b1
        then (Z.lor (Z.shiftl (Z.land x 31) 6) (low6 b1), 2%nat)
        else (RuneError, 1%nat)
      | _ => (RuneError, 1%nat)
      end
    else if (224 <=? x) && (x <=? 239) then
      let lo := if x =? 224 then 160 else 128 in
      let hi := if x =? 237 then 159 else 191 in
      match s1 with
      | String b1 (String b2 _) =>
        if cont lo hi b1 && cont 128 191 b2
        then (Z.lor (Z.lor (Z.shiftl (Z.land x 15) 12) (Z.shiftl (low6 b1) 6))
                    (low6 b2), 3%nat)
        else (RuneError, 1%nat)
      | _ => (RuneError, 1%nat)
      end
    else if (240 <=? x) && (x <=? 244) then
      let lo := if x =? 240 then 144 else 128 in
      let hi := if x =? 244 then 143 else 191 in
      match s1 with
      | String b1 (String b2 (String b3 _)) =>
        if cont lo hi b1 && cont 128 191 b2 && cont 128 191 b3
        then (Z.lor (Z.lor (Z.lor (Z.shiftl (Z.land x 7) 18)
                                  (Z.shiftl (low6 b1) 12))
                           (Z.shiftl (low6 b2) 6))
                    (low6 b3), 4%nat)
        else (RuneError, 1%nat)
      | _ => (RuneError, 1%nat)
      end
    else (RuneError, 1%nat)
  end.

(** [RuneStart]: the byte is not a continuation byte. *)
Definition RuneStart (c : ascii) : bool := negb (Z.land (byte c) 192 =? 128).

(** The search of [DecodeLastRuneInString] for the start of the last
    rune, on the reversed string without its first byte (the last byte of
    the string is not tested): [tried] bytes are already behind, at most
    [budget] more are looked at, and the result is how many bytes before
    the end the decoding starts. *)
Fixpoint lastStart (r : string) (tried budget : nat) : nat :=
  match budget, r with
  | S budget', String c r' =>
    if RuneStart c then S tried else lastStart r' (S tried) budget'
  | O, _ => tried
  | _, "" => tried
  end.

(** [DecodeLastRuneInString], given the string reversed ([r] holds the
    bytes of the string from last to first). *)
Definition DecodeLastRuneInReversed (r : string) : Z * nat :=
  match r with
  | "" => (RuneError, 0%nat)
  | String c r' =>
    if byte c <? 128 then (byte c, 1%nat)
    else
      let back := lastStart r' 1 (UTFMax - 1) in
      let '(rn, size) := DecodeRuneInString (srev (keep back r)) in
      if Nat.eqb size back then (rn, size) else (RuneError, 1%nat)
  end.

End utf8.

Module unicode.

Definition MaxASCII : Z := 127.
Definition MaxLatin1 : Z := 255.

(** [IsSpace]: the Latin-1 cases written out in Go's source, and the
    White_Space property beyond Latin-1. *)
Definition IsSpace (r : Z) : bool :=
  if r <=? MaxLatin1 then
    (r =? 9) || (r =? 10) || (r =? 11) || (r =? 12) || (r =? 13)
    || (r =? 32) || (r =? 133) || (r =? 160)
  else
    (r =? 5760) || ((8192 <=? r) && (r <=? 8202)) || (r =? 8232)
    || (r =? 8233) || (r =? 8239) || (r =? 8287) || (r =? 12288).

End unicode.

(** Go's [unicode.ToLower] and [unicode.ToUpper] read the Unicode case
    tables for code points outside ASCII.  The tables are no part of this
    program, so the development is parametric in them: [mapToLower s] and
    [mapToUpper s] stand for [strings.Map(unicode.ToLower, s)] and
    [strings.Map(unicode.ToUpper, s)] on a string that holds a byte of
    value 128 or more, the only strings on which Go consults the tables. *)
Class CaseTables := {
  mapToLower : string -> string;
  mapToUpper : string -> string
}.

(** ** Package [strings] *)

Module strings.

Definition isASCII (s : string) : bool :=
  sforall (fun c => byte c <? utf8.RuneSelf) s.

Definition lowerByte (c : ascii) : ascii :=
  if inRange 65 90 c then chr (byte c + 32) else c.

Definition upperByte (c : ascii) : ascii :=
  if inRange 97 122 c then chr (byte c - 32) else c.

(** [ToLower] and [ToUpper]: byte by byte on an ASCII-only string, through
    the Unicode tables otherwise. *)
Definition ToLower `{CaseTables} (s : string) : string :=
  if isASCII s then smap lowerByte s else mapToLower s.

Definition ToUpper `{CaseTables} (s : string) : string :=
  if isASCII s then smap upperByte s else mapToUpper s.

Fixpoint HasPrefix (s prefix : string) : bool :=
  match prefix, s with
  | "", _ => true
  | String p prefix', String c s' => Ascii.eqb p c && HasPrefix s' prefix'
  | String _ _, "" => false
  end.

Definition HasSuffix (s suffix : string) : bool :=
  HasPrefix (srev s) (srev suffix).

Definition TrimPrefix (s prefix : string) : string :=
  if HasPrefix s prefix then skip (String.length prefix) s else s.

Definition TrimSuffix (s suffix : string) : string :=
  if HasSuffix s suffix
  then keep (String.length s - String.length suffix) s
  else s.

(** [TrimLeftFunc]: drop leading runes while [f] holds. *)
Fixpoint trimLeftLoop (f : Z -> bool) (fuel : nat) (s : string) : string :=
  match fuel, s with
  | S fuel', String _ _ =>
    let '(r, size) := utf8.DecodeRuneInString s in
    if f r then trimLeftLoop f fuel' (skip size s) else s
  | _, _ => s
  end.

Definition TrimLeftFunc (s : string) (f : Z -> bool) : string :=
  trimLeftLoop f (String.length s) s.

(** [TrimRightFunc]: drop trailing runes while [f] holds, decoding
    backwards from the end as Go does. *)
Fixpoint trimRightLoop (f : Z -> bool) (fuel : nat) (r : string) : string :=
  match fuel, r with
  | S fuel', String _ _ =>
    let '(rn, size) := utf8.DecodeLastRuneInReversed r in
    if f rn then trimRightLoop f fuel' (skip size r) else r
  | _, _ => r
  end.

Definition TrimRightFunc (s : string) (f : Z -> bool) : string :=
  srev (trimRightLoop f (String.length s) (srev s)).

Definition TrimFunc (s : string) (f : Z -> bool) : string :=
  TrimRightFunc (TrimLeftFunc s f) f.

(** [TrimSpace]: Go runs a byte loop while the string is ASCII and falls
    back to [TrimFunc(s, unicode.IsSpace)]; both agree on ASCII, where
    [unicode.IsSpace] is Go's [asciiSpace] table. *)
Definition TrimSpace (s : string) : string := TrimFunc s unicode.IsSpace.

Fixpoint contains (cutset : string) (c : ascii) : bool :=
  match cutset with
  | "" => false
  | String d cutset' => Ascii.eqb d c || contains cutset' c
  end.

(** [Trim] for a cutset of ASCII bytes (the program's only cutset is
    the one-byte string of a pipe). *)
Definition Trim (s cutset : string) : string :=
  TrimFunc s (fun r =>
    (r <? utf8.RuneSelf) && contains cutset (chr r)).

(** [IndexFunc]: the byte index of the first rune satisfying [f], or -1. *)
Fixpoint indexFuncLoop (f : Z -> bool) (fuel : nat) (i : Z) (s : string) : Z :=
  match fuel, s with
  | S fuel', String _ _ =>
    let '(r, size) := utf8.DecodeRuneInString s in
    if f r then i else indexFuncLoop f fuel' (i + Z.of_nat size) (skip size s)
  | _, _ => -1
  end.

Definition IndexFunc (s : string) (f : Z -> bool) : Z :=
  indexFuncLoop f (String.length s) 0 s.

(** [Replace(s, old, new, -1)] and [ReplaceAll]: every non-overlapping
    occurrence of [old], found from the left.  [pending] counts the bytes
    of an occurrence that are still to be dropped. *)
Fixpoint replaceLoop (old new : string) (pending : nat) (s : string) : string :=
  match s with
  | "" => ""
  | String c s' =>
    match pending with
    | S p => replaceLoop old new p s'
    | O =>
      if HasPrefix s old
      then new ++ replaceLoop old new (String.length old - 1) s'
      else String c (replaceLoop old new 0 s')
    end
  end.

(** With an empty [old], Go inserts [new] before the string and after
    each rune. *)
Fixpoint replaceEmpty (new : string) (fuel : nat) (s : string) : string :=
  match fuel, s with
  | S fuel', String _ _ =>
    let '(_, size) := utf8.DecodeRuneInString s in
    keep size s ++ new ++ replaceEmpty new fuel' (skip size s)
  | _, _ => ""
  end.

Definition ReplaceAll (s old new : string) : string :=
  if String.eqb old new then s
  else match old with
       | "" => new ++ replaceEmpty new (String.length s) s
       | _ => replaceLoop old new 0 s
       end.

(** [Split]: the pieces of [s] between the occurrences of [sep];
    [cur] is the current piece, reversed. *)
Fixpoint splitLoop (sep : string) (pending : nat) (cur s : string) : list string :=
  match s with
  | "" => [srev cur]
  | String c s' =>
    match pending with
    | S p => splitLoop sep p cur s'
    | O =>
      if HasPrefix s sep
      then srev cur :: splitLoop sep (String.length sep - 1) "" s'
      else splitLoop sep 0 (String c cur) s'
    end
  end.

(** With an empty separator Go splits after each rune, an invalid byte
    becoming the encoding of U+FFFD. *)
Fixpoint explode (fuel : nat) (s : string) : list string :=
  match fuel, s with
  | S fuel', String _ _ =>
    let '(r, size) := utf8.DecodeRuneInString s in
    (if (r =? utf8.RuneError) && Nat.eqb size 1
     then bytes [239; 191; 189] else keep size s)
      :: explode fuel' (skip size s)
  | _, _ => []
  end.

Definition Split (s sep : string) : list string :=
  match sep with
  | "" => explode (String.length s) s
  | _ => splitLoop sep 0 "" s
  end.

End strings.

(** ** Package [regexp] *)

(** Go's [regexp] returns, among the matches that start leftmost, the one a
    backtracking search finds first.  The model is that backtracking
    search, over bytes.  It covers the syntax the program's patterns use:
    literals, escapes, the classes [\d] and [\s], bracket classes that
    list single bytes, groups, alternation, the quantifiers [*], [+], [?]
    and their lazy forms, the anchors [^] and [$], and a leading [(?i)].
    Every class and literal of the program's patterns is ASCII or the
    complement of an ASCII set, so matching bytes and matching runes
    coincide on them. *)

Module regexp.

Inductive regex : Type :=
| Eps : regex
| Chr : (ascii -> bool) -> regex
| Seq : regex -> regex -> regex
| Alt : regex -> regex -> regex
| Star : bool -> regex -> regex
| Grp : nat -> regex -> regex
| Bol : regex
| Eol : regex
| Never : regex.

(** *** Parsing a pattern *)

Definition isDigit (c : ascii) : bool := inRange 48 57 c.

(** [\s] is the set of tab, newline, form feed, carriage return, space. *)
Definition isSpace (c : ascii) : bool :=
  let x := byte c in
  (x =? 9) || (x =? 10) || (x =? 12) || (x =? 13) || (x =? 32).

Definition isLetter (c : ascii) : bool := inRange 65 90 c || inRange 97 122 c.

Definition isPunct (c : ascii) : bool :=
  negb (isLetter c || isDigit c) && inRange 33 126 c.

Definition sameByte (fold : bool) (c x : ascii) : bool :=
  if fold
  then Ascii.eqb (strings.lowerByte c) (strings.lowerByte x)
  else Ascii.eqb c x.

Fixpoint litBytes (s : string) : regex :=
  match s with
  | "" => Eps
  | String c s' => Seq (Chr (Ascii.eqb c)) (litBytes s')
  end.

(** A literal byte.  Under [(?i)] a letter matches both of its cases, and
    Unicode's simple case folding adds U+212A (the Kelvin sign) to [k]
    and U+017F (the long s) to [s]. *)
Definition literal (fold : bool) (c : ascii) : regex :=
  if fold && Ascii.eqb (strings.lowerByte c) "k"
  then Alt (Chr (sameByte true c)) (litBytes (bytes [226; 132; 170]))
  else if fold && Ascii.eqb (strings.lowerByte c) "s"
  then Alt (Chr (sameByte true c)) (litBytes (bytes [197; 191]))
  else Chr (sameByte fold c).

(** An escape outside or inside a bracket class. *)
Definition escape (c : ascii) : option (ascii -> bool) :=
  if Ascii.eqb c "d" then Some isDigit
  else if Ascii.eqb c "s" then Some isSpace
  else if isPunct c then Some (Ascii.eqb c)
  else None.

(** The items of a bracket class up to the closing bracket. *)
Fixpoint classItems (fold : bool) (s : string)
  : option ((ascii -> bool) * string) :=
  match s with
  | "" => None
  | String c s1 =>
    if Ascii.eqb c "]" then Some (fun _ => false, s1)
    else if Ascii.eqb c "\" then
      match s1 with
      | String e s2 =>
        match escape e, classItems fold s2 with
        | Some f, Some (g, rest) => Some (fun x => f x || g x, rest)
        | _, _ => None
        end
      | "" => None
      end
    else if Ascii.eqb c "-" || Ascii.eqb c "[" then None
    else
      match classItems fold s1 with
      | Some (g, rest) => Some (fun x => sameByte fold c x || g x, rest)
      | None => None
      end
  end.

Definition class (fold : bool) (s : string) : option (regex * string) :=
  match s with
  | String c s1 =>
    if Ascii.eqb c "^" then
      match classItems fold s1 with
      | Some (f, rest) => Some (Chr (fun x => negb (f x)), rest)
      | None => None
      end
    else
      match classItems fold s with
      | Some (f, rest) => Some (Chr f, rest)
      | None => None
      end
  | "" => None
  end.

(** A quantifier after an atom, with its lazy form. *)
Definition quantifier (a : regex) (s : string) : regex * string :=
  let lazy (s1 : string) : bool * string :=
    match s1 with
    | String c s2 => if Ascii.eqb c "?" then (false, s2) else (true, s1)
    | "" => (true, s1)
    end in
  match s with
  | String c s1 =>
    if Ascii.eqb c "*" then
      let '(g, rest) := lazy s1 in (Star g a, rest)
    else if Ascii.eqb c "+" then
      let '(g, rest) := lazy s1 in (Seq a (Star g a), rest)
    else if Ascii.eqb c "?" then
      let '(g, rest) := lazy s1 in
      ((if g then Alt a Eps else Alt Eps a), rest)
    else (a, s)
  | "" => (a, s)
  end.

Definition closeParen (r : option (regex * nat * string))
  : option (regex * nat * string) :=
  match r with
  | Some (a, n, String c rest) =>
    if Ascii.eqb c ")" then Some (a, n, rest) else None
  | _ => None
  end.

(** Alternations, sequences and atoms; [n] is the number of the next
    capturing group, counted by opening parenthesis. *)
Fixpoint parseAlt (fuel : nat) (fold : bool) (n : nat) (s : string)
  : option (regex * nat * string) :=
  match fuel with
  | O => None
  | S fuel' =>
    match parseSeq fuel' fold n s with
    | Some (a, n1, String c rest) =>
      if Ascii.eqb c "|" then
        match parseAlt fuel' fold n1 rest with
        | Some (b, n2, rest') => Some (Alt a b, n2, rest')
        | None => None
        end
      else Some (a, n1, String c rest)
    | r => r
    end
  end
with parseSeq (fuel : nat) (fold : bool) (n : nat) (s : string)
  : option (regex * nat * string) :=
  match fuel with
  | O => None
  | S fuel' =>
    match s with
    | "" => Some (Eps, n, s)
    | String c _ =>
      if Ascii.eqb c "|" || Ascii.eqb c ")" then Some (Eps, n, s)
      else
        match parseAtom fuel' fold n s with
        | Some (a, n1, rest) =>
          let '(a', rest') := quantifier a rest in
          match parseSeq fuel' fold n1 rest' with
          | Some (b, n2, rest'') => Some (Seq a' b, n2, rest'')
          | None => None
          end
        | None => None
        end
    end
  end
with parseAtom (fuel : nat) (fold : bool) (n : nat) (s : string)
  : option (regex * nat * string) :=
  match fuel with
  | O => None
  | S fuel' =>
    match s with
    | "" => None
    | String c s1 =>
      if Ascii.eqb c "(" then
        match s1 with
        | String "?" (String ":" s2) => closeParen (parseAlt fuel' fold n s2)
        | String "?" _ => None
        | _ =>
          match closeParen (parseAlt fuel' fold (S n) s1) with
          | Some (a, n1, rest) => Some (Grp n a, n1, rest)
          | None => None
          end
        end
      else if Ascii.eqb c "[" then
        match class fold s1 with
        | Some (a, rest) => Some (a, n, rest)
        | None => None
        end
      else if Ascii.eqb c "\" then
        match s1 with
        | String e s2 =>
          match escape e with
          | Some f => Some (Chr f, n, s2)
          | None => None
          end
        | "" => None
        end
      else if Ascii.eqb c "^" then Some (Bol, n, s1)
      else if Ascii.eqb c "$" then Some (Eol, n, s1)
      else if Ascii.eqb c "." || Ascii.eqb c "*" || Ascii.eqb c "+"
              || Ascii.eqb c "?" || Ascii.eqb c "{" then None
      else Some (literal fold c, n, s1)
    end
  end.

(** A compiled pattern: its expression and its number of capturing
    groups. *)
Record Regexp : Type := { expr : regex; NumSubexp : nat }.

Definition Compile (pattern : string) : option Regexp :=
  let fold := strings.HasPrefix pattern "(?i)" in
  let body := if fold then skip 4 pattern else pattern in
  match parseAlt (3 * String.length body + 3) fold 1 body with
  | Some (a, n, "") => Some {| expr := a; NumSubexp := (n - 1)%nat |}
  | _ => None
  end.

Definition compiles (pattern : string) : bool :=
  match Compile pattern with
  | Some _ => true
  | None => false
  end.

(** [MustCompile] panics on a pattern that does not compile; the model
    then yields a pattern that matches nothing.  The program's patterns
    all compile. *)
Definition MustCompile (pattern : string) : Regexp :=
  match Compile pattern with
  | Some re => re
  | None => {| expr := Never; NumSubexp := 0 |}
  end.

(** *** Matching *)

(** The state of a match: the byte offset, the input from there on, and
    the groups closed so far (the latest first). *)
Record mstate : Type := {
  pos : nat;
  rest : string;
  caps : list (nat * (nat * nat))
}.

(** [run r st k]: match [r] from [st] and go on with [k]; the first
    success in the order of a backtracking search. *)
Fixpoint run (r : regex) (st : mstate) (k : mstate -> option mstate)
  {struct r} : option mstate :=
  match r with
  | Eps => k st
  | Chr f =>
    match rest st with
    | String c s' =>
      if f c
      then k {| pos := S (pos st); rest := s'; caps := caps st |}
      else None
    | "" => None
    end
  | Seq a b => run a st (fun st' => run b st' k)
  | Alt a b =>
    match run a st k with
    | Some x => Some x
    | None => run b st k
    end
  | Star greedy a =>
    (fix loop (fuel : nat) (st0 : mstate) {struct fuel} : option mstate :=
       match fuel with
       | O => k st0
       | S fuel' =>
         let more (_ : unit) :=
           run a st0 (fun st' =>
             if (pos st0 <? pos st')%nat then loop fuel' st' else None) in
         if greedy then
           match more tt with
           | Some x => Some x
           | None => k st0
           end
         else
           match k st0 with
           | Some x => Some x
           | None => more tt
           end
       end) (S (String.length (rest st))) st
  | Grp n a =>
    run a st (fun st' =>
      k {| pos := pos st'; rest := rest st';
           caps := (n, (pos st, pos st')) :: caps st' |})
  | Bol => if (pos st =? 0)%nat then k st else None
  | Eol =>
    match rest st with
    | "" => k st
    | String _ _ => None
    end
  | Never => None
  end.

(** A match: where it starts, where it ends, and its groups. *)
Definition found : Type := nat * nat * list (nat * (nat * nat)).

Definition matchAt (re : Regexp) (s : string) (start : nat) : option found :=
  match run (expr re)
            {| pos := start; rest := skip start s; caps := [] |}
            (fun st => Some st) with
  | Some st => Some (start, pos st, caps st)
  | None => None
  end.

(** The leftmost match that starts at [start] or later ([doExecute]). *)
Fixpoint searchFrom (re : Regexp) (s : string) (tries start : nat)
  : option found :=
  match matchAt re s start with
  | Some m => Some m
  | None =>
    match tries with
    | O => None
    | S tries' => searchFrom re s tries' (S start)
    end
  end.

Definition doExecute (re : Regexp) (s : string) (start : nat) : option found :=
  searchFrom re s (String.length s - start) start.

Fixpoint capture (caps : list (nat * (nat * nat))) (n : nat)
  : option (nat * nat) :=
  match caps with
  | [] => None
  | (i, span) :: caps' => if (i =? n)%nat then Some span else capture caps' n
  end.

Definition slice (s : string) (a b : nat) : string := keep (b - a) (skip a s).

(** The text of group [n], empty when the group took no part. *)
Definition groupText (s : string) (caps : list (nat * (nat * nat))) (n : nat)
  : string :=
  match capture caps n with
  | Some (a, b) => slice s a b
  | None => ""
  end.

Definition submatches (re : Regexp) (s : string) (m : found) : list string :=
  let '(a, b, caps) := m in
  slice s a b :: map (groupText s caps) (seq 1 (NumSubexp re)).

(** [FindStringSubmatch]: the leftmost match and its groups, [None] for
    Go's [nil]. *)
Definition FindStringSubmatch (re : Regexp) (s : string) : option (list string) :=
  match doExecute re s 0 with
  | Some m => Some (submatches re s m)
  | None => None
  end.

(** The width of the rune at offset [p], 0 at the end of the input. *)
Definition widthAt (s : string) (p : nat) : nat :=
  snd (utf8.DecodeRuneInString (skip p s)).

(** [allMatches] with no limit: successive matches, an empty match right
    after the previous match being dropped. *)
Fixpoint allMatches (re : Regexp) (s : string) (fuel : nat)
  (p : nat) (prevMatchEnd : option nat) : list found :=
  match fuel with
  | O => []
  | S fuel' =>
    if (String.length s <? p)%nat then []
    else
      match doExecute re s p with
      | None => []
      | Some ((a, b, caps) as m) =>
        let accept :=
          negb ((b =? p)%nat &&
                match prevMatchEnd with
                | Some e => (a =? e)%nat
                | None => false
                end) in
        let p' :=
          if (b =? p)%nat then
            let w := widthAt s p in
            if (0 <? w)%nat then (p + w)%nat else S (String.length s)
          else b in
        let later := allMatches re s fuel' p' (Some b) in
        if accept then m :: later else later
      end
  end.

Definition FindAll (re : Regexp) (s : string) : list found :=
  allMatches re s (S (S (String.length s))) 0 None.

Definition FindAllStringSubmatch (re : Regexp) (s : string) : list (list string) :=
  map (submatches re s) (FindAll re s).

Definition FindAllStringIndex (re : Regexp) (s : string) : list (nat * nat) :=
  map (fun m : found => fst m) (FindAll re s).

(** [ReplaceAllString] for a replacement text without a dollar sign (Go
    expands [$name] in the replacement; the program's replacements are a
    space and the empty string). *)
Fixpoint replaceAll (re : Regexp) (src repl : string) (fuel : nat)
  (lastMatchEnd searchPos : nat) : string :=
  match fuel with
  | O => skip lastMatchEnd src
  | S fuel' =>
    if (String.length src <? searchPos)%nat then skip lastMatchEnd src
    else
      match doExecute re src searchPos with
      | None => skip lastMatchEnd src
      | Some (a, b, _) =>
        let before := slice src lastMatchEnd a in
        let put :=
          if (lastMatchEnd <? b)%nat || (a =? 0)%nat then repl else "" in
        let w := widthAt src searchPos in
        let searchPos' :=
          if (b <? searchPos + w)%nat then (searchPos + w)%nat
          else if (b <? searchPos + 1)%nat then S searchPos
          else b in
        before ++ put ++ replaceAll re src repl fuel' b searchPos'
      end
  end.

Definition ReplaceAllString (re : Regexp) (src repl : string) : string :=
  replaceAll re src repl (S (S (String.length src))) 0 0.

End regexp.

(** ** Packages [strconv] and [fmt] *)

(** [float64] values are binary64 numbers.  A value given by an integer
    mantissa and a power of two or ten is rounded to the nearest binary64
    number, ties to even, with the rounding functions of [SpecFloat]. *)

Module float64.

Definition NaN : float := PrimFloat.nan.
Definition Inf (neg : bool) : float :=
  if neg then PrimFloat.neg_infinity else PrimFloat.infinity.

(** [m * 2^e], rounded; [m] is not negative. *)
Definition roundBinary (m e : Z) : spec_float :=
  binary_normalize prec emax m e false.

(** [m * 10^e], rounded; [m] is not negative. *)
Definition roundDecimal (m e : Z) : spec_float :=
  if m =? 0 then S754_zero false
  else if 0 <=? e then binary_normalize prec emax (m * 10 ^ e) 0 false
  else
    let '(q, e', loc) := SFdiv_core_binary prec emax m 0 (10 ^ (- e)) 0 in
    binary_round_aux prec emax false q e' loc.

Definition ofZ (n : Z) : float := SF2Prim (binary_normalize prec emax n 0 false).

End float64.

Module strconv.

Inductive error : Type := ErrSyntax | ErrRange.

(** Go's [lower]: the byte with bit 0x20 set. *)
Definition lower (c : ascii) : Z := Z.lor (byte c) 32.

Definition isDigit (c : ascii) : bool := inRange 48 57 c.
Definition isHexLetter (c : ascii) : bool := (97 <=? lower c) && (lower c <=? 102).

Fixpoint commonPrefixLenIgnoreCase (s prefix : string) : nat :=
  match s, prefix with
  | String c s', String p prefix' =>
    if Ascii.eqb (strings.lowerByte c) p
    then S (commonPrefixLenIgnoreCase s' prefix')
    else O
  | _, _ => O
  end.

(** [special]: an infinity or a NaN at the head of [s], with the number
    of bytes it takes. *)
Definition infinityAt (neg : bool) (nsign : nat) (s : string)
  : option (float * nat) :=
  let n := commonPrefixLenIgnoreCase s "infinity" in
  let n := if (3 <? n)%nat && (n <? 8)%nat then 3%nat else n in
  if (n =? 3)%nat || (n =? 8)%nat
  then Some (float64.Inf neg, (nsign + n)%nat)
  else None.

Definition special (s : string) : option (float * nat) :=
  match s with
  | "" => None
  | String c s' =>
    if Ascii.eqb c "+" then infinityAt false 1 s'
    else if Ascii.eqb c "-" then infinityAt true 1 s'
    else if Ascii.eqb c "i" || Ascii.eqb c "I" then infinityAt false 0 s
    else if Ascii.eqb c "n" || Ascii.eqb c "N" then
      if (commonPrefixLenIgnoreCase s "nan" =? 3)%nat
      then Some (float64.NaN, 3%nat)
      else None
    else None
  end.

(** What [readFloat] gathers from the digits: the value [mant] of all
    the digits read, their number [nd] without the leading zeros, the
    position [dp] of the point, and what was seen. *)
Record scan : Type := {
  mant : Z;
  nd : Z;
  dp : Z;
  sawdot : bool;
  sawdigits : bool;
  underscores : bool
}.

Definition scan0 : scan :=
  {| mant := 0; nd := 0; dp := 0; sawdot := false; sawdigits := false;
     underscores := false |}.

(** The digit loop of [readFloat]; it returns the input left over. *)
Fixpoint digitLoop (hex : bool) (st : scan) (s : string) : scan * string :=
  match s with
  | "" => (st, s)
  | String c s' =>
    if Ascii.eqb c "_" then
      digitLoop hex
        {| mant := mant st; nd := nd st; dp := dp st; sawdot := sawdot st;
           sawdigits := sawdigits st; underscores := true |} s'
    else if Ascii.eqb c "." then
      if sawdot st then (st, s)
      else
        digitLoop hex
          {| mant := mant st; nd := nd st; dp := nd st; sawdot := true;
             sawdigits := sawdigits st; underscores := underscores st |} s'
    else if isDigit c then
      if Ascii.eqb c "0" && (nd st =? 0) then
        digitLoop hex
          {| mant := mant st; nd := nd st; dp := dp st - 1;
             sawdot := sawdot st; sawdigits := true;
             underscores := underscores st |} s'
      else
        digitLoop hex
          {| mant := mant st * (if hex then 16 else 10) + (byte c - 48);
             nd := nd st + 1; dp := dp st; sawdot := sawdot st;
             sawdigits := true; underscores := underscores st |} s'
    else if hex && isHexLetter c then
      digitLoop hex
        {| mant := mant st * 16 + (lower c - 97 + 10);
           nd := nd st + 1; dp := dp st; sawdot := sawdot st;
           sawdigits := true; underscores := underscores st |} s'
    else (st, s)
  end.

(** The digits of an exponent; the exponent stops growing at 10000. *)
Fixpoint expLoop (e : Z) (us : bool) (s : string) : Z * bool * string :=
  match s with
  | "" => (e, us, s)
  | String c s' =>
    if Ascii.eqb c "_" then expLoop e true s'
    else if isDigit c then
      expLoop (if e <? 10000 then e * 10 + (byte c - 48) else e) us s'
    else (e, us, s)
  end.

(** [underscoreOK]: an underscore stands only between digits, or between
    a base prefix and a digit.  [saw] is the kind of the last byte. *)
Inductive sawKind : Type := SawStart | SawDigit | SawUnderscore | SawOther.

Fixpoint underscoreLoop (hex : bool) (saw : sawKind) (s : string) : bool :=
  match s with
  | "" => match saw with SawUnderscore => false | _ => true end
  | String c s' =>
    if isDigit c || (hex && isHexLetter c) then underscoreLoop hex SawDigit s'
    else if Ascii.eqb c "_" then
      match saw with
      | SawDigit => underscoreLoop hex SawUnderscore s'
      | _ => false
      end
    else
      match saw with
      | SawUnderscore => false
      | _ => underscoreLoop hex SawOther s'
      end
  end.

Definition underscoreOK (s : string) : bool :=
  let s :=
    match s with
    | String c s' => if Ascii.eqb c "-" || Ascii.eqb c "+" then s' else s
    | "" => s
    end in
  match s with
  | String c0 (String c1 s2) =>
    if Ascii.eqb c0 "0" &&
       ((lower c1 =? 98) || (lower c1 =? 111) || (lower c1 =? 120))
    then underscoreLoop (lower c1 =? 120) SawDigit s2
    else underscoreLoop false SawStart s
  | _ => underscoreLoop false SawStart s
  end.

(** [readFloat] on the whole of [s]: the sign, whether the number is
    hexadecimal, the mantissa and the exponent of its base (10, or 2 for
    a hexadecimal number); [None] when [s] is not a well-formed number
    from its first to its last byte. *)
Definition readFloat (s : string) : option (bool * bool * Z * Z) :=
  match s with
  | "" => None
  | String c0 s0 =>
    let neg := Ascii.eqb c0 "-" in
    let s1 := if Ascii.eqb c0 "+" || Ascii.eqb c0 "-" then s0 else s in
    let hex :=
      match s1 with
      | String d0 (String d1 (String _ _)) =>
        Ascii.eqb d0 "0" && (lower d1 =? 120)
      | _ => false
      end in
    let s2 := if hex then skip 2 s1 else s1 in
    let '(st, s3) := digitLoop hex scan0 s2 in
    if negb (sawdigits st) then None
    else
      let dp0 := if sawdot st then dp st else nd st in
      let dp1 := if hex then dp0 * 4 else dp0 in
      let ndMant := if hex then nd st * 4 else nd st in
      let finish (dp2 : Z) (us : bool) (left : string)
        : option (bool * bool * Z * Z) :=
        match left with
        | "" =>
          if us && negb (underscoreOK s) then None
          else Some (neg, hex, mant st, dp2 - ndMant)
        | String _ _ => None
        end in
      match s3 with
      | String e s4 =>
        if lower e =? (if hex then 112 else 101) then
          match s4 with
          | "" => None
          | String g s5 =>
            let esign := if Ascii.eqb g "-" then -1 else 1 in
            let s6 := if Ascii.eqb g "+" || Ascii.eqb g "-" then s5 else s4 in
            match s6 with
            | String d _ =>
              if isDigit d then
                let '(ex, us, s7) := expLoop 0 (underscores st) s6 in
                finish (dp1 + ex * esign) us s7
              else None
            | "" => None
            end
          end
        else if hex then None
        else finish dp1 (underscores st) s3
      | "" => if hex then None else finish dp1 (underscores st) s3
      end
  end.

(** [ParseFloat(s, 64)]: the nearest binary64 number to the number [s]
    writes; a syntax error with value 0 when [s] is not well-formed, a
    range error with an infinity when the number is too large. *)
Definition ParseFloat (s : string) : float * option error :=
  match special s with
  | Some (f, n) =>
    if (n =? String.length s)%nat then (f, None) else (0%float, Some ErrSyntax)
  | None =>
    match readFloat s with
    | None => (0%float, Some ErrSyntax)
    | Some (neg, hex, m, e) =>
      let v := if hex then float64.roundBinary m e else float64.roundDecimal m e in
      match v with
      | S754_infinity _ => (float64.Inf neg, Some ErrRange)
      | _ =>
        let f := SF2Prim v in
        (if neg then PrimFloat.opp f else f, None)
      end
    end
  end.

End strconv.

Module fmt.

Definition digitsOf (n : Z) : string :=
  NilZero.string_of_uint (N.to_uint (Z.to_N n)).

Fixpoint zeros (n : nat) : string :=
  match n with
  | O => ""
  | S n' => String "0" (zeros n')
  end.

(** The integer nearest to [m * 2^e * 10^4], ties to even. *)
Definition scaled4 (m e : Z) : Z :=
  if 0 <=? e then m * 2 ^ e * 10000
  else
    let den := 2 ^ (- e) in
    let '(q, r) := Z.div_eucl (m * 10000) den in
    match 2 * r ?= den with
    | Lt => q
    | Gt => q + 1
    | Eq => if Z.even q then q else q + 1
    end.

Definition fixed4 (neg : bool) (n : Z) : string :=
  let frac := digitsOf (n mod 10000) in
  (if neg then "-" else "") ++ digitsOf (n / 10000) ++ "."
    ++ zeros (4 - String.length frac) ++ frac.

(** [Sprintf("%.4f", v)]: the exact value of [v] rounded to four
    decimals, ties to even. *)
Definition Sprintf_4f (v : float) : string :=
  match Prim2SF v with
  | S754_nan => "NaN"
  | S754_infinity neg => if neg then "-Inf" else "+Inf"
  | S754_zero neg => fixed4 neg 0
  | S754_finite neg m e => fixed4 neg (scaled4 (Z.pos m) e)
  end.

End fmt.

(** * The program *)

#[local] Set Warnings "-inexact-float,-register-all".

(** ** Data *)

(** Go's [error] values: the errors of [strconv.ParseFloat] and the errors
    made by [fmt.Errorf], told apart by their message. *)
Inductive error : Type :=
| NumError (why : strconv.error)
| Errorf (msg : string).

(** A value decoded from JSON into an [interface{}]. *)
Inductive jsonValue : Type :=
| JNull
| JBool (b : bool)
| JNumber (v : float)
| JString (v : string)
| JArray (elems : list jsonValue)
| JObject (members : list (string * jsonValue)).

(** A [[]string]: a slice header over a backing array of the store.  The
    slice covers the elements [offset] to [offset + len - 1] of the array
    at address [array]; a slice of length 0 stands for [nil] too. *)
Record stringSlice : Type := {
  array : nat;
  offset : nat;
  len : nat
}.

(** The store of backing arrays, by address. *)
Abbreviation store := (gmap nat (list string)).

Definition nilSlice : stringSlice := {| array := 0; offset := 0; len := 0 |}.

(** The elements of a slice, as the store has them. *)
Definition elements (h : store) (s : stringSlice) : list string :=
  take (len s) (drop (offset s) (default [] (h !! array s))).

(** [s[i]] and [s[i] = v]. *)
Definition index (h : store) (s : stringSlice) (i : nat) : option string :=
  default [] (h !! array s) !! (offset s + i)%nat.

Definition assign (h : store) (s : stringSlice) (i : nat) (v : string) : store :=
  alter (fun a => <[(offset s + i)%nat := v]> a) (array s) h.

(** A slice over a new backing array holding [l]. *)
Definition allocate (h : store) (l : list string) : store * stringSlice :=
  let a := fresh (dom h) in
  (<[a := l]> h, {| array := a; offset := 0; len := length l |}).

(** The structs of [main.go].  The fields [ServingSize] and [Allergens] of
    [OpenFoodFactsProduct] are named [RawServingSize] and [RawAllergens]
    here, and the field [Type] of [ServingSize] is [Type_]. *)
Record OpenFoodFactsProduct : Type := {
  ID : string;
  Code : string;
  ProductName : string;
  ProductNameEn : string;
  ProductNameFr : string;
  ProductNameEs : string;
  ProductNameDe : string;
  ProductNameIt : string;
  ProductNameNl : string;
  ProductNamePl : string;
  ProductNamePt : string;
  ProductNameUk : string;
  ProductNameBg : string;
  ProductNameRo : string;
  ProductNameEl : string;
  ProductNameRu : string;
  ProductNameTr : string;
  ProductNameAr : string;
  ProductNameHi : string;
  Lang : string;
  Brands : string;
  RawServingSize : string;
  Nutriments : gmap string jsonValue;
  RawAllergens : string;
  AllergensTags : stringSlice;
  IngredientsTags : stringSlice
}.

Record ServingSize : Type := {
  MeasurementUnit : string;
  Type_ : Z;
  Quantity : float;
  WeightInGrams : float;
  Calories : float;
  Protein : float;
  Fat : float;
  Carbs : float;
  Fiber : float;
  Sugar : float;
  Sodium : float;
  Cholesterol : float;
  Calcium : float;
  Iron : float;
  Potassium : float;
  Magnesium : float;
  Zinc : float;
  VitaminAIU : float;
  VitaminC : float;
  VitaminD : float;
  VitaminDIU : float;
  VitaminE : float;
  VitaminK : float;
  Thiamin : float;
  Riboflavin : float;
  Niacin : float;
  VitaminB6 : float;
  Folate : float;
  VitaminB12 : float;
  Phosphorus : float;
  Copper : float;
  Manganese : float;
  Selenium : float;
  Water : float;
  Ash : float;
  SaturatedFat : float;
  MonounsaturatedFat : float;
  PolyunsaturatedFat : float;
  TransFat : float
}.

Record FoodItem : Type := {
  Name : string;
  OffID : string;
  Brand : string;
  Barcode : string;
  ServingSizes : list ServingSize;
  Allergens : stringSlice;
  IngredientAllergens : list string;
  Translations : gmap string string
}.

(** ** Allergens *)

Definition AllergenMap : gmap string string :=
  list_to_map [
    ("MILK", "milk");
    ("EGGS", "eggs");
    ("EGG", "eggs");
    ("FISH", "fish");
    ("SHELLFISH", "shellfish");
    ("CRUSTACEAN SHELLFISH", "crustacean_shellfish");
    ("CRUSTACEAN_SHELLFISH", "crustacean_shellfish");
    ("TREE NUTS", "tree_nuts");
    ("TREE_NUTS", "tree_nuts");
    ("PEANUTS", "peanuts");
    ("PEANUT", "peanuts");
    ("WHEAT", "wheat");
    ("SOY", "soy");
    ("SOYBEAN", "soy");
    ("SOYBEANS", "soy");
    ("SESAME", "sesame");
    ("ALMONDS", "almonds");
    ("ALMOND", "almonds");
    ("NUTS", "nuts");
    ("BRAZIL NUT", "brazil_nuts");
    ("BRAZIL_NUT", "brazil_nuts");
    ("BRAZIL NUTS", "brazil_nuts");
    ("BRAZIL_NUTS", "brazil_nuts");
    ("CASHEWS", "cashews");
    ("HAZELNUTS", "hazelnuts");
    ("MACADAMIA NUTS", "macadamia_nuts");
    ("MACADAMIA_NUTS", "macadamia_nuts");
    ("PECANS", "pecans");
    ("PINE NUTS", "pine_nuts");
    ("PINE_NUTS", "pine_nuts");
    ("PISTACHIOS", "pistachios");
    ("WALNUTS", "walnuts");
    ("ANCHOVY", "anchovy");
    ("COD", "cod");
    ("MAHI MAHI", "mahi_mahi");
    ("MAHI_MAHI", "mahi_mahi");
    ("SALMON", "salmon");
    ("TUNA", "tuna");
    ("CRAB", "crab");
    ("CRABS", "crab");
    ("LOBSTER", "lobster");
    ("LOBSTERS", "lobster");
    ("SHRIMP", "shrimp");
    ("SHRIMPS", "shrimp");
    ("CLAMS", "clams");
    ("CLAM", "clams");
    ("MUSSELS", "mussels");
    ("MUSSEL", "mussels");
    ("OYSTERS", "oysters");
    ("OYSTER", "oysters");
    ("SCALLOPS", "scallops");
    ("SCALLOP", "scallops");
    ("BARLEY", "barley");
    ("RYE", "rye");
    ("OATS", "oats");
    ("TRITICALE", "triticale");
    ("GLUTEN", "gluten");
    ("CELERY", "celery");
    ("MUSTARD", "mustard");
    ("SULFITES", "sulfites");
    ("LUPIN", "lupin");
    ("MOLLUSKS", "mollusks");
    ("CORN", "corn");
    ("GELATIN", "gelatin");
    ("SEEDS", "seeds");
    ("SUNFLOWER SEEDS", "sunflower_seeds");
    ("SUNFLOWER_SEEDS", "sunflower_seeds");
    ("POPPY SEEDS", "poppy_seeds");
    ("POPPY_SEEDS", "poppy_seeds");
    ("COTTONSEED", "cottonseed");
    ("COCONUT", "coconut");
    ("PALM", "palm");
    ("BUCKWHEAT", "buckwheat");
    ("BEEF", "beef");
    ("PORK", "pork");
    ("CHICKEN", "chicken");
    ("GARLIC", "garlic");
    ("ONION", "onion");
    ("TOMATO", "tomato");
    ("LATEX", "latex");
    ("CARMINE", "carmine");
    ("COCHINEAL", "cochineal");
    ("ANNATTO", "annatto");
    ("MSG", "msg");
    ("SULFUR DIOXIDE", "sulfur_dioxide");
    ("SULFUR_DIOXIDE", "sulfur_dioxide");
    ("BENZOATES", "benzoates");
    ("FOOD COLORS", "food_colors");
    ("FOOD_COLORS", "food_colors");
    ("YELLOW 5", "yellow_5");
    ("YELLOW_5", "yellow_5");
    ("RED 40", "red_40");
    ("RED_40", "red_40")
  ].

(** What [parseServingSize] returns: quantity, measurement unit, weight in
    grams, serving type. *)
Abbreviation parsed := (float * string * float * Z)%type.

Section Program.
Context `{CaseTables}.

Definition normalizeAllergen (allergen : string) : string :=
  let upperAllergen := strings.ToUpper (strings.TrimSpace allergen) in
  let upperAllergen := strings.TrimPrefix upperAllergen "EN:" in
  match AllergenMap !! upperAllergen with
  | Some normalized => normalized
  | None => strings.ToLower allergen
  end.

Definition extractIngredientAllergen (ingredientTag : string) : string :=
  let upperIngredientTag := strings.ToUpper (strings.TrimSpace ingredientTag) in
  let upperIngredientTag := strings.TrimPrefix upperIngredientTag "EN:" in
  match AllergenMap !! upperIngredientTag with
  | Some normalized => normalized
  | None => ""
  end.

(** ** Nutrients *)

Definition toFloat64 (value : jsonValue) : float * option error :=
  match value with
  | JNumber v => (v, None)
  | JString v =>
    match strconv.ParseFloat (strings.TrimSpace v) with
    | (f, None) => (f, None)
    | (f, Some e) => (f, Some (NumError e))
    end
  | _ => (0%float, Some (Errorf "unsupported type"))
  end.

Definition convertUnit (unitConversion : string) (fval : float) : float :=
  if String.eqb unitConversion "g_to_mg" then (fval * 1000)%float
  else if String.eqb unitConversion "g_to_ug" then (fval * 1e6)%float
  else fval.

(** The assignments [mapNutrient] makes to [*field], in order: the loop
    over the keys returns after its first assignment, and goes on to the
    next key when a key is absent or its value does not convert. *)
Fixpoint mapNutrientWrites (nutriments : gmap string jsonValue)
  (unitConversion : string) (keys : list string) : list float :=
  match keys with
  | [] => []
  | key :: keys' =>
    match nutriments !! key with
    | Some value =>
      match toFloat64 value with
      | (fval, None) => [convertUnit unitConversion fval]
      | (_, Some _) => mapNutrientWrites nutriments unitConversion keys'
      end
    | None => mapNutrientWrites nutriments unitConversion keys'
    end
  end.

(** [mapNutrient(&field, ...)]: the content of [field] afterwards, given
    its content before. *)
Definition mapNutrient (field : float) (nutriments : gmap string jsonValue)
  (unitConversion : string) (keys : list string) : float :=
  List.last (mapNutrientWrites nutriments unitConversion keys) field.

(** ** Units *)

Definition convertToGrams (quantity : float) (unit_ : string) : float :=
  let u := strings.ToLower unit_ in
  if existsb (String.eqb u) ["g"; "gram"; "grams"; "gr"; "grm"; "g."; "gr."; "grm."]
  then quantity
  else if existsb (String.eqb u) ["kg"; "kilogram"; "kilograms"]
  then (quantity * 1000)%float
  else if existsb (String.eqb u) ["mg"; "milligram"; "milligrams"]
  then (quantity / 1000)%float
  else if existsb (String.eqb u) ["oz"; "ounces"; "oz."; "ounce"; "onz"; "ozn"; "oza"]
  then (quantity * 28.3495)%float
  else if existsb (String.eqb u) ["lb"; "pound"; "pounds"]
  then (quantity * 453.592)%float
  else if existsb (String.eqb u) ["ml"]
  then quantity
  else if existsb (String.eqb u) ["l"; "liter"; "litre"; "liters"; "litres"]
  then (quantity * 1000)%float
  else 0%float.

Definition isMetricUnit (unit_ : string) : bool :=
  let metricUnits :=
    ["g"; "gram"; "grams"; "gr"; "grm"; "g."; "gr."; "grm."; "kg";
     "kilogram"; "kilograms"; "ml"; "l"; "liter"; "litre"; "liters";
     "litres"] in
  existsb (fun u => String.eqb unit_ u) metricUnits.

Definition isImperialUnit (unit_ : string) : bool :=
  let imperialUnits :=
    ["oz"; "ounce"; "ounces"; "onz"; "ozn"; "oza"; "lb"; "pound";
     "pounds"; "fl oz"] in
  existsb (fun u => String.eqb unit_ u) imperialUnits.

Definition estimateWeightFromUnit (quantity : float) (unit_ : string) : float :=
  let lowerUnit := strings.ToLower unit_ in
  if existsb (String.eqb lowerUnit) ["cup"; "cups"]
  then (quantity * 240)%float
  else if existsb (String.eqb lowerUnit) ["tbsp"; "tablespoon"; "tablespoons"]
  then (quantity * 15)%float
  else if existsb (String.eqb lowerUnit) ["tsp"; "teaspoon"; "teaspoons"]
  then (quantity * 5)%float
  else if existsb (String.eqb lowerUnit) ["slice"; "slices"]
  then (quantity * 28)%float
  else if existsb (String.eqb lowerUnit) ["cookie"; "cookies"]
  then (quantity * 15)%float
  else 0%float.

(** [matches[i]] of a match that was found. *)
Definition group (matches : list string) (i : nat) : string := nth i matches "".

Definition extractWeightFromMeasurementUnit (measurementUnit : string) : float :=
  let re := regexp.MustCompile "(?i)(\d*\.?\d+)\s*(g|gr|grm|gram|kg|mg|ml|l|oz|ounces|fl oz)" in
  match regexp.FindStringSubmatch re measurementUnit with
  | Some matches =>
    let weightQtyStr := group matches 1 in
    let weightUnit := group matches 2 in
    match strconv.ParseFloat (strings.TrimSpace weightQtyStr) with
    | (weightQty, None) => convertToGrams weightQty weightUnit
    | (_, Some _) => 0%float
    end
  | None => 0%float
  end.

(** ** Cleaning the serving-size text *)

Definition convertFractions (input : string) : string :=
  let re := regexp.MustCompile "(\d+)\s*/\s*(\d+)" in
  let matches := regexp.FindAllStringSubmatch re input in
  fold_left (fun input match_ =>
    let numerator := fst (strconv.ParseFloat (group match_ 1)) in
    let denominator := fst (strconv.ParseFloat (group match_ 2)) in
    if negb (PrimFloat.eqb denominator 0) then
      let decimalValue := (numerator / denominator)%float in
      strings.ReplaceAll input (group match_ 0) (fmt.Sprintf_4f decimalValue)
    else input) matches input.

Definition removeNestedParentheses (input : string) : string :=
  let re := regexp.MustCompile "\([^()]*\)" in
  let matches := regexp.FindAllStringIndex re input in
  if (1 <? length matches)%nat then
    match matches with
    | (_, e) :: _ => keep e input
    | [] => input
    end
  else input.

Definition handleDescriptors (input : string) : string :=
  let descriptors :=
    ["chips"; "slice"; "slices"; "cookie"; "cookies"; "pouch"; "pouches";
     "can"; "cans"; "bottle"; "bottles"; "box"; "boxes"; "bag"; "bags";
     "piece"; "pieces"] in
  fold_left (fun input desc =>
    let re := regexp.MustCompile ("(?i)^" ++ desc ++ "\s+") in
    regexp.ReplaceAllString re input "") descriptors input.

(** The statements of [parseServingSize] before its first pattern: the
    value of [servingSizeStr] that the patterns are tried on. *)
Definition cleanServingSize (servingSizeStr : string) : string :=
  let servingSizeStr := strings.TrimSpace servingSizeStr in
  let servingSizeStr := strings.TrimSpace servingSizeStr in
  let servingSizeStr := strings.TrimSuffix servingSizeStr "|" in
  let servingSizeStr := strings.ReplaceAll servingSizeStr "OZA" "OZ" in
  let servingSizeStr := strings.ReplaceAll servingSizeStr "OZN" "OZ" in
  let servingSizeStr := strings.ReplaceAll servingSizeStr "ONZ" "OZ" in
  let servingSizeStr := strings.ReplaceAll servingSizeStr "Amount per serving" "Serving" in
  let servingSizeStr := strings.ReplaceAll servingSizeStr "FL.OZ" "FL OZ" in
  let servingSizeStr := strings.ReplaceAll servingSizeStr "," "." in
  let servingSizeStr := regexp.ReplaceAllString (regexp.MustCompile "\s+") servingSizeStr " " in
  let servingSizeStr := strings.Trim servingSizeStr "|" in
  let servingSizeStr := handleDescriptors servingSizeStr in
  let servingSizeStr := strings.ReplaceAll servingSizeStr "," "." in
  let servingSizeStr := convertFractions servingSizeStr in
  removeNestedParentheses servingSizeStr.

(** ** The serving-size parser *)

(** [v, err := strconv.ParseFloat(strings.TrimSpace(s), 64)] followed by
    [if err != nil { v = d }]. *)
Definition floatOr (d : float) (s : string) : float :=
  match strconv.ParseFloat (strings.TrimSpace s) with
  | (v, None) => v
  | (_, Some _) => d
  end.

(** The [servingType] of a unit label: 1 metric, 2 imperial, 3 other. *)
Definition servingTypeOf (measurementUnit : string) : Z :=
  let lowerUnit := strings.ToLower measurementUnit in
  if isMetricUnit lowerUnit then 1
  else if isImperialUnit lowerUnit then 2
  else 3.

(** The patterns, in the order [parseServingSize] tries them. *)
Definition reBareWeight : regexp.Regexp :=
  regexp.MustCompile "^(\d*\.?\d+)\s*(g|gr|grm|gram|kg|mg|ml|l)$".
Definition reLabelWeight : regexp.Regexp :=
  regexp.MustCompile "(?i)^(?:(\d*\.?\d+)\s+)?([^\(]+?)\s*(?:\(\s*(\d*\.?\d+)\s*(g|gr|grm|gram|kg|mg|ml|l|oz|fl oz|ounces|cup|cups)\s*\))?$".
Definition reQtyLabelWeight : regexp.Regexp :=
  regexp.MustCompile "(?i)^(?:(\d*\.?\d+)\s+([^\(]+?))\s*(?:\(\s*(\d*\.?\d+)\s*(g|gr|grm|gram|kg|mg|ml|l|oz|fl oz|ounces)\s*\))?$".
Definition reBottle : regexp.Regexp :=
  regexp.MustCompile "(?i)^(?:(\d*\.?\d+)\s+([^\(]+?))\s*\(\s*(\d*\.?\d+)\s*(g|gr|grm|gram|kg|ml|l|oz|fl oz|ounces)\s*\)$".
Definition reOunceSlashGram : regexp.Regexp :=
  regexp.MustCompile "(?i)^(?:(\d*\.?\d+)\s+([^\(]+?))\s+(\d*\.?\d+)\s*(oz|ounces)\s*/\s*(\d*\.?\d+)\s*(g|gr|grm|gram)$".
Definition reWeightFirst : regexp.Regexp :=
  regexp.MustCompile "(?i)^(?:(\d*\.?\d+)\s*(g|gr|grm|gram|ml|l|oz|fl oz))\s*\(\s*(\d*\.?\d+)?\s*([^\)]+)\s*\)$".
Definition reQtyLabelGrams : regexp.Regexp :=
  regexp.MustCompile "(?i)^(?:(\d*\.?\d+)\s+([^\(]+))\s*\(\s*(\d*\.?\d+)\s*(?:g|gr|grm|gram)\s*\)$".
Definition reWeightGrams : regexp.Regexp :=
  regexp.MustCompile "(?i)^(?:(\d*\.?\d+)\s*(g|gr|grm|gram|ml|oz|fl oz))\s*\(\s*(\d*\.?\d+)\s*(?:g|gr|grm|gram)\s*\)$".
Definition reUnit : regexp.Regexp :=
  regexp.MustCompile "(?i)^([^\s]+)\s+(\d*\.?\d+)\s*(g|gr|grm|gram|ml|oz|fl oz)$".
Definition reSimple : regexp.Regexp :=
  regexp.MustCompile "(?i)^(\d*\.?\d+)\s*(g|gr|grm|gram|ml|oz|fl oz)$".

(** The first pattern: a number and a weight or volume unit.  It returns
    when the number does not parse or when the weight in grams is the
    number itself, and lets the later patterns run otherwise. *)
Definition onBareWeight (servingSizeStr : string) (matches : list string)
  : option parsed :=
  let qtyStr := group matches 1 in
  let unitStr := group matches 2 in
  match strconv.ParseFloat qtyStr with
  | (_, Some _) => Some (1%float, servingSizeStr, 0%float, 3)
  | (weightQty, None) =>
    let weightInGrams := convertToGrams weightQty unitStr in
    if PrimFloat.eqb weightInGrams weightQty
       || (String.eqb unitStr "ml" && PrimFloat.eqb weightInGrams weightQty)
    then Some (1%float, "Serving", weightInGrams, 3)
    else None
  end.

Definition onLabelWeight (matches : list string) : parsed :=
  let qtyStr := group matches 1 in
  let unitStr := group matches 2 in
  let weightQtyStr := group matches 3 in
  let weightUnit := strings.ToLower (group matches 4) in
  let quantity := if String.eqb qtyStr "" then 1%float else floatOr 1 qtyStr in
  let measurementUnit := strings.TrimSpace unitStr in
  let measurementUnit := strings.TrimSuffix measurementUnit " e" in
  let weightInGrams :=
    if negb (String.eqb weightQtyStr "") && negb (String.eqb weightUnit "") then
      match strconv.ParseFloat (strings.TrimSpace weightQtyStr) with
      | (weightQty, None) => convertToGrams weightQty weightUnit
      | (_, Some _) => 0%float
      end
    else 0%float in
  let weightInGrams :=
    if PrimFloat.eqb weightInGrams 0
    then extractWeightFromMeasurementUnit measurementUnit
    else weightInGrams in
  let weightInGrams :=
    if PrimFloat.eqb weightInGrams 0
    then estimateWeightFromUnit quantity measurementUnit
    else weightInGrams in
  (quantity, measurementUnit, weightInGrams, servingTypeOf measurementUnit).

Definition onQtyLabelWeight (matches : list string) : parsed :=
  let qtyStr := group matches 1 in
  let unitStr := group matches 2 in
  let weightQtyStr := group matches 3 in
  let weightUnit := strings.ToLower (group matches 4) in
  let quantity := floatOr 1 qtyStr in
  let measurementUnit := strings.TrimSpace unitStr in
  let weightInGrams :=
    if negb (String.eqb weightQtyStr "") && negb (String.eqb weightUnit "") then
      match strconv.ParseFloat (strings.TrimSpace weightQtyStr) with
      | (weightQty, None) => convertToGrams weightQty weightUnit
      | (_, Some _) => 0%float
      end
    else 0%float in
  let weightInGrams :=
    if PrimFloat.eqb weightInGrams 0
    then estimateWeightFromUnit quantity measurementUnit
    else weightInGrams in
  (quantity, measurementUnit, weightInGrams, servingTypeOf measurementUnit).

Definition onBottle (matches : list string) : parsed :=
  let qtyStr := group matches 1 in
  let unitStr := group matches 2 in
  let weightQtyStr := group matches 3 in
  let weightUnit := strings.ToLower (group matches 4) in
  let quantity := floatOr 1 qtyStr in
  let measurementUnit := strings.TrimSpace unitStr in
  let weightQty := floatOr 0 weightQtyStr in
  let weightInGrams := convertToGrams weightQty weightUnit in
  (quantity, measurementUnit, weightInGrams, servingTypeOf measurementUnit).

Definition onOunceSlashGram (matches : list string) : parsed :=
  let qtyStr := group matches 1 in
  let unitStr := group matches 2 in
  let gQtyStr := group matches 5 in
  let quantity := floatOr 1 qtyStr in
  let measurementUnit := strings.TrimSpace unitStr in
  let weightQty := floatOr 0 gQtyStr in
  let weightInGrams := weightQty in
  (quantity, measurementUnit, weightInGrams, 3).

Definition onWeightFirst (matches : list string) : parsed :=
  let weightQtyStr := group matches 1 in
  let weightUnit := strings.ToLower (group matches 2) in
  let weightQty := floatOr 0 weightQtyStr in
  let weightInGrams := convertToGrams weightQty weightUnit in
  let qtyStr := group matches 3 in
  let unitStr := group matches 4 in
  let quantity := if String.eqb qtyStr "" then 1%float else floatOr 1 qtyStr in
  let measurementUnit := strings.TrimSpace unitStr in
  (quantity, measurementUnit, weightInGrams, servingTypeOf measurementUnit).

(** The handler of both [reQtyLabelGrams] and [reWeightGrams]: the two
    blocks of the source are the same. *)
Definition onGrams (matches : list string) : parsed :=
  let qtyStr := group matches 1 in
  let unitStr := group matches 2 in
  let weightStr := group matches 3 in
  let quantity := floatOr 1 qtyStr in
  let measurementUnit := strings.TrimSpace unitStr in
  let weightInGrams := floatOr 0 weightStr in
  (quantity, measurementUnit, weightInGrams, servingTypeOf measurementUnit).

Definition onUnit (matches : list string) : parsed :=
  let unitStr := group matches 1 in
  let qtyStr := group matches 2 in
  let weightUnit := group matches 3 in
  let quantity := floatOr 1 qtyStr in
  let measurementUnit := strings.TrimSpace unitStr in
  let weightInGrams := convertToGrams quantity weightUnit in
  (quantity, measurementUnit, weightInGrams, servingTypeOf measurementUnit).

Definition onSimple (matches : list string) : parsed :=
  let qtyStr := group matches 1 in
  let unitStr := group matches 2 in
  let quantity := floatOr 1 qtyStr in
  let measurementUnit := strings.TrimSpace unitStr in
  let weightInGrams := quantity in
  (quantity, measurementUnit, weightInGrams, servingTypeOf measurementUnit).

(** The patterns after the first one, each with its handler; the first
    that matches returns. *)
Definition laterPatterns : list (regexp.Regexp * (list string -> parsed)) :=
  [ (reLabelWeight, onLabelWeight);
    (reQtyLabelWeight, onQtyLabelWeight);
    (reBottle, onBottle);
    (reOunceSlashGram, onOunceSlashGram);
    (reWeightFirst, onWeightFirst);
    (reQtyLabelGrams, onGrams);
    (reWeightGrams, onGrams);
    (reUnit, onUnit);
    (reSimple, onSimple) ].

Fixpoint firstMatch (patterns : list (regexp.Regexp * (list string -> parsed)))
  (servingSizeStr : string) : parsed :=
  match patterns with
  | [] => (1%float, servingSizeStr, 0%float, 3)
  | (re, handler) :: patterns' =>
    match regexp.FindStringSubmatch re servingSizeStr with
    | Some matches => handler matches
    | None => firstMatch patterns' servingSizeStr
    end
  end.

Definition parseServingSize (servingSizeStr : string) : parsed :=
  let servingSizeStr := cleanServingSize servingSizeStr in
  let early :=
    match regexp.FindStringSubmatch reBareWeight servingSizeStr with
    | Some matches => onBareWeight servingSizeStr matches
    | None => None
    end in
  match early with
  | Some result => result
  | None => firstMatch laterPatterns servingSizeStr
  end.

(** ** The record normalizer *)

Definition extractBrand (brands : string) : string :=
  let brandsSplit := strings.Split (strings.TrimSpace brands) "," in
  match brandsSplit with
  | [] => brands
  | first :: _ => strings.TrimSpace first
  end.

(** [toTitle] slices [s[:1]] and [s[1:]]; its caller passes a string of
    two bytes or more. *)
Definition toTitle (s : string) : string :=
  strings.ToUpper (keep 1 s) ++ strings.ToLower (skip 1 s).

Definition isAsciiOnly (s : string) : bool :=
  strings.IndexFunc s (fun r => r >? unicode.MaxASCII) =? -1.

(** Calories left at 0 are computed from protein, fat and carbohydrates. *)
Definition backfill (calories protein fat carbs : float) : float :=
  if PrimFloat.eqb calories 0
  then (protein * 4 + fat * 9 + carbs * 4)%float
  else calories.

(** The serving size for 100 g, with the [_100g] nutrients. *)
Definition per100gServing (nutriments : gmap string jsonValue) : ServingSize :=
  let vCalories := mapNutrient 0 nutriments "" ["energy-kcal_100g"] in
  let vProtein := mapNutrient 0 nutriments "" ["proteins_100g"] in
  let vFat := mapNutrient 0 nutriments "" ["fat_100g"] in
  let vCarbs := mapNutrient 0 nutriments "" ["carbohydrates_100g"] in
  let vFiber := mapNutrient 0 nutriments "" ["fiber_100g"] in
  let vSugar := mapNutrient 0 nutriments "" ["sugars_100g"] in
  let vSodium := mapNutrient 0 nutriments "g_to_mg" ["sodium_100g"] in
  let vCholesterol := mapNutrient 0 nutriments "g_to_mg" ["cholesterol_100g"] in
  let vCalcium := mapNutrient 0 nutriments "g_to_mg" ["calcium_100g"] in
  let vIron := mapNutrient 0 nutriments "g_to_mg" ["iron_100g"] in
  let vPotassium := mapNutrient 0 nutriments "g_to_mg" ["potassium_100g"] in
  let vMagnesium := mapNutrient 0 nutriments "g_to_mg" ["magnesium_100g"] in
  let vZinc := mapNutrient 0 nutriments "g_to_mg" ["zinc_100g"] in
  let vVitaminAIU := mapNutrient 0 nutriments "" ["vitamin-a_iu_100g"] in
  let vVitaminC := mapNutrient 0 nutriments "g_to_mg" ["vitamin-c_100g"] in
  let vVitaminD := mapNutrient 0 nutriments "g_to_ug" ["vitamin-d_100g"] in
  let vVitaminDIU := mapNutrient 0 nutriments "" ["vitamin-d_iu_100g"] in
  let vVitaminE := mapNutrient 0 nutriments "g_to_mg" ["vitamin-e_100g"] in
  let vVitaminK := mapNutrient 0 nutriments "g_to_ug" ["vitamin-k_100g"] in
  let vThiamin := mapNutrient 0 nutriments "g_to_mg" ["thiamin_100g"] in
  let vRiboflavin := mapNutrient 0 nutriments "g_to_mg" ["riboflavin_100g"] in
  let vNiacin := mapNutrient 0 nutriments "g_to_mg" ["niacin_100g"] in
  let vVitaminB6 := mapNutrient 0 nutriments "g_to_mg" ["vitamin-b6_100g"] in
  let vFolate := mapNutrient 0 nutriments "g_to_ug" ["folate_100g"] in
  let vVitaminB12 := mapNutrient 0 nutriments "g_to_ug" ["vitamin-b12_100g"] in
  let vPhosphorus := mapNutrient 0 nutriments "g_to_mg" ["phosphorus_100g"] in
  let vCopper := mapNutrient 0 nutriments "g_to_mg" ["copper_100g"] in
  let vManganese := mapNutrient 0 nutriments "g_to_mg" ["manganese_100g"] in
  let vSelenium := mapNutrient 0 nutriments "g_to_ug" ["selenium_100g"] in
  let vWater := mapNutrient 0 nutriments "" ["water_100g"] in
  let vAsh := mapNutrient 0 nutriments "" ["ash_100g"] in
  let vSaturatedFat := mapNutrient 0 nutriments "" ["saturated-fat_100g"] in
  let vMonounsaturatedFat := mapNutrient 0 nutriments "" ["monounsaturated-fat_100g"] in
  let vPolyunsaturatedFat := mapNutrient 0 nutriments "" ["polyunsaturated-fat_100g"] in
  let vTransFat := mapNutrient 0 nutriments "" ["trans-fat_100g"] in
  let vCalories := backfill vCalories vProtein vFat vCarbs in
  {| MeasurementUnit := "g";
     Type_ := 1;
     Quantity := 100;
     WeightInGrams := 100;
     Calories := vCalories;
     Protein := vProtein;
     Fat := vFat;
     Carbs := vCarbs;
     Fiber := vFiber;
     Sugar := vSugar;
     Sodium := vSodium;
     Cholesterol := vCholesterol;
     Calcium := vCalcium;
     Iron := vIron;
     Potassium := vPotassium;
     Magnesium := vMagnesium;
     Zinc := vZinc;
     VitaminAIU := vVitaminAIU;
     VitaminC := vVitaminC;
     VitaminD := vVitaminD;
     VitaminDIU := vVitaminDIU;
     VitaminE := vVitaminE;
     VitaminK := vVitaminK;
     Thiamin := vThiamin;
     Riboflavin := vRiboflavin;
     Niacin := vNiacin;
     VitaminB6 := vVitaminB6;
     Folate := vFolate;
     VitaminB12 := vVitaminB12;
     Phosphorus := vPhosphorus;
     Copper := vCopper;
     Manganese := vManganese;
     Selenium := vSelenium;
     Water := vWater;
     Ash := vAsh;
     SaturatedFat := vSaturatedFat;
     MonounsaturatedFat := vMonounsaturatedFat;
     PolyunsaturatedFat := vPolyunsaturatedFat;
     TransFat := vTransFat |}.

(** The serving size built from a parsed description, with the
    [_serving] nutrients. *)
Definition describedServing (nutriments : gmap string jsonValue)
  (measurementUnit : string) (servingType : Z)
  (quantity weightInGrams : float) : ServingSize :=
  let vCalories := mapNutrient 0 nutriments "" ["energy-kcal_serving"] in
  let vProtein := mapNutrient 0 nutriments "" ["proteins_serving"] in
  let vFat := mapNutrient 0 nutriments "" ["fat_serving"] in
  let vCarbs := mapNutrient 0 nutriments "" ["carbohydrates_serving"] in
  let vFiber := mapNutrient 0 nutriments "" ["fiber_serving"] in
  let vSugar := mapNutrient 0 nutriments "" ["sugars_serving"] in
  let vSodium := mapNutrient 0 nutriments "g_to_mg" ["sodium_serving"] in
  let vCholesterol := mapNutrient 0 nutriments "g_to_mg" ["cholesterol_serving"] in
  let vCalcium := mapNutrient 0 nutriments "g_to_mg" ["calcium_serving"] in
  let vIron := mapNutrient 0 nutriments "g_to_mg" ["iron_serving"] in
  let vPotassium := mapNutrient 0 nutriments "g_to_mg" ["potassium_serving"] in
  let vMagnesium := mapNutrient 0 nutriments "g_to_mg" ["magnesium_serving"] in
  let vZinc := mapNutrient 0 nutriments "g_to_mg" ["zinc_serving"] in
  let vVitaminAIU := mapNutrient 0 nutriments "" ["vitamin-a_iu_serving"] in
  let vVitaminC := mapNutrient 0 nutriments "g_to_mg" ["vitamin-c_serving"] in
  let vVitaminD := mapNutrient 0 nutriments "g_to_ug" ["vitamin-d_serving"] in
  let vVitaminDIU := mapNutrient 0 nutriments "" ["vitamin-d_iu_serving"] in
  let vVitaminE := mapNutrient 0 nutriments "g_to_mg" ["vitamin-e_serving"] in
  let vVitaminK := mapNutrient 0 nutriments "g_to_ug" ["vitamin-k_serving"] in
  let vThiamin := mapNutrient 0 nutriments "g_to_mg" ["thiamin_serving"] in
  let vRiboflavin := mapNutrient 0 nutriments "g_to_mg" ["riboflavin_serving"] in
  let vNiacin := mapNutrient 0 nutriments "g_to_mg" ["niacin_serving"] in
  let vVitaminB6 := mapNutrient 0 nutriments "g_to_mg" ["vitamin-b6_serving"] in
  let vFolate := mapNutrient 0 nutriments "g_to_ug" ["folate_serving"] in
  let vVitaminB12 := mapNutrient 0 nutriments "g_to_ug" ["vitamin-b12_serving"] in
  let vPhosphorus := mapNutrient 0 nutriments "g_to_mg" ["phosphorus_serving"] in
  let vCopper := mapNutrient 0 nutriments "g_to_mg" ["copper_serving"] in
  let vManganese := mapNutrient 0 nutriments "g_to_mg" ["manganese_serving"] in
  let vSelenium := mapNutrient 0 nutriments "g_to_ug" ["selenium_serving"] in
  let vWater := mapNutrient 0 nutriments "" ["water_serving"] in
  let vAsh := mapNutrient 0 nutriments "" ["ash_serving"] in
  let vSaturatedFat := mapNutrient 0 nutriments "" ["saturated-fat_serving"] in
  let vMonounsaturatedFat := mapNutrient 0 nutriments "" ["monounsaturated-fat_serving"] in
  let vPolyunsaturatedFat := mapNutrient 0 nutriments "" ["polyunsaturated-fat_serving"] in
  let vTransFat := mapNutrient 0 nutriments "" ["trans-fat_serving"] in
  let vCalories := backfill vCalories vProtein vFat vCarbs in
  {| MeasurementUnit := measurementUnit;
     Type_ := servingType;
     Quantity := quantity;
     WeightInGrams := weightInGrams;
     Calories := vCalories;
     Protein := vProtein;
     Fat := vFat;
     Carbs := vCarbs;
     Fiber := vFiber;
     Sugar := vSugar;
     Sodium := vSodium;
     Cholesterol := vCholesterol;
     Calcium := vCalcium;
     Iron := vIron;
     Potassium := vPotassium;
     Magnesium := vMagnesium;
     Zinc := vZinc;
     VitaminAIU := vVitaminAIU;
     VitaminC := vVitaminC;
     VitaminD := vVitaminD;
     VitaminDIU := vVitaminDIU;
     VitaminE := vVitaminE;
     VitaminK := vVitaminK;
     Thiamin := vThiamin;
     Riboflavin := vRiboflavin;
     Niacin := vNiacin;
     VitaminB6 := vVitaminB6;
     Folate := vFolate;
     VitaminB12 := vVitaminB12;
     Phosphorus := vPhosphorus;
     Copper := vCopper;
     Manganese := vManganese;
     Selenium := vSelenium;
     Water := vWater;
     Ash := vAsh;
     SaturatedFat := vSaturatedFat;
     MonounsaturatedFat := vMonounsaturatedFat;
     PolyunsaturatedFat := vPolyunsaturatedFat;
     TransFat := vTransFat |}.

(** The block of [ProcessProduct] that runs when the record has a
    serving-size description, up to the decision to keep the serving size:
    the unit, type, quantity and weight of the serving size to append, or
    [None] when the block appends nothing. *)
Definition resolveServing (description : string)
  : option (string * Z * float * float) :=
  let '(quantity, measurementUnit, weightInGrams, servingType) :=
    parseServingSize description in
  let weightInGrams :=
    if PrimFloat.eqb weightInGrams 0 && PrimFloat.ltb 0 quantity
    then convertToGrams quantity measurementUnit
    else weightInGrams in
  let lowerMeasurementUnit := strings.ToLower measurementUnit in
  let skip_ :=
    String.eqb lowerMeasurementUnit ""
    || String.eqb lowerMeasurementUnit "100g"
    || String.eqb lowerMeasurementUnit "100 g"
    || String.eqb lowerMeasurementUnit "100grams"
    || String.eqb lowerMeasurementUnit "100 grams" in
  if negb skip_ && PrimFloat.ltb 0 quantity
     && negb (PrimFloat.eqb weightInGrams 100)
  then
    let measurementUnit :=
      if (1 <? String.length measurementUnit)%nat && isAsciiOnly measurementUnit
      then toTitle measurementUnit
      else measurementUnit in
    Some (measurementUnit, servingType, quantity, weightInGrams)
  else None.

(** The serving sizes that block appends: one or none. *)
Definition describedServings (nutriments : gmap string jsonValue)
  (description : string) : list ServingSize :=
  match resolveServing description with
  | Some (measurementUnit, servingType, quantity, weightInGrams) =>
    [describedServing nutriments measurementUnit servingType quantity
                      weightInGrams]
  | None => []
  end.

(** The loop [for i, allergen := range allergens] that stores the
    normalized allergen back at [allergens[i]]: the store after the
    iterations [i], [i + 1], ... ([n] of them).  An index outside the
    backing array cannot occur for a slice Go has built and is skipped. *)
Fixpoint normalizeInPlace (h : store) (allergens : stringSlice) (i n : nat)
  : store :=
  match n with
  | O => h
  | S n' =>
    match index h allergens i with
    | Some allergen =>
      normalizeInPlace (assign h allergens i (normalizeAllergen allergen))
                       allergens (S i) n'
    | None => normalizeInPlace h allergens (S i) n'
    end
  end.

(** Go leaves the order in which [range] visits a map unspecified;
    [order] decides which entry is visited first. *)
Definition rangeFirst (order : nat) (m : gmap string string) : option string :=
  snd <$> (map_to_list m !! (order mod length (map_to_list m))%nat).

Definition lookupOrEmpty (m : gmap string string) (key : string) : string :=
  default "" (m !! key).

(** [ProcessProduct] is modelled in the order of its statements: the
    translations, the display name, the allergens, the ingredient
    allergens, the serving sizes, and the function itself. *)

(** The translations gathered from the name fields of the record. *)
Definition collectTranslations (product : OpenFoodFactsProduct)
  : gmap string string :=
  let translations : gmap string string := ∅ in
  let translations :=
    if negb (String.eqb (ProductNameEn product) "")
    then <["en" := ProductNameEn product]> translations else translations in
  let translations :=
    if negb (String.eqb (ProductNameFr product) "")
    then <["fr" := ProductNameFr product]> translations else translations in
  let translations :=
    if negb (String.eqb (ProductNameEs product) "")
    then <["es" := ProductNameEs product]> translations else translations in
  let translations :=
    if negb (String.eqb (ProductNameDe product) "")
    then <["de" := ProductNameDe product]> translations else translations in
  let translations :=
    if negb (String.eqb (ProductNameIt product) "")
    then <["it" := ProductNameIt product]> translations else translations in
  let translations :=
    if negb (String.eqb (ProductNameNl product) "")
    then <["nl" := ProductNameNl product]> translations else translations in
  let translations :=
    if negb (String.eqb (ProductNamePl product) "")
    then <["pl" := ProductNamePl product]> translations else translations in
  let translations :=
    if negb (String.eqb (ProductNamePt product) "")
    then <["pt" := ProductNamePt product]> translations else translations in
  let translations :=
    if negb (String.eqb (ProductNameUk product) "")
    then <["uk" := ProductNameUk product]> translations else translations in
  let translations :=
    if negb (String.eqb (ProductNameBg product) "")
    then <["bg" := ProductNameBg product]> translations else translations in
  let translations :=
    if negb (String.eqb (ProductNameRo product) "")
    then <["ro" := ProductNameRo product]> translations else translations in
  let translations :=
    if negb (String.eqb (ProductNameEl product) "")
    then <["el" := ProductNameEl product]> translations else translations in
  let translations :=
    if negb (String.eqb (ProductNameRu product) "")
    then <["ru" := ProductNameRu product]> translations else translations in
  let translations :=
    if negb (String.eqb (ProductNameTr product) "")
    then <["tr" := ProductNameTr product]> translations else translations in
  let translations :=
    if negb (String.eqb (ProductNameAr product) "")
    then <["ar" := ProductNameAr product]> translations else translations in
  let translations :=
    if negb (String.eqb (ProductNameHi product) "")
    then <["hi" := ProductNameHi product]> translations else translations in
  translations.

(** The display name, and the translations once a record that has only a
    default name has been registered under its language. *)
Definition chooseName (order : nat) (product : OpenFoodFactsProduct)
  : string * gmap string string :=
  let translations := collectTranslations product in
  let name := lookupOrEmpty translations "en" in
  let name := if String.eqb name "" then ProductName product else name in
  let translations :=
    if negb (String.eqb (ProductName product) "")
       && (size translations =? 0)%nat
       && negb (String.eqb (Lang product) "")
    then <[strings.ToLower (Lang product) := name]> translations
    else translations in
  let name :=
    if String.eqb name "" && (0 <? size translations)%nat
       && negb (String.eqb (Lang product) "")
    then lookupOrEmpty translations (strings.ToLower (Lang product))
    else name in
  let name :=
    if String.eqb name "" && (0 <? size translations)%nat
    then default name (rangeFirst order translations)
    else name in
  (name, translations).

(** The allergens: the tag list of the record, or the pieces of its
    allergen text when the tag list is empty, each element then
    overwritten by its normalized form.  [allergens := product.AllergensTags]
    copies the slice header, not the backing array. *)
Definition normalizedAllergens (h : store) (product : OpenFoodFactsProduct)
  : store * stringSlice :=
  let allergens := AllergensTags product in
  let '(h, allergens) :=
    if (len allergens =? 0)%nat && negb (String.eqb (RawAllergens product) "")
    then allocate h (strings.Split (RawAllergens product) ",")
    else (h, allergens) in
  (normalizeInPlace h allergens 0 (len allergens), allergens).

(** The allergens found among the ingredient tags, in their order. *)
Definition ingredientAllergensOf (h : store) (product : OpenFoodFactsProduct)
  : list string :=
  List.filter
    (fun ingredientAllergen => negb (String.eqb ingredientAllergen ""))
    (map extractIngredientAllergen (elements h (IngredientsTags product))).

(** The serving sizes: the described one when it is kept, then the one for
    100 g. *)
Definition servingSizesOf (product : OpenFoodFactsProduct) : list ServingSize :=
  let nutriments := Nutriments product in
  let servingSizes : list ServingSize :=
    if negb (String.eqb (RawServingSize product) "")
    then describedServings nutriments (RawServingSize product)
    else [] in
  (servingSizes ++ [per100gServing nutriments])%list.

(** [ProcessProduct]: the store afterwards and the two results, the item
    and the error.  The struct [product] is passed by value; its slices
    still point into the caller's backing arrays.  The slices the function
    builds itself and hands to no one else ([ingredientAllergens],
    [servingSizes]) are modelled by their elements. *)
Definition ProcessProduct (order : nat) (h : store) (product : OpenFoodFactsProduct)
  : store * (option FoodItem * option error) :=
  if String.eqb (ID product) "" || String.eqb (Code product) "" then
    (h, (None, Some (Errorf "product ID or code is empty")))
  else
  let '(name, translations) := chooseName order product in
  let offID := ID product in
  let brand := extractBrand (Brands product) in
  let barcode := Code product in
  if String.eqb name "" && String.eqb barcode "" then
    (h, (None, Some (Errorf "product name and barcode are empty")))
  else
  let '(h, allergens) := normalizedAllergens h product in
  let ingredientAllergens := ingredientAllergensOf h product in
  let servingSizes := servingSizesOf product in
  let foodItem :=
    {| Name := name;
       OffID := offID;
       Brand := brand;
       Barcode := barcode;
       ServingSizes := servingSizes;
       Allergens := allergens;
       IngredientAllergens := ingredientAllergens;
       Translations := translations |} in
  (h, (Some foodItem, None)).

End Program.

(** * The program's [main] *)

(** [main] reads records from a compressed file, passes each one to
    [ProcessProduct] and writes the items as lines of JSON to numbered
    files.  What the operating system and the packages [gzip] and [json]
    do is no part of the program: a run is told by an [environment], which
    says how each of their calls ends. *)

Definition INPUT_FILE : string := "input/openfoodfacts-products.jsonl.gz".
Definition OUTPUT_DIR : string := "output".
Definition CHUNK_SIZE : Z := 50000.

(** Go's [int] on a 64-bit platform: the result of an addition, wrapped. *)
Definition wrapInt (n : Z) : Z := (n + 2 ^ 63) mod 2 ^ 64 - 2 ^ 63.

(** [fmt.Sprintf("%d", n)]. *)
Definition Sprintf_d (n : Z) : string :=
  (if n <? 0 then "-" else "") ++ fmt.digitsOf (Z.abs n).

(** What one call of [decoder.Decode(&product)] gives before the end of
    the input: an error, or a record.  The two tag lists of the record are
    given apart from the struct: decoding a JSON array builds a new backing
    array, and a field that is absent or [null] leaves the slice [nil]. *)
Inductive decoded : Type :=
| DecodeError
| Decoded (product : OpenFoodFactsProduct)
          (allergensTags ingredientsTags : option (list string)).

(** What [log.Printf] and [log.Fatalf] are called with. *)
Inductive logged : Type :=
| FailedToCreateOutputDirectory
| FailedToOpenInputFile
| FailedToCreateGzipReader
| FailedToCreateOutputFile
| ErrorDecodingJSON
| SkippingProduct (id : string) (err : option error)
| ErrorEncodingJSON
| ErrorWritingToOutputFile
| ProcessedProducts (processedCount : Z)
| CompletedProcessing (lineCount processedCount chunkCount : Z).

Record environment : Type := {
  (** [os.MkdirAll], [os.Open] and [gzip.NewReader] fail *)
  mkdirFails : bool;
  openFails : bool;
  gzipFails : bool;
  (** the results of the calls of [decoder.Decode] before it returns
      [io.EOF] *)
  decodes : list decoded;
  (** [os.Create] fails on this path *)
  createFails : string -> bool;
  (** [encoder.Encode]: the line written to the buffer, or an error *)
  Encode : store -> FoodItem -> option string;
  (** [currentFile.WriteString] for the record counted as this line:
      [None] when all is written, [Some n] when it fails after [n] bytes *)
  writeFails : Z -> option nat;
  (** the order in which [range] visits the translations of the record
      counted as this line *)
  rangeOrder : Z -> nat
}.

(** The variables of [main], the store of backing arrays, the files by
    path, the files closed and the log so far. *)
Record state : Type := {
  lineCount : Z;
  processedCount : Z;
  chunkCount : Z;
  currentFile : option string;
  heap : store;
  disk : gmap string string;
  closed : list string;
  log : list logged
}.

(** How [main] ends: [log.Fatalf] exits the process, or [main] returns. *)
Inductive ending : Type := Exited | Returned.

Definition outputPath (chunkCount : Z) : string :=
  OUTPUT_DIR ++ "/openfoodfacts_to_eatnlift_" ++ Sprintf_d chunkCount ++ ".jsonl".

Definition say (entry : logged) (st : state) : state :=
  {| lineCount := lineCount st; processedCount := processedCount st;
     chunkCount := chunkCount st; currentFile := currentFile st;
     heap := heap st; disk := disk st; closed := closed st;
     log := (log st ++ [entry])%list |}.

(** The head of the loop: at a multiple of [CHUNK_SIZE] processed records
    the current file is closed and the next one created. *)
Definition nextChunk (env : environment) (st : state) : ending * state :=
  if Z.rem (processedCount st) CHUNK_SIZE =? 0 then
    let closed' :=
      match currentFile st with
      | Some path => (closed st ++ [path])%list
      | None => closed st
      end in
    let path := outputPath (chunkCount st) in
    if createFails env path then
      (Exited,
       say FailedToCreateOutputFile
         {| lineCount := lineCount st; processedCount := processedCount st;
            chunkCount := chunkCount st; currentFile := None;
            heap := heap st; disk := disk st; closed := closed';
            log := log st |})
    else
      (Returned,
       {| lineCount := lineCount st; processedCount := processedCount st;
          chunkCount := wrapInt (chunkCount st + 1);
          currentFile := Some path;
          heap := heap st; disk := <[path := ""]> (disk st);
          closed := closed'; log := log st |})
  else (Returned, st).

(** The slice [Decode] leaves in a field of the struct. *)
Definition decodedSlice (h : store) (tags : option (list string))
  : store * stringSlice :=
  match tags with
  | Some l => allocate h l
  | None => (h, nilSlice)
  end.

Definition withTags (product : OpenFoodFactsProduct)
  (allergensTags ingredientsTags : stringSlice) : OpenFoodFactsProduct :=
  {| ID := ID product; Code := Code product;
     ProductName := ProductName product;
     ProductNameEn := ProductNameEn product;
     ProductNameFr := ProductNameFr product;
     ProductNameEs := ProductNameEs product;
     ProductNameDe := ProductNameDe product;
     ProductNameIt := ProductNameIt product;
     ProductNameNl := ProductNameNl product;
     ProductNamePl := ProductNamePl product;
     ProductNamePt := ProductNamePt product;
     ProductNameUk := ProductNameUk product;
     ProductNameBg := ProductNameBg product;
     ProductNameRo := ProductNameRo product;
     ProductNameEl := ProductNameEl product;
     ProductNameRu := ProductNameRu product;
     ProductNameTr := ProductNameTr product;
     ProductNameAr := ProductNameAr product;
     ProductNameHi := ProductNameHi product; Lang := Lang product;
     Brands := Brands product; RawServingSize := RawServingSize product;
     Nutriments := Nutriments product; RawAllergens := RawAllergens product;
     AllergensTags := allergensTags; IngredientsTags := ingredientsTags |}.

Section Main.
Context `{CaseTables}.

(** The body of the loop after a record was decoded. *)
Definition handle (env : environment) (st : state)
  (product : OpenFoodFactsProduct) : state :=
  let lineCount' := wrapInt (lineCount st + 1) in
  let '(h, (processedProduct, err)) :=
    ProcessProduct (rangeOrder env lineCount') (heap st) product in
  let st :=
    {| lineCount := lineCount'; processedCount := processedCount st;
       chunkCount := chunkCount st; currentFile := currentFile st;
       heap := h; disk := disk st; closed := closed st; log := log st |} in
  match processedProduct with
  | None => say (SkippingProduct (ID product) err) st
  | Some item =>
    match Encode env h item with
    | None => say ErrorEncodingJSON st
    | Some line =>
      match currentFile st, writeFails env lineCount' with
      | Some path, None =>
        let processedCount' := wrapInt (processedCount st + 1) in
        let st :=
          {| lineCount := lineCount st; processedCount := processedCount';
             chunkCount := chunkCount st; currentFile := currentFile st;
             heap := heap st;
             disk := alter (fun content => content ++ line) path (disk st);
             closed := closed st; log := log st |} in
        if Z.rem processedCount' 10000 =? 0
        then say (ProcessedProducts processedCount') st
        else st
      | Some path, Some n =>
        say ErrorWritingToOutputFile
          {| lineCount := lineCount st; processedCount := processedCount st;
             chunkCount := chunkCount st; currentFile := currentFile st;
             heap := heap st;
             disk := alter (fun content => content ++ keep n line) path
                           (disk st);
             closed := closed st; log := log st |}
      | None, _ => say ErrorWritingToOutputFile st
      end
    end
  end.

(** The body of the loop from the result of [Decode] on. *)
Definition body (env : environment) (st : state) (result : decoded) : state :=
  match result with
  | DecodeError => say ErrorDecodingJSON st
  | Decoded product allergensTags ingredientsTags =>
    let '(h, allergens) := decodedSlice (heap st) allergensTags in
    let '(h, ingredients) := decodedSlice h ingredientsTags in
    let st :=
      {| lineCount := lineCount st; processedCount := processedCount st;
         chunkCount := chunkCount st; currentFile := currentFile st;
         heap := h; disk := disk st; closed := closed st; log := log st |} in
    handle env st (withTags product allergens ingredients)
  end.

(** The loop, over the results of [Decode] that are left; the end of the
    list is [io.EOF].  The runs told are those in which [Decode] comes to
    return [io.EOF]: the loop goes on after an error, so that with a
    decoder that returns the same error at every call from some call on,
    [main] does not end. *)
Fixpoint loop (env : environment) (left : list decoded) (st : state)
  : ending * state :=
  match nextChunk env st with
  | (Exited, st) => (Exited, st)
  | (Returned, st) =>
    match left with
    | [] => (Returned, st)
    | result :: left' => loop env left' (body env st result)
    end
  end.

(** [main], from a store and a disk: how it ends, and the state then.
    The deferred [currentFile.Close()] has the value [currentFile] has when
    [defer] runs, which is [nil], so that it closes no file. *)
Definition main (env : environment) (h : store) (files : gmap string string)
  : ending * state :=
  let st :=
    {| lineCount := 0; processedCount := 0; chunkCount := 0;
       currentFile := None; heap := h; disk := files; closed := [];
       log := [] |} in
  if mkdirFails env then (Exited, say FailedToCreateOutputDirectory st)
  else if openFails env then (Exited, say FailedToOpenInputFile st)
  else if gzipFails env then (Exited, say FailedToCreateGzipReader st)
  else
    match loop env (decodes env) st with
    | (Exited, st) => (Exited, st)
    | (Returned, st) =>
      (Returned,
       say (CompletedProcessing (lineCount st) (processedCount st)
                                (chunkCount st)) st)
    end.

End Main.

(** * The vocabulary of the specification *)

(** The two reasons [ProcessProduct] rejects a record with, under the names
    the specification gives them. *)
Definition EmptyKeyFields : error := Errorf "product ID or code is empty".
Definition EmptyNameAndBarcode : error := Errorf "product name and barcode are empty".

(** The name fields of a raw record: the default name and the sixteen
    translations. *)
Definition nameFields : list (OpenFoodFactsProduct -> string) :=
  [ ProductName; ProductNameEn; ProductNameFr; ProductNameEs; ProductNameDe;
    ProductNameIt; ProductNameNl; ProductNamePl; ProductNamePt; ProductNameUk;
    ProductNameBg; ProductNameRo; ProductNameEl; ProductNameRu; ProductNameTr;
    ProductNameAr; ProductNameHi ].

(** A record in which no display name can resolve: it has no name of any
    kind. *)
Definition noName (product : OpenFoodFactsProduct) : Prop :=
  Forall (fun field => field product = "") nameFields.

(** The reference block: quantity 100, unit g, weight 100. *)
Definition isPer100g (s : ServingSize) : Prop :=
  Quantity s = 100%float /\ MeasurementUnit s = "g" /\ WeightInGrams s = 100%float.

(** The same test with Go's [==] on numbers. *)
Definition per100gEntry (s : ServingSize) : bool :=
  PrimFloat.eqb (Quantity s) 100
  && String.eqb (MeasurementUnit s) "g"
  && PrimFloat.eqb (WeightInGrams s) 100.

(** The calorie rule of a block whose calories are read under [key]: a
    value of 0 is replaced by the value computed from protein, fat and
    carbohydrates, any other value is kept. *)
Definition caloriesBackfilled (nutriments : gmap string jsonValue)
  (key : string) (s : ServingSize) : Prop :=
  let extracted := mapNutrient 0 nutriments "" [key] in
  (PrimFloat.eqb extracted 0 = true ->
   Calories s = (Protein s * 4 + Fat s * 9 + Carbs s * 4)%float)
  /\ (PrimFloat.eqb extracted 0 = false -> Calories s = extracted).

(** A candidate key is usable when the map holds it with a value that
    converts to a number. *)
Definition usable (nutriments : gmap string jsonValue) (key : string)
  : option float :=
  match nutriments !! key with
  | Some value =>
    match toFloat64 value with
    | (fval, None) => Some fval
    | (_, Some _) => None
    end
  | None => None
  end.

(** The nutrient extractor as the specification words it: the first
    candidate key that is present in the map decides, and no later key is
    looked at. *)
Fixpoint firstPresent (nutriments : gmap string jsonValue) (keys : list string)
  : option jsonValue :=
  match keys with
  | [] => None
  | key :: keys' =>
    match nutriments !! key with
    | Some value => Some value
    | None => firstPresent nutriments keys'
    end
  end.

Definition mapNutrientByFirstPresent (field : float)
  (nutriments : gmap string jsonValue) (unitConversion : string)
  (keys : list string) : float :=
  match firstPresent nutriments keys with
  | Some value =>
    match toFloat64 value with
    | (fval, None) => convertUnit unitConversion fval
    | (_, Some _) => field
    end
  | None => field
  end.

(** A slice lies within its backing array. *)
Definition inBounds (h : store) (s : stringSlice) : Prop :=
  exists a, h !! array s = Some a /\ (offset s + len s <= length a)%nat.

(** The backing array of a slice after each element of the slice has been
    replaced by its image under [f]. *)
Definition mapSlice (f : string -> string) (s : stringSlice) (a : list string)
  : list string :=
  (take (offset s) a
   ++ map f (take (len s) (drop (offset s) a))
   ++ drop (offset s + len s) a)%list.

Section Vocabulary.
Context `{CaseTables}.

(** No pattern of the parser matches the text. *)
Definition unmatched (text : string) : Prop :=
  regexp.FindStringSubmatch reBareWeight text = None
  /\ Forall (fun pattern : regexp.Regexp * (list string -> parsed) =>
               regexp.FindStringSubmatch (fst pattern) text = None)
            laterPatterns.

End Vocabulary.

(** ** Records to run the program on *)

(** Case tables that map nothing.  They serve to run the program on ASCII
    texts, for which the tables are never read. *)
Definition plainTables : CaseTables :=
  {| mapToLower := fun s => s; mapToUpper := fun s => s |}.

(** A record with nothing but an identifier and a code. *)
Definition bareProduct (id code : string) : OpenFoodFactsProduct :=
  {| ID := id; Code := code; ProductName := ""; ProductNameEn := "";
     ProductNameFr := ""; ProductNameEs := ""; ProductNameDe := "";
     ProductNameIt := ""; ProductNameNl := ""; ProductNamePl := "";
     ProductNamePt := ""; ProductNameUk := ""; ProductNameBg := "";
     ProductNameRo := ""; ProductNameEl := ""; ProductNameRu := "";
     ProductNameTr := ""; ProductNameAr := ""; ProductNameHi := "";
     Lang := ""; Brands := ""; RawServingSize := ""; Nutriments := ∅;
     RawAllergens := ""; AllergensTags := nilSlice;
     IngredientsTags := nilSlice |}.

(** A loaf of bread: a French name, a described serving, three nutrients,
    two allergen tags in the array at address 0 and three ingredient tags
    in the array at address 1. *)
Definition breadStore : store :=
  {[ 0%nat := ["en:milk"; "en:gluten"];
     1%nat := ["en:wheat-flour"; "en:wheat"; "en:egg"] ]}.

Definition bread : OpenFoodFactsProduct :=
  {| ID := "1"; Code := "0123"; ProductName := "Bread"; ProductNameEn := "";
     ProductNameFr := "Pain"; ProductNameEs := ""; ProductNameDe := "";
     ProductNameIt := ""; ProductNameNl := ""; ProductNamePl := "";
     ProductNamePt := ""; ProductNameUk := ""; ProductNameBg := "";
     ProductNameRo := ""; ProductNameEl := ""; ProductNameRu := "";
     ProductNameTr := ""; ProductNameAr := ""; ProductNameHi := "";
     Lang := "FR"; Brands := " Acme , Other";
     RawServingSize := "2 SLICES (57 g)";
     Nutriments :=
       {[ "proteins_100g" := JNumber 10;
          "fat_100g" := JString " 2.5 ";
          "energy-kcal_serving" := JNumber 120 ]};
     RawAllergens := "Milk, EN:Soy";
     AllergensTags := {| array := 0; offset := 0; len := 2 |};
     IngredientsTags := {| array := 1; offset := 0; len := 3 |} |}.

(** Nutrients whose first key holds a text that is no number. *)
Definition mixedNutriments : gmap string jsonValue :=
  {[ "energy-kcal_100g" := JString "n/a"; "energy_100g" := JNumber 5 ]}.

(** The item [ProcessProduct] returns, or an empty item when it returns
    none. *)
Definition itemOf (r : store * (option FoodItem * option error)) : FoodItem :=
  match r with
  | (_, (Some item, _)) => item
  | _ =>
    {| Name := ""; OffID := ""; Brand := ""; Barcode := ""; ServingSizes := [];
       Allergens := nilSlice; IngredientAllergens := []; Translations := ∅ |}
  end.

(** * Further vocabulary *)

(** The translated name fields of a raw record, each with the language
    code [ProcessProduct] files it under, in the order of the source. *)
Definition languageFields : list (string * (OpenFoodFactsProduct -> string)) :=
  [ ("en", ProductNameEn); ("fr", ProductNameFr); ("es", ProductNameEs);
    ("de", ProductNameDe); ("it", ProductNameIt); ("nl", ProductNameNl);
    ("pl", ProductNamePl); ("pt", ProductNamePt); ("uk", ProductNameUk);
    ("bg", ProductNameBg); ("ro", ProductNameRo); ("el", ProductNameEl);
    ("ru", ProductNameRu); ("tr", ProductNameTr); ("ar", ProductNameAr);
    ("hi", ProductNameHi) ].

(** One statement [if field != "" { translations[code] = field }]. *)
Definition fileUnder (product : OpenFoodFactsProduct)
  (translations : gmap string string)
  (entry : string * (OpenFoodFactsProduct -> string)) : gmap string string :=
  if negb (String.eqb (snd entry product) "")
  then <[fst entry := snd entry product]> translations
  else translations.

(** The record has no translated name. *)
Definition noTranslation (product : OpenFoodFactsProduct) : Prop :=
  Forall (fun entry : string * (OpenFoodFactsProduct -> string) =>
            snd entry product = "") languageFields.

(** A record with a French and a German name only, and no language. *)
Definition twoNames : OpenFoodFactsProduct :=
  {| ID := "2"; Code := "0456"; ProductName := ""; ProductNameEn := "";
     ProductNameFr := "Pain"; ProductNameEs := ""; ProductNameDe := "Brot";
     ProductNameIt := ""; ProductNameNl := ""; ProductNamePl := "";
     ProductNamePt := ""; ProductNameUk := ""; ProductNameBg := "";
     ProductNameRo := ""; ProductNameEl := ""; ProductNameRu := "";
     ProductNameTr := ""; ProductNameAr := ""; ProductNameHi := "";
     Lang := ""; Brands := ""; RawServingSize := ""; Nutriments := ∅;
     RawAllergens := "Milk, EN:Soy,peanuts"; AllergensTags := nilSlice;
     IngredientsTags := {| array := 1; offset := 0; len := 3 |} |}.

(** The number of bytes of [s] equal to [c]. *)
Fixpoint occurrences (c : ascii) (s : string) : nat :=
  match s with
  | "" => 0%nat
  | String d s' => ((if Ascii.eqb c d then 1 else 0) + occurrences c s')%nat
  end.

(** A canonical allergen token: a value of [AllergenMap]. *)
Definition canonical (token : string) : Prop :=
  exists key, AllergenMap !! key = Some token.

(** The keys of the nutrient map that the serving size for 100 g is read
    from, in the order of the source. *)
Definition per100gKeys : list string :=
  [ "energy-kcal_100g"; "proteins_100g"; "fat_100g"; "carbohydrates_100g";
    "fiber_100g"; "sugars_100g"; "sodium_100g"; "cholesterol_100g";
    "calcium_100g"; "iron_100g"; "potassium_100g"; "magnesium_100g";
    "zinc_100g"; "vitamin-a_iu_100g"; "vitamin-c_100g"; "vitamin-d_100g";
    "vitamin-d_iu_100g"; "vitamin-e_100g"; "vitamin-k_100g";
    "thiamin_100g"; "riboflavin_100g"; "niacin_100g"; "vitamin-b6_100g";
    "folate_100g"; "vitamin-b12_100g"; "phosphorus_100g"; "copper_100g";
    "manganese_100g"; "selenium_100g"; "water_100g"; "ash_100g";
    "saturated-fat_100g"; "monounsaturated-fat_100g";
    "polyunsaturated-fat_100g"; "trans-fat_100g" ].

(** The keys that a described serving size is read from. *)
Definition servingKeys : list string :=
  [ "energy-kcal_serving"; "proteins_serving"; "fat_serving";
    "carbohydrates_serving"; "fiber_serving"; "sugars_serving";
    "sodium_serving"; "cholesterol_serving"; "calcium_serving";
    "iron_serving"; "potassium_serving"; "magnesium_serving";
    "zinc_serving"; "vitamin-a_iu_serving"; "vitamin-c_serving";
    "vitamin-d_serving"; "vitamin-d_iu_serving"; "vitamin-e_serving";
    "vitamin-k_serving"; "thiamin_serving"; "riboflavin_serving";
    "niacin_serving"; "vitamin-b6_serving"; "folate_serving";
    "vitamin-b12_serving"; "phosphorus_serving"; "copper_serving";
    "manganese_serving"; "selenium_serving"; "water_serving";
    "ash_serving"; "saturated-fat_serving"; "monounsaturated-fat_serving";
    "polyunsaturated-fat_serving"; "trans-fat_serving" ].

(** The nutrient fields of a serving size, in the order of the struct. *)
Definition nutrientFields : list (ServingSize -> float) :=
  [ Calories; Protein; Fat; Carbs; Fiber; Sugar; Sodium; Cholesterol; Calcium;
    Iron; Potassium; Magnesium; Zinc; VitaminAIU; VitaminC; VitaminD;
    VitaminDIU; VitaminE; VitaminK; Thiamin; Riboflavin; Niacin; VitaminB6;
    Folate; VitaminB12; Phosphorus; Copper; Manganese; Selenium; Water; Ash;
    SaturatedFat; MonounsaturatedFat; PolyunsaturatedFat; TransFat ].

(** The unit labels in lower case for which [ProcessProduct] drops a
    described serving size. *)
Definition skippedLabels : list string :=
  [ ""; "100g"; "100 g"; "100grams"; "100 grams" ].

Section FurtherVocabulary.
Context `{CaseTables}.

(** The serving type goes with the unit label: 1 only for a metric
    label, 2 only for an imperial one, and 3 otherwise. *)
Definition typeFollowsLabel (result : parsed) : Prop :=
  let '(_, measurementUnit, _, servingType) := result in
  let lowerUnit := strings.ToLower measurementUnit in
  (servingType = 1 \/ servingType = 2 \/ servingType = 3)
  /\ (servingType = 1 -> isMetricUnit lowerUnit = true)
  /\ (servingType = 2 ->
      isMetricUnit lowerUnit = false /\ isImperialUnit lowerUnit = true).

End FurtherVocabulary.

(** The bread with further keys in its nutrient map, none of which
    [ProcessProduct] reads. *)
Definition breadWithMoreKeys : OpenFoodFactsProduct :=
  {| ID := "1"; Code := "0123"; ProductName := "Bread"; ProductNameEn := "";
     ProductNameFr := "Pain"; ProductNameEs := ""; ProductNameDe := "";
     ProductNameIt := ""; ProductNameNl := ""; ProductNamePl := "";
     ProductNamePt := ""; ProductNameUk := ""; ProductNameBg := "";
     ProductNameRo := ""; ProductNameEl := ""; ProductNameRu := "";
     ProductNameTr := ""; ProductNameAr := ""; ProductNameHi := "";
     Lang := "FR"; Brands := " Acme , Other";
     RawServingSize := "2 SLICES (57 g)";
     Nutriments :=
       {[ "proteins_100g" := JNumber 10;
          "fat_100g" := JString " 2.5 ";
          "energy-kcal_serving" := JNumber 120;
          "energy_100g" := JNumber 1046;
          "salt_100g" := JNumber 1.2;
          "proteins_unit" := JString "g" ]};
     RawAllergens := "Milk, EN:Soy";
     AllergensTags := {| array := 0; offset := 0; len := 2 |};
     IngredientsTags := {| array := 1; offset := 0; len := 3 |} |}.

(** Dropping the leading bytes that satisfy [f]. *)
Fixpoint dropWhileByte (f : ascii -> bool) (s : string) : string :=
  match s with
  | "" => ""
  | String c s' => if f c then dropWhileByte f s' else s
  end.

(** The byte is one of Go's six ASCII spaces. *)
Definition isSpaceByte (c : ascii) : bool := unicode.IsSpace (byte c).

(** Dropping the bytes that satisfy [f] at both ends. *)
Definition trimBytes (f : ascii -> bool) (s : string) : string :=
  srev (dropWhileByte f (srev (dropWhileByte f s))).

(** The bytes of [s] before the first byte equal to [c]. *)
Fixpoint beforeByte (c : ascii) (s : string) : string :=
  match s with
  | "" => ""
  | String d s' => if Ascii.eqb c d then "" else String d (beforeByte c s')
  end.

(** ** What a pattern matches *)

(** The matcher of package [regexp] is a backtracking search.  What it can
    find is described here without a search: [takes r p s p' s'] says that
    [r] leads from the input [s] at offset [p] to the input [s'] at offset
    [p']. *)

(** Any number of rounds, each of which moves forward. *)
Inductive rounds (M : nat -> string -> nat -> string -> Prop)
  : nat -> string -> nat -> string -> Prop :=
| rounds_none p s : rounds M p s p s
| rounds_more p s p1 s1 p2 s2 :
    M p s p1 s1 -> (p < p1)%nat -> rounds M p1 s1 p2 s2 ->
    rounds M p s p2 s2.

Fixpoint takes (r : regexp.regex) (p : nat) (s : string) (p' : nat)
  (s' : string) {struct r} : Prop :=
  match r with
  | regexp.Eps => p' = p /\ s' = s
  | regexp.Chr f => exists c, s = String c s' /\ f c = true /\ p' = S p
  | regexp.Seq a b => exists p1 s1, takes a p s p1 s1 /\ takes b p1 s1 p' s'
  | regexp.Alt a b => takes a p s p' s' \/ takes b p s p' s'
  | regexp.Star _ a => rounds (takes a) p s p' s'
  | regexp.Grp _ a => takes a p s p' s'
  | regexp.Bol => p = 0%nat /\ p' = p /\ s' = s
  | regexp.Eol => s = "" /\ p' = p /\ s' = s
  | regexp.Never => False
  end.

(** A sequence of patterns, one after the other. *)
Fixpoint takesAll (l : list regexp.regex) (p : nat) (s : string) (p' : nat)
  (s' : string) {struct l} : Prop :=
  match l with
  | [] => p' = p /\ s' = s
  | r :: l' => exists p1 s1, takes r p s p1 s1 /\ takesAll l' p1 s1 p' s'
  end.

Definition included (L R : nat -> string -> nat -> string -> Prop) : Prop :=
  forall p s p' s', L p s p' s' -> R p s p' s'.

(** The loop that [regexp.run] runs for a starred pattern. *)
Section StarLoop.
Variables (a : regexp.regex) (greedy : bool)
          (k : regexp.mstate -> option regexp.mstate).

Fixpoint starLoop (fuel : nat) (st0 : regexp.mstate) {struct fuel}
  : option regexp.mstate :=
  match fuel with
  | O => k st0
  | S fuel' =>
    let more (_ : unit) :=
      regexp.run a st0 (fun st' =>
        if (regexp.pos st0 <? regexp.pos st')%nat
        then starLoop fuel' st' else None) in
    if greedy then
      match more tt with
      | Some x => Some x
      | None => k st0
      end
    else
      match k st0 with
      | Some x => Some x
      | None => more tt
      end
  end.

End StarLoop.

(** The pattern as the list of its parts in sequence, groups opened. *)
Fixpoint flat (r : regexp.regex) : list regexp.regex :=
  match r with
  | regexp.Eps => []
  | regexp.Seq a b => flat a ++ flat b
  | regexp.Grp _ a => flat a
  | _ => [r]
  end.

Definition allBytes : list ascii := map ascii_of_nat (seq 0 256).

(** Every byte of the class [f] is in the class [g]. *)
Definition subset (f g : ascii -> bool) : bool :=
  forallb (fun c => implb (f c) (g c)) allBytes.

(** A sufficient test for: whatever the sequence [l] takes, the sequence
    [r] takes too.  An alternation on the left is split, one on the right
    is chosen from; a star on the right absorbs a byte or a star on the
    left, or is passed over; a byte followed by a star of the same class
    absorbs a star on the left. *)
Fixpoint covers (fuel : nat) (l r : list regexp.regex) {struct fuel} : bool :=
  match fuel with
  | O => false
  | S fuel' =>
    match l with
    | regexp.Alt a b :: l' =>
      if covers fuel' (flat a ++ l') r then covers fuel' (flat b ++ l') r
      else false
    | _ =>
      match r with
      | [] =>
        match l with
        | [] => true
        | _ => false
        end
      | regexp.Alt a b :: r' =>
        if covers fuel' l (flat a ++ r') then true
        else covers fuel' l (flat b ++ r')
      | regexp.Star _ b :: r' =>
        if match l with
           | regexp.Chr f :: l' =>
             if covers fuel' [regexp.Chr f] (flat b) then covers fuel' l' r
             else false
           | regexp.Star _ a :: l' =>
             if covers fuel' (flat a) (flat b) then covers fuel' l' r
             else false
           | _ => false
           end
        then true
        else covers fuel' l r'
      | regexp.Chr g :: r' =>
        match l with
        | regexp.Chr f :: l' =>
          if subset f g then covers fuel' l' r' else false
        | regexp.Star _ (regexp.Chr f) :: l' =>
          match r' with
          | regexp.Star _ (regexp.Chr g') :: _ =>
            if subset f g && subset f g' && subset g g'
            then covers fuel' l' r else false
          | _ => false
          end
        | _ => false
        end
      | regexp.Bol :: r' =>
        match l with
        | regexp.Bol :: l' => covers fuel' l' r'
        | _ => false
        end
      | regexp.Eol :: r' =>
        match l with
        | regexp.Eol :: l' => covers fuel' l' r'
        | _ => false
        end
      | _ => false
      end
    end
  end.

(** The patterns of the parser that match only texts the pattern before
    them has matched, and the patterns that remain. *)
Definition shadowedPatterns : list regexp.Regexp :=
  [ reQtyLabelWeight; reBottle; reOunceSlashGram; reQtyLabelGrams;
    reWeightGrams; reSimple ].

Section DecidingPatterns.
Context `{CaseTables}.

Definition decidingPatterns : list (regexp.Regexp * (list string -> parsed)) :=
  [ (reLabelWeight, onLabelWeight);
    (reWeightFirst, onWeightFirst);
    (reUnit, onUnit) ].

End DecidingPatterns.

Section ParserWith.
Context `{CaseTables}.

(** [parseServingSize] with the list of its later patterns as a
    parameter. *)
Definition parseServingSizeWith
  (patterns : list (regexp.Regexp * (list string -> parsed)))
  (servingSizeStr : string) : parsed :=
  let servingSizeStr := cleanServingSize servingSizeStr in
  let early :=
    match regexp.FindStringSubmatch reBareWeight servingSizeStr with
    | Some matches => onBareWeight servingSizeStr matches
    | None => None
    end in
  match early with
  | Some result => result
  | None => firstMatch patterns servingSizeStr
  end.

End ParserWith.

(** Sufficient tests on a pattern: whatever it takes holds a byte of the
    class [ok]; it can take nothing; it can start with the byte [c]. *)
Fixpoint forces (ok : ascii -> bool) (r : regexp.regex) : bool :=
  match r with
  | regexp.Chr f => subset f ok
  | regexp.Seq a b => forces ok a || forces ok b
  | regexp.Alt a b => forces ok a && forces ok b
  | regexp.Grp _ a => forces ok a
  | regexp.Never => true
  | _ => false
  end.

Fixpoint nullable (r : regexp.regex) : bool :=
  match r with
  | regexp.Chr _ | regexp.Never => false
  | regexp.Seq a b => nullable a && nullable b
  | regexp.Alt a b => nullable a || nullable b
  | regexp.Grp _ a => nullable a
  | _ => true
  end.

Fixpoint first (r : regexp.regex) (c : ascii) : bool :=
  match r with
  | regexp.Chr f => f c
  | regexp.Seq a b => first a c || (nullable a && first b c)
  | regexp.Alt a b => first a c || first b c
  | regexp.Star _ a => first a c
  | regexp.Grp _ a => first a c
  | _ => false
  end.

(** The pattern starts with [^]. *)
Definition anchored (r : regexp.regex) : bool :=
  match r with
  | regexp.Seq regexp.Bol _ => true
  | _ => false
  end.

(** The bytes a descriptor of [handleDescriptors] can start with: the
    letters b, c, p and s in either case, and the first byte of U+017F,
    which folds to s. *)
Definition descriptorInitial (c : ascii) : bool :=
  existsb (Ascii.eqb c) (list_ascii_of_string "bcpsBCPS") || (byte c =? 197).

Definition descriptorPattern (desc : string) : regexp.Regexp :=
  regexp.MustCompile ("(?i)^" ++ desc ++ "\s+").

(** The text starts with a byte a descriptor can start with. *)
Definition startsDescriptor (s : string) : bool :=
  match s with
  | String c _ => descriptorInitial c
  | "" => false
  end.

(** The descriptors of [handleDescriptors]. *)
Definition descriptors : list string :=
  ["chips"; "slice"; "slices"; "cookie"; "cookies"; "pouch"; "pouches";
   "can"; "cans"; "bottle"; "bottles"; "box"; "boxes"; "bag"; "bags";
   "piece"; "pieces"].

(** The tests that the pattern of a descriptor passes. *)
Definition checkedDescriptor (desc : string) : bool :=
  let r := regexp.expr (descriptorPattern desc) in
  anchored r && negb (nullable r)
  && forallb (fun c => implb (first r c) (descriptorInitial c)) allBytes.

(** ** Runs of [main] *)

Section RunsOfMain.
Context `{CaseTables}.

(** What a result of [Decode] leads to, files apart: the line count and
    the store afterwards, and the line of JSON to write, if any. *)
Definition outcome (env : environment) (count : Z) (h : store)
  (result : decoded) : Z * store * option string :=
  match result with
  | DecodeError => (count, h, None)
  | Decoded product allergensTags ingredientsTags =>
    let '(h, allergens) := decodedSlice h allergensTags in
    let '(h, ingredients) := decodedSlice h ingredientsTags in
    let count := wrapInt (count + 1) in
    let '(h, (processedProduct, _)) :=
      ProcessProduct (rangeOrder env count) h
                     (withTags product allergens ingredients) in
    (count, h,
     match processedProduct with
     | Some item => Encode env h item
     | None => None
     end)
  end.

(** The lines of JSON of a run, in the order of the input: one for each
    record that [ProcessProduct] accepts and [Encode] encodes. *)
Fixpoint acceptedLines (env : environment) (left : list decoded)
  (count : Z) (h : store) : list string :=
  match left with
  | [] => []
  | result :: left' =>
    let '(count, h, line) := outcome env count h result in
    match line with
    | Some line => line :: acceptedLines env left' count h
    | None => acceptedLines env left' count h
    end
  end.

End RunsOfMain.

(** The number of records among the results of [Decode]. *)
Definition isRecord (result : decoded) : nat :=
  match result with
  | Decoded _ _ _ => 1%nat
  | DecodeError => 0%nat
  end.

Definition records (left : list decoded) : nat :=
  list_sum (map isRecord left).

(** The content of a file holding these lines. *)
Definition fileOf (lines : list string) : string :=
  fold_right String.append "" lines.

(** The files of a run against the lines written so far.  [chunks]
    lists, for each file created, the lines it holds; the last of them, the
    file that is open, holds [lastLength] lines; a file before it holds
    [CHUNK_SIZE] lines or none; the files that [main] did not create are as
    in [files]. *)
Definition chunked (files : gmap string string) (lastLength : Z)
  (st : state) (chunks : list (list string)) : Prop :=
  Z.of_nat (length chunks) = chunkCount st
  /\ 1 <= chunkCount st
  /\ currentFile st = Some (outputPath (chunkCount st - 1))
  /\ Z.of_nat (length (concat chunks)) = processedCount st
  /\ Z.of_nat (length (List.last chunks [])) = lastLength
  /\ 0 <= lastLength <= CHUNK_SIZE
  /\ Forall (fun lines : list string =>
               length lines = 0%nat \/ Z.of_nat (length lines) = CHUNK_SIZE)
            (removelast chunks)
  /\ (forall (k : nat) lines,
        chunks !! k = Some lines ->
        disk st !! outputPath (Z.of_nat k) = Some (fileOf lines))
  /\ (forall path,
        (forall k : nat, path <> outputPath (Z.of_nat k)) ->
        disk st !! path = files !! path).

(** After the head of the loop the open file holds the lines written
    since the last multiple of [CHUNK_SIZE]. *)
Definition inStep (files : gmap string string) (st : state)
  (chunks : list (list string)) : Prop :=
  chunked files (processedCount st mod CHUNK_SIZE) st chunks.

(** An environment to run [main] in: four results of [Decode], the first
    of them an error and three of them records, an encoder that writes the
    identifier and the name of an item, and no failure of a file. *)
Definition fourResults : environment :=
  {| mkdirFails := false; openFails := false; gzipFails := false;
     decodes :=
       [ DecodeError;
         Decoded bread (Some ["en:milk"; "en:gluten"])
                 (Some ["en:wheat-flour"; "en:wheat"; "en:egg"]);
         Decoded (bareProduct "" "0123") None None;
         Decoded twoNames None (Some ["en:egg"]) ];
     createFails := fun _ => false;
     Encode := fun _ item =>
       Some (OffID item ++ " " ++ Name item ++ String (chr 10) "");
     writeFails := fun _ => None;
     rangeOrder := fun _ => 0%nat |}.

(** The counters of a run after [seen] results of [Decode], [recordsSeen]
    of them records: what holds each time the loop has passed its head. *)
Definition counted (seen recordsSeen : nat) (st : state) : Prop :=
  (recordsSeen <= seen)%nat
  /\ lineCount st = Z.of_nat recordsSeen
  /\ 0 <= processedCount st <= lineCount st
  /\ processedCount st / CHUNK_SIZE + 1 <= chunkCount st
  /\ chunkCount st
     <= processedCount st / CHUNK_SIZE + 1 + (Z.of_nat seen - processedCount st)
  /\ (processedCount st = 0 -> chunkCount st = Z.of_nat seen + 1)
  /\ currentFile st = Some (outputPath (chunkCount st - 1))
  /\ closed st = map (fun k => outputPath (Z.of_nat k))
                     (seq 0 (Z.to_nat (chunkCount st) - 1)).

(** * The models at work *)

(** Each proof below runs a definition on a concrete input. *)
Ltac run := vm_compute; reflexivity.

(** ** The library models *)

Section LibraryChecks.
Context `{CaseTables}.

Example TrimSpace_ascii :
  strings.TrimSpace "  2 SLICES (57 g) " = "2 SLICES (57 g)".
Proof. run. Qed.

(** A no-break space (U+00A0) and an en quad (U+2000) are white space. *)
Example TrimSpace_unicode :
  strings.TrimSpace (bytes [32; 194; 160; 97; 226; 128; 128; 9]) = "a".
Proof. run. Qed.

(** Two continuation bytes are two invalid runes, and no white space. *)
Example TrimSpace_invalid :
  strings.TrimSpace (bytes [128; 128]) = bytes [128; 128].
Proof. run. Qed.

Example ToUpper_ascii : strings.ToUpper "en:Milk" = "EN:MILK".
Proof. run. Qed.

Example ToLower_ascii : strings.ToLower "SLICES" = "slices".
Proof. run. Qed.

Example ReplaceAll_each :
  strings.ReplaceAll "1 OZA, 2 OZA" "OZA" "OZ" = "1 OZ, 2 OZ".
Proof. run. Qed.

Example ReplaceAll_no_overlap : strings.ReplaceAll "aaa" "aa" "b" = "ba".
Proof. run. Qed.

Example Split_pieces : strings.Split "a,b,,c" "," = ["a"; "b"; ""; "c"].
Proof. run. Qed.

Example Split_separator_alone : strings.Split "," "," = [""; ""].
Proof. run. Qed.

Example Split_empty : strings.Split "" "," = [""].
Proof. run. Qed.

Example Trim_pipes : strings.Trim "||a|b|" "|" = "a|b".
Proof. run. Qed.

Example TrimSuffix_once : strings.TrimSuffix "a||" "|" = "a|".
Proof. run. Qed.

Example TrimPrefix_once : strings.TrimPrefix "EN:MILK" "EN:" = "MILK".
Proof. run. Qed.

Example IndexFunc_first_rune_beyond_ascii :
  strings.IndexFunc (bytes [97; 195; 169]) (fun r => r >? unicode.MaxASCII) = 1.
Proof. run. Qed.

End LibraryChecks.

(** Every pattern of the program compiles, so that no call of
    [regexp.MustCompile] panics. *)
Example patterns_compile :
  forallb regexp.compiles
    ([ "^(\d*\.?\d+)\s*(g|gr|grm|gram|kg|mg|ml|l)$";
       "(?i)^(?:(\d*\.?\d+)\s+)?([^\(]+?)\s*(?:\(\s*(\d*\.?\d+)\s*(g|gr|grm|gram|kg|mg|ml|l|oz|fl oz|ounces|cup|cups)\s*\))?$";
       "(?i)^(?:(\d*\.?\d+)\s+([^\(]+?))\s*(?:\(\s*(\d*\.?\d+)\s*(g|gr|grm|gram|kg|mg|ml|l|oz|fl oz|ounces)\s*\))?$";
       "(?i)^(?:(\d*\.?\d+)\s+([^\(]+?))\s*\(\s*(\d*\.?\d+)\s*(g|gr|grm|gram|kg|ml|l|oz|fl oz|ounces)\s*\)$";
       "(?i)^(?:(\d*\.?\d+)\s+([^\(]+?))\s+(\d*\.?\d+)\s*(oz|ounces)\s*/\s*(\d*\.?\d+)\s*(g|gr|grm|gram)$";
       "(?i)^(?:(\d*\.?\d+)\s*(g|gr|grm|gram|ml|l|oz|fl oz))\s*\(\s*(\d*\.?\d+)?\s*([^\)]+)\s*\)$";
       "(?i)^(?:(\d*\.?\d+)\s+([^\(]+))\s*\(\s*(\d*\.?\d+)\s*(?:g|gr|grm|gram)\s*\)$";
       "(?i)^(?:(\d*\.?\d+)\s*(g|gr|grm|gram|ml|oz|fl oz))\s*\(\s*(\d*\.?\d+)\s*(?:g|gr|grm|gram)\s*\)$";
       "(?i)^([^\s]+)\s+(\d*\.?\d+)\s*(g|gr|grm|gram|ml|oz|fl oz)$";
       "(?i)^(\d*\.?\d+)\s*(g|gr|grm|gram|ml|oz|fl oz)$";
       "(?i)(\d*\.?\d+)\s*(g|gr|grm|gram|kg|mg|ml|l|oz|ounces|fl oz)";
       "(\d+)\s*/\s*(\d+)";
       "\([^()]*\)";
       "\s+" ]
     ++ map (fun desc => ("(?i)^" ++ desc ++ "\s+")%string)
            [ "chips"; "slice"; "slices"; "cookie"; "cookies"; "pouch";
              "pouches"; "can"; "cans"; "bottle"; "bottles"; "box"; "boxes";
              "bag"; "bags"; "piece"; "pieces" ])%list
  = true.
Proof. run. Qed.

Example groups_are_counted :
  map regexp.NumSubexp
      [reBareWeight; reLabelWeight; reQtyLabelWeight; reBottle;
       reOunceSlashGram; reWeightFirst; reQtyLabelGrams; reWeightGrams;
       reUnit; reSimple]
  = [2; 4; 4; 4; 6; 4; 3; 3; 3; 2]%nat.
Proof. run. Qed.

Example match_bare_weight :
  regexp.FindStringSubmatch reBareWeight "200g" = Some ["200g"; "200"; "g"].
Proof. run. Qed.

Example match_label_weight :
  regexp.FindStringSubmatch reLabelWeight "2 SLICES (57 g)"
  = Some ["2 SLICES (57 g)"; "2"; "SLICES"; "57"; "g"].
Proof. run. Qed.

(** A group that takes no part in the match yields the empty text. *)
Example match_without_quantity :
  regexp.FindStringSubmatch reLabelWeight "2kg" = Some ["2kg"; ""; "2kg"; ""; ""].
Proof. run. Qed.

(** A pattern without anchor is searched from the left, and of the units
    the first alternative that fits is taken. *)
Example match_leftmost :
  regexp.FindStringSubmatch
    (regexp.MustCompile "(?i)(\d*\.?\d+)\s*(g|gr|grm|gram|kg|mg|ml|l|oz|ounces|fl oz)")
    "about 30 grams or 1.5 KG"
  = Some ["30 g"; "30"; "g"].
Proof. run. Qed.

(** Under [(?i)] the letter k also matches the Kelvin sign, U+212A. *)
Example match_kelvin_sign :
  regexp.FindStringSubmatch
    (regexp.MustCompile "(?i)^(\d+)\s*(kg)$") ("5 " ++ bytes [226; 132; 170; 71])
  = Some ["5 " ++ bytes [226; 132; 170; 71]; "5"; bytes [226; 132; 170; 71]].
Proof. run. Qed.

Example replace_white_space :
  regexp.ReplaceAllString (regexp.MustCompile "\s+") "a  b   c" " " = "a b c".
Proof. run. Qed.

(** An anchored pattern replaces at the start of the text only. *)
Example replace_anchored :
  regexp.ReplaceAllString (regexp.MustCompile "(?i)^slices\s+") "SLICES  slices 2" ""
  = "slices 2".
Proof. run. Qed.

Example find_all_index :
  regexp.FindAllStringIndex (regexp.MustCompile "\([^()]*\)") "a (b) c (d)"
  = [(2, 5); (8, 11)]%nat.
Proof. run. Qed.

Example find_all_submatch :
  regexp.FindAllStringSubmatch (regexp.MustCompile "(\d+)\s*/\s*(\d+)") "1/2 cup 3 / 4"
  = [["1/2"; "1"; "2"]; ["3 / 4"; "3"; "4"]].
Proof. run. Qed.

Example ParseFloat_integer : strconv.ParseFloat "57" = (57%float, None).
Proof. run. Qed.

Example ParseFloat_fraction : strconv.ParseFloat "28.3495" = (28.3495%float, None).
Proof. run. Qed.

Example ParseFloat_rounds_to_nearest :
  strconv.ParseFloat "0.30000000000000004" = ((0.1 + 0.2)%float, None).
Proof. run. Qed.

Example ParseFloat_ties_to_even :
  strconv.ParseFloat "9007199254740993" = (9007199254740992%float, None).
Proof. run. Qed.

Example ParseFloat_exponent : strconv.ParseFloat "-1.5e3" = ((-1500)%float, None).
Proof. run. Qed.

Example ParseFloat_hexadecimal : strconv.ParseFloat "0x1p-2" = (0.25%float, None).
Proof. run. Qed.

Example ParseFloat_underscore : strconv.ParseFloat "1_0.5" = (10.5%float, None).
Proof. run. Qed.

Example ParseFloat_infinity :
  strconv.ParseFloat "-Infinity" = (PrimFloat.neg_infinity, None).
Proof. run. Qed.

Example ParseFloat_too_large :
  strconv.ParseFloat "1e400" = (PrimFloat.infinity, Some strconv.ErrRange).
Proof. run. Qed.

Example ParseFloat_underflow : strconv.ParseFloat "1e-400" = (0%float, None).
Proof. run. Qed.

Example ParseFloat_not_trimmed :
  strconv.ParseFloat " 1" = (0%float, Some strconv.ErrSyntax).
Proof. run. Qed.

Example ParseFloat_no_number :
  strconv.ParseFloat "n/a" = (0%float, Some strconv.ErrSyntax).
Proof. run. Qed.

Example ParseFloat_signed_nan :
  strconv.ParseFloat "+nan" = (0%float, Some strconv.ErrSyntax).
Proof. run. Qed.

Example ParseFloat_leading_underscore :
  strconv.ParseFloat "_10.5" = (0%float, Some strconv.ErrSyntax).
Proof. run. Qed.

Example Sprintf_third : fmt.Sprintf_4f (1 / 3) = "0.3333".
Proof. run. Qed.

Example Sprintf_two_thirds : fmt.Sprintf_4f (2 / 3) = "0.6667".
Proof. run. Qed.

(** 1/32 is 0.03125: a tie, rounded to the even digit. *)
Example Sprintf_tie : fmt.Sprintf_4f (1 / 32) = "0.0312".
Proof. run. Qed.

Example Sprintf_large : fmt.Sprintf_4f (1234567 / 10) = "123456.7000".
Proof. run. Qed.

Example Sprintf_infinity : fmt.Sprintf_4f PrimFloat.infinity = "+Inf".
Proof. run. Qed.

(** ** The program *)

Section ProgramChecks.
Context `{CaseTables}.

Example clean_typo_and_comma : cleanServingSize "  1,5  OZA |" = "1.5 OZ ".
Proof. run. Qed.

Example clean_fraction : cleanServingSize "1/2 cup" = "0.5000 cup".
Proof. run. Qed.

Example clean_descriptor : cleanServingSize "slice 1 oz / 28 g" = "1 oz / 28 g".
Proof. run. Qed.

Example clean_second_parenthesis :
  cleanServingSize "2 tbsp (30 g) (about 3 pieces)" = "2 tbsp (30 g)".
Proof. run. Qed.

Example parse_bottle :
  parseServingSize "1 BOTTLE (295 ml)" = (1%float, "BOTTLE", 295%float, 3).
Proof. run. Qed.

Example parse_grams_confirmed :
  parseServingSize "30 g (30 GRM)" = (30%float, "g", 30%float, 1).
Proof. run. Qed.

Example parse_weight_first :
  parseServingSize "1.5 g (1 TEA BAG)" = (1%float, "TEA BAG", 1.5%float, 3).
Proof. run. Qed.

(** The first pattern matches, but 2 kg are not 2 g: the later patterns
    run, and the weight is found inside the label. *)
Example parse_kilograms :
  parseServingSize "2kg" = (1%float, "2kg", 2000%float, 3).
Proof. run. Qed.

Example parse_estimated :
  parseServingSize "1/2 cup" = (0.5%float, "cup", 120%float, 3).
Proof. run. Qed.

Example parse_unit_after_label :
  parseServingSize "(abc 5 g" = (5%float, "(abc", 5%float, 3).
Proof. run. Qed.

(** No pattern matches, and the label is the cleaned text. *)
Example parse_unmatched :
  parseServingSize " (" = (1%float, "(", 0%float, 3).
Proof. run. Qed.

Example parse_upper_case_gram :
  parseServingSize "100 G" = (100%float, "G", 0%float, 1).
Proof. run. Qed.

(** Descriptions of the kinds met in the data, and what the parser returns
    for each. *)
Example parse_corpus :
  map parseServingSize
    [ "1 cup (240 ml)";
      "8 OZ (240 ml)";
      "1 Tbsp (15 ml)";
      "2 cookies";
      "3 pieces (30g)";
      "1 PACKAGE (255 g) | ";
      "chips 28 g";
      "1 ONZ (28 g)";
      "240 ml (8 fl oz)";
      "150 g e";
      "pack 30 g";
      "10 kg";
      "12 FL.OZ";
      "1,5 dl";
      "30g (1 oz)";
      "2 tbsp";
      "1 can (355 ml) (12 fl oz)";
      "0.5 l";
      "3 oz";
      "1 bar (40 g)";
      "1 1/2 cups";
      "2/3 cup";
      "1 can 12 oz / 340 g";
      "cookie 2 (30 g)";
      "5" ]
  = [ (1%float, "cup", 240%float, 3);
      (8%float, "OZ", 240%float, 2);
      (1%float, "Tbsp", 15%float, 3);
      (2%float, "cookies", 30%float, 3);
      (3%float, "pieces", 30%float, 3);
      (1%float, "1 PACKAGE (255 g) ", 0%float, 3);
      (1%float, "Serving", 28%float, 3);
      (1%float, "OZ", 28%float, 2);
      (240%float, "ml", 0%float, 1);
      (150%float, "g", 0%float, 1);
      (1%float, "pack 30 g", 30%float, 3);
      (10%float, "kg", 0%float, 1);
      (12%float, "FL OZ", 0%float, 2);
      (1.5%float, "dl", 0%float, 3);
      (1%float, "30g", 28.3495%float, 3);
      (2%float, "tbsp", 30%float, 3);
      (1%float, "can", 355%float, 3);
      (0.5%float, "l", 0%float, 1);
      (3%float, "oz", 0%float, 2);
      (1%float, "bar", 40%float, 3);
      (1%float, "0.5000 cups", 0%float, 3);
      (0.6667%float, "cup", 160.00799999999998%float, 3);
      (1%float, "can 12 oz / 340 g", 340.19399999999996%float, 3);
      (1%float, "2", 30%float, 3);
      (1%float, "5", 0%float, 3) ].
Proof. run. Qed.


(** The unit in upper case weighs 100 g once converted, and is dropped. *)
Example resolve_hundred_grams : resolveServing "100 G" = None.
Proof. run. Qed.

Example resolve_bottle :
  resolveServing "1 BOTTLE (295 ml)" = Some ("Bottle", 3, 1%float, 295%float).
Proof. run. Qed.

Example normalize_known : normalizeAllergen " en:tree nuts " = "tree_nuts".
Proof. run. Qed.

Example normalize_unknown : normalizeAllergen " Kiwi " = " kiwi ".
Proof. run. Qed.

Example extractBrand_first : extractBrand " Acme , Other" = "Acme".
Proof. run. Qed.

Example toFloat64_text : toFloat64 (JString " 2.5 ") = (2.5%float, None).
Proof. run. Qed.

Example toFloat64_other_shape :
  toFloat64 (JBool true) = (0%float, Some (Errorf "unsupported type")).
Proof. run. Qed.

(** The bread record: the item, and the store afterwards. *)
Example bread_item :
  let item := itemOf (ProcessProduct 0 breadStore bread) in
  Name item = "Bread" /\ OffID item = "1" /\ Brand item = "Acme"
  /\ Barcode item = "0123"
  /\ Allergens item = AllergensTags bread
  /\ IngredientAllergens item = ["wheat"; "eggs"]
  /\ map_to_list (Translations item) = [("fr", "Pain")]
  /\ map (fun s => (MeasurementUnit s, Type_ s, Quantity s, WeightInGrams s,
                    Calories s, Protein s, Fat s))
         (ServingSizes item)
     = [ ("Slices", 3, 2%float, 57%float, 120%float, 0%float, 0%float);
         ("g", 1, 100%float, 100%float, 62.5%float, 10%float, 2.5%float) ].
Proof. cbv zeta. repeat split; run. Qed.

Example bread_store_afterwards :
  map_to_list (fst (ProcessProduct 0 breadStore bread))
  = [ (1%nat, ["en:wheat-flour"; "en:wheat"; "en:egg"]);
      (0%nat, ["milk"; "gluten"]) ].
Proof. run. Qed.

End ProgramChecks.

(** * Properties of the record normalizer *)

Section Properties.
Context `{CaseTables}.

(** ** The two outcomes of [ProcessProduct] *)

Lemma ProcessProduct_rejected order h product :
  String.eqb (ID product) "" || String.eqb (Code product) "" = true ->
  ProcessProduct order h product = (h, (None, Some EmptyKeyFields)).
Proof.
  intros Hguard. unfold ProcessProduct. rewrite Hguard. reflexivity.
Qed.

Lemma ProcessProduct_accepted order h product :
  String.eqb (ID product) "" || String.eqb (Code product) "" = false ->
  ProcessProduct order h product =
  (fst (normalizedAllergens h product),
   (Some {| Name := fst (chooseName order product);
            OffID := ID product;
            Brand := extractBrand (Brands product);
            Barcode := Code product;
            ServingSizes := servingSizesOf product;
            Allergens := snd (normalizedAllergens h product);
            IngredientAllergens :=
              ingredientAllergensOf (fst (normalizedAllergens h product)) product;
            Translations := snd (chooseName order product) |},
    None)).
Proof.
  intros Hguard. unfold ProcessProduct. rewrite Hguard.
  destruct (chooseName order product) as [name translations].
  apply orb_false_elim in Hguard as [_ Hcode].
  rewrite Hcode, andb_false_r.
  destruct (normalizedAllergens h product) as [h' allergens].
  reflexivity.
Qed.

(** An accepted record yields the serving sizes of [servingSizesOf]. *)
Lemma accepted_servingSizes order h product item :
  snd (ProcessProduct order h product) = (Some item, None) ->
  ServingSizes item = servingSizesOf product.
Proof.
  intros Hrun.
  destruct (String.eqb (ID product) "" || String.eqb (Code product) "") eqn:Hguard.
  - rewrite (ProcessProduct_rejected _ _ _ Hguard) in Hrun. discriminate.
  - rewrite (ProcessProduct_accepted _ _ _ Hguard) in Hrun.
    cbn [snd] in Hrun.
    apply (f_equal (fun r : option FoodItem * option error =>
                      match fst r with
                      | Some it => ServingSizes it
                      | None => []
                      end)) in Hrun.
    symmetry. exact Hrun.
Qed.

(** A serving size that is kept has a weight other than 100. *)
Lemma resolveServing_weight description u t q w :
  resolveServing description = Some (u, t, q, w) ->
  PrimFloat.eqb w 100 = false.
Proof.
  unfold resolveServing.
  destruct (parseServingSize description) as [[[q0 u0] w0] t0].
  cbv beta iota zeta.
  match goal with
  | |- (if ?c then _ else _) = _ -> _ => destruct c eqn:Hkeep
  end; [| discriminate].
  intros Hsome. injection Hsome as _ _ _ <-.
  apply andb_prop in Hkeep as [_ Hw].
  apply negb_true_iff in Hw. exact Hw.
Qed.

(** The block for a described serving appends nothing, or one serving size
    whose weight is not 100. *)
Lemma describedServings_cases nutriments description :
  describedServings nutriments description = []
  \/ exists measurementUnit servingType quantity weightInGrams,
       describedServings nutriments description =
       [describedServing nutriments measurementUnit servingType quantity
                         weightInGrams]
       /\ PrimFloat.eqb weightInGrams 100 = false.
Proof.
  unfold describedServings.
  destruct (resolveServing description) as [[[[u t] q] w] |] eqn:Hresolve.
  - right. exists u, t, q, w. split; [reflexivity |].
    exact (resolveServing_weight _ _ _ _ _ Hresolve).
  - left. reflexivity.
Qed.

Lemma per100gServing_isPer100g nutriments :
  isPer100g (per100gServing nutriments).
Proof. repeat split. Qed.

Lemma describedServing_weight nutriments u t q w :
  WeightInGrams (describedServing nutriments u t q w) = w.
Proof. reflexivity. Qed.

Lemma not_isPer100g_of_weight s :
  PrimFloat.eqb (WeightInGrams s) 100 = false -> ~ isPer100g s.
Proof.
  intros Hw (_ & _ & Heq). rewrite Heq in Hw. vm_compute in Hw. discriminate.
Qed.

(** The serving sizes before the reference block: at most one, of a weight
    other than 100. *)
Lemma natural_cases product :
  let natural :=
    if String.eqb (RawServingSize product) "" then []
    else describedServings (Nutriments product) (RawServingSize product) in
  servingSizesOf product =
    (natural ++ [per100gServing (Nutriments product)])%list
  /\ (length natural <= 1)%nat
  /\ Forall (fun s => PrimFloat.eqb (WeightInGrams s) 100 = false) natural.
Proof.
  cbv zeta. unfold servingSizesOf.
  destruct (String.eqb (RawServingSize product) ""); cbn [negb].
  - repeat split; [cbn; lia | constructor].
  - destruct (describedServings_cases (Nutriments product) (RawServingSize product))
      as [-> | (u & t & q & w & -> & Hw)].
    + repeat split; [cbn; lia | constructor].
    + repeat split; [cbn; lia |].
      constructor; [| constructor].
      rewrite describedServing_weight. exact Hw.
Qed.

Lemma filter_per100gEntry_none (l : list ServingSize) :
  Forall (fun s => PrimFloat.eqb (WeightInGrams s) 100 = false) l ->
  List.filter per100gEntry l = [].
Proof.
  induction 1 as [| s l Hs _ IH]; [reflexivity |].
  cbn [List.filter]. unfold per100gEntry at 1. rewrite Hs, andb_false_r.
  exact IH.
Qed.

(** ** C1: the reference block is there once, and last *)

(** C1.  For every record that [ProcessProduct] accepts, the serving sizes
    of the item are the described serving size, when it is kept, followed
    by the block for 100 g: the list ends with an entry of quantity 100,
    unit g and weight 100, at most one entry precedes it, and no entry
    that precedes it has quantity 100, unit g and weight 100, so the list
    holds exactly one such entry. *)
Theorem per100g_once_and_last order h product item :
  snd (ProcessProduct order h product) = (Some item, None) ->
  exists natural,
    ServingSizes item = (natural ++ [per100gServing (Nutriments product)])%list
    /\ natural =
        (if String.eqb (RawServingSize product) "" then []
         else describedServings (Nutriments product) (RawServingSize product))
    /\ isPer100g (per100gServing (Nutriments product))
    /\ (length natural <= 1)%nat
    /\ Forall (fun s => ~ isPer100g s) natural
    /\ (forall i s, ServingSizes item !! i = Some s -> isPer100g s ->
         i = length natural)
    /\ length (List.filter per100gEntry (ServingSizes item)) = 1%nat.
Proof.
  intros Hrun. apply accepted_servingSizes in Hrun.
  destruct (natural_cases product) as (Hshape & Hlen & Hweights).
  cbv zeta in Hshape, Hlen, Hweights.
  assert (Hothers : Forall (fun s => ~ isPer100g s)
    (if String.eqb (RawServingSize product) "" then []
     else describedServings (Nutriments product) (RawServingSize product))).
  { eapply Forall_impl; [exact Hweights |].
    intros s. apply not_isPer100g_of_weight. }
  eexists. split; [rewrite Hrun; exact Hshape |].
  split; [reflexivity |].
  split; [apply per100gServing_isPer100g |].
  split; [exact Hlen |].
  split; [exact Hothers |].
  split.
  - intros i s Hi Hs. rewrite Hrun, Hshape in Hi.
    destruct (decide (i < length
      (if String.eqb (RawServingSize product) "" then []
       else describedServings (Nutriments product) (RawServingSize product)))%nat)
      as [Hlt | Hge].
    + rewrite lookup_app_l in Hi by exact Hlt.
      rewrite Forall_forall in Hothers.
      exfalso. apply (Hothers s); [| exact Hs].
      apply list_elem_of_lookup. eauto.
    + rewrite lookup_app_r in Hi by lia.
      apply lookup_lt_Some in Hi. cbn in Hi. lia.
  - rewrite Hrun, Hshape, List.filter_app.
    rewrite filter_per100gEntry_none by exact Hweights.
    reflexivity.
Qed.

(** ** C2: a record without identifier or code is rejected *)

(** C2.  For every record whose identifier is empty or whose code is
    empty, whatever its other fields hold, [ProcessProduct] returns no
    item and the error [EmptyKeyFields], and leaves the store as it was. *)
Theorem empty_key_fields_rejected order h product :
  ID product = "" \/ Code product = "" ->
  ProcessProduct order h product = (h, (None, Some EmptyKeyFields)).
Proof.
  intros Hempty. apply ProcessProduct_rejected.
  apply orb_true_iff. destruct Hempty as [-> | ->]; [left | right]; reflexivity.
Qed.

(** ** C3: no name and no barcode *)

(** A record with no name of any kind has no translation and resolves no
    display name. *)
Lemma noName_collects_nothing product :
  noName product -> collectTranslations product = ∅.
Proof.
  unfold noName, nameFields. intros Hnone. destruct product.
  repeat match goal with
  | Hall : Forall _ (_ :: _) |- _ =>
    let Hfield := fresh "Hfield" in
    apply Forall_cons_1 in Hall as [Hfield Hall]; cbn in Hfield
  end.
  subst. run.
Qed.

Lemma noName_resolves_nothing order product :
  noName product -> fst (chooseName order product) = "".
Proof.
  intros Hnone. unfold chooseName.
  rewrite (noName_collects_nothing _ Hnone).
  unfold noName, nameFields in Hnone.
  apply Forall_cons_1 in Hnone as [Hdefault _].
  rewrite Hdefault. reflexivity.
Qed.

(** The second rejection of [ProcessProduct] is never reached: the barcode
    is the code, which the first test has found not empty. *)
Lemma never_EmptyNameAndBarcode order h product :
  snd (snd (ProcessProduct order h product)) <> Some EmptyNameAndBarcode.
Proof.
  destruct (String.eqb (ID product) "" || String.eqb (Code product) "") eqn:Hguard.
  - rewrite (ProcessProduct_rejected _ _ _ Hguard). cbn. discriminate.
  - rewrite (ProcessProduct_accepted _ _ _ Hguard). cbn. discriminate.
Qed.

(** C3, as the code has it.  For every record in which no display name
    resolves and whose barcode is empty, [ProcessProduct] rejects the
    record, with the reason [EmptyKeyFields]: the barcode is the code of
    the record, and the test for an empty identifier or code comes first.
    No record at all is rejected with [EmptyNameAndBarcode]. *)
Theorem no_name_no_barcode_rejected order h product :
  noName product -> Code product = "" ->
  ProcessProduct order h product = (h, (None, Some EmptyKeyFields))
  /\ forall order' h' product',
       snd (snd (ProcessProduct order' h' product')) <> Some EmptyNameAndBarcode.
Proof.
  intros _ Hcode. split.
  - apply ProcessProduct_rejected. rewrite Hcode. apply orb_true_r.
  - intros. apply never_EmptyNameAndBarcode.
Qed.

(** ** C5: calories computed from protein, fat and carbohydrates *)

Lemma per100gServing_backfilled nutriments :
  caloriesBackfilled nutriments "energy-kcal_100g" (per100gServing nutriments).
Proof.
  unfold caloriesBackfilled. cbv zeta. split; intros Hzero.
  - change (Calories (per100gServing nutriments))
      with (backfill (mapNutrient 0 nutriments "" ["energy-kcal_100g"])
                     (Protein (per100gServing nutriments))
                     (Fat (per100gServing nutriments))
                     (Carbs (per100gServing nutriments))).
    unfold backfill. rewrite Hzero. reflexivity.
  - change (Calories (per100gServing nutriments))
      with (backfill (mapNutrient 0 nutriments "" ["energy-kcal_100g"])
                     (Protein (per100gServing nutriments))
                     (Fat (per100gServing nutriments))
                     (Carbs (per100gServing nutriments))).
    unfold backfill. rewrite Hzero. reflexivity.
Qed.

Lemma describedServing_backfilled nutriments u t q w :
  caloriesBackfilled nutriments "energy-kcal_serving"
                     (describedServing nutriments u t q w).
Proof.
  unfold caloriesBackfilled. cbv zeta. split; intros Hzero.
  - change (Calories (describedServing nutriments u t q w))
      with (backfill (mapNutrient 0 nutriments "" ["energy-kcal_serving"])
                     (Protein (describedServing nutriments u t q w))
                     (Fat (describedServing nutriments u t q w))
                     (Carbs (describedServing nutriments u t q w))).
    unfold backfill. rewrite Hzero. reflexivity.
  - change (Calories (describedServing nutriments u t q w))
      with (backfill (mapNutrient 0 nutriments "" ["energy-kcal_serving"])
                     (Protein (describedServing nutriments u t q w))
                     (Fat (describedServing nutriments u t q w))
                     (Carbs (describedServing nutriments u t q w))).
    unfold backfill. rewrite Hzero. reflexivity.
Qed.

(** C5.  In every serving size of an accepted record, the block for 100 g
    (calories read under [energy-kcal_100g]) and the described serving
    (calories read under [energy-kcal_serving]) alike: when the calories
    read are 0, the calories of the block are protein * 4 + fat * 9 +
    carbohydrates * 4, and they are the calories read otherwise. *)
Theorem calories_backfilled order h product item :
  snd (ProcessProduct order h product) = (Some item, None) ->
  exists natural reference,
    ServingSizes item = (natural ++ [reference])%list
    /\ caloriesBackfilled (Nutriments product) "energy-kcal_100g" reference
    /\ Forall (caloriesBackfilled (Nutriments product) "energy-kcal_serving")
              natural.
Proof.
  intros Hrun. apply accepted_servingSizes in Hrun.
  destruct (natural_cases product) as (Hshape & _ & _). cbv zeta in Hshape.
  eexists _, _. split; [rewrite Hrun; exact Hshape |].
  split; [apply per100gServing_backfilled |].
  destruct (String.eqb (RawServingSize product) ""); [constructor |].
  destruct (describedServings_cases (Nutriments product) (RawServingSize product))
    as [-> | (u & t & q & w & -> & _)]; [constructor |].
  constructor; [apply describedServing_backfilled | constructor].
Qed.

(** ** C4: the nutrient extractor *)

Lemma mapNutrientWrites_unusable nutriments unitConversion key keys :
  usable nutriments key = None ->
  mapNutrientWrites nutriments unitConversion (key :: keys) =
  mapNutrientWrites nutriments unitConversion keys.
Proof.
  unfold usable. cbn [mapNutrientWrites].
  destruct (nutriments !! key) as [value |]; [| reflexivity].
  destruct (toFloat64 value) as [fval [e |]]; [reflexivity | discriminate].
Qed.

Lemma mapNutrientWrites_usable nutriments unitConversion key keys fval :
  usable nutriments key = Some fval ->
  mapNutrientWrites nutriments unitConversion (key :: keys) =
  [convertUnit unitConversion fval].
Proof.
  unfold usable. cbn [mapNutrientWrites].
  destruct (nutriments !! key) as [value |]; [| discriminate].
  destruct (toFloat64 value) as [f [e |]]; [discriminate |].
  intros [= ->]. reflexivity.
Qed.

Lemma mapNutrientWrites_skip nutriments unitConversion before keys :
  Forall (fun key => usable nutriments key = None) before ->
  mapNutrientWrites nutriments unitConversion (before ++ keys)%list =
  mapNutrientWrites nutriments unitConversion keys.
Proof.
  induction 1 as [| key before Hkey _ IH]; [reflexivity |].
  rewrite <- app_comm_cons, mapNutrientWrites_unusable by exact Hkey.
  exact IH.
Qed.

Lemma mapNutrientWrites_length nutriments unitConversion keys :
  (length (mapNutrientWrites nutriments unitConversion keys) <= 1)%nat.
Proof.
  induction keys as [| key keys IH]; [cbn; lia |].
  destruct (usable nutriments key) as [fval |] eqn:Hkey.
  - rewrite (mapNutrientWrites_usable _ _ _ _ _ Hkey). cbn. lia.
  - rewrite mapNutrientWrites_unusable by exact Hkey. exact IH.
Qed.

Lemma absent_unusable nutriments key :
  nutriments !! key = None -> usable nutriments key = None.
Proof. unfold usable. intros ->. reflexivity. Qed.

(** C4, as the code has it.  [mapNutrient] assigns the destination from the
    first candidate key that is present in the map with a value that
    converts (a number, or a text that parses as a number once its
    surrounding white space is trimmed), after the declared conversion
    (none, times 1000, times 1e6).  It writes the destination at most once.
    It leaves the destination as it was when no candidate key is usable,
    and so when no candidate key is present.  A later candidate is used
    only when every earlier candidate is absent or holds a value that does
    not convert. *)
Theorem mapNutrient_first_usable_key field nutriments unitConversion keys :
  (length (mapNutrientWrites nutriments unitConversion keys) <= 1)%nat
  /\ (forall before key after fval,
        keys = (before ++ key :: after)%list ->
        Forall (fun k => usable nutriments k = None) before ->
        usable nutriments key = Some fval ->
        mapNutrientWrites nutriments unitConversion keys =
          [convertUnit unitConversion fval]
        /\ mapNutrient field nutriments unitConversion keys =
           convertUnit unitConversion fval)
  /\ (Forall (fun k => usable nutriments k = None) keys ->
      mapNutrientWrites nutriments unitConversion keys = []
      /\ mapNutrient field nutriments unitConversion keys = field)
  /\ (Forall (fun k => nutriments !! k = None) keys ->
      mapNutrient field nutriments unitConversion keys = field)
  /\ (forall v, toFloat64 (JNumber v) = (v, None))
  /\ (forall text,
        fst (toFloat64 (JString text)) =
          fst (strconv.ParseFloat (strings.TrimSpace text))
        /\ (snd (toFloat64 (JString text)) = None <->
            snd (strconv.ParseFloat (strings.TrimSpace text)) = None))
  /\ (forall fval,
        convertUnit "g_to_mg" fval = (fval * 1000)%float
        /\ convertUnit "g_to_ug" fval = (fval * 1e6)%float
        /\ convertUnit "" fval = fval).
Proof.
  assert (Hnone : Forall (fun k => usable nutriments k = None) keys ->
                  mapNutrientWrites nutriments unitConversion keys = []).
  { intros Hall.
    rewrite <- (app_nil_r keys), mapNutrientWrites_skip by exact Hall.
    reflexivity. }
  split; [apply mapNutrientWrites_length |].
  split.
  { intros before key after fval -> Hbefore Hkey.
    assert (Hwrites :
      mapNutrientWrites nutriments unitConversion (before ++ key :: after)%list =
      [convertUnit unitConversion fval]).
    { rewrite mapNutrientWrites_skip by exact Hbefore.
      exact (mapNutrientWrites_usable _ _ _ _ _ Hkey). }
    split; [exact Hwrites |].
    unfold mapNutrient. rewrite Hwrites. reflexivity. }
  split.
  { intros Hall. split; [exact (Hnone Hall) |].
    unfold mapNutrient. rewrite (Hnone Hall). reflexivity. }
  split.
  { intros Habsent. unfold mapNutrient. rewrite Hnone; [reflexivity |].
    eapply Forall_impl; [exact Habsent |].
    intros key. apply absent_unusable. }
  split; [reflexivity |].
  split.
  { intros text. cbn [toFloat64].
    destruct (strconv.ParseFloat (strings.TrimSpace text)) as [f [e |]]; cbn;
      (split; [reflexivity |]); split; intros; congruence. }
  intros fval. repeat split.
Qed.

(** ** C6, C7, C8: the serving-size parser *)

(** C6.  On the description [2 SLICES (57 g)], [parseServingSize] yields the
    quantity 2, the label [SLICES], 57 grams and the type 3 (other), and
    the serving size that [ProcessProduct] builds from it, where the label
    is put in title case, has quantity 2, unit [Slices], weight 57 and
    type 3, and stands before the block for 100 g. *)
Theorem two_slices_serving order h product :
  ID product <> "" -> Code product <> "" ->
  RawServingSize product = "2 SLICES (57 g)" ->
  parseServingSize "2 SLICES (57 g)" = (2%float, "SLICES", 57%float, 3)
  /\ resolveServing "2 SLICES (57 g)" = Some ("Slices", 3, 2%float, 57%float)
  /\ exists item serving,
       snd (ProcessProduct order h product) = (Some item, None)
       /\ ServingSizes item = [serving; per100gServing (Nutriments product)]
       /\ Quantity serving = 2%float
       /\ MeasurementUnit serving = "Slices"
       /\ WeightInGrams serving = 57%float
       /\ Type_ serving = 3.
Proof.
  intros Hid Hcode Hsize.
  assert (Hresolve :
    resolveServing "2 SLICES (57 g)" = Some ("Slices", 3, 2%float, 57%float))
    by run.
  split; [run |].
  split; [exact Hresolve |].
  assert (Hguard :
    String.eqb (ID product) "" || String.eqb (Code product) "" = false).
  { apply orb_false_iff. split; apply String.eqb_neq; assumption. }
  rewrite (ProcessProduct_accepted _ _ _ Hguard). cbn [snd ServingSizes].
  eexists _, (describedServing (Nutriments product) "Slices" 3 2 57).
  split; [reflexivity |].
  split; [| repeat split].
  cbn [ServingSizes]. unfold servingSizesOf, describedServings.
  rewrite Hsize, Hresolve. reflexivity.
Qed.

(** C7.  On [200g] the parser yields the quantity 1, the label [Serving],
    200 grams and the type 3 (other): the first pattern matches, and the
    weight in grams is the number itself. *)
Theorem bare_weight_collapses :
  parseServingSize "200g" = (1%float, "Serving", 200%float, 3)
  /\ regexp.FindStringSubmatch reBareWeight (cleanServingSize "200g")
     = Some ["200g"; "200"; "g"]
  /\ convertToGrams 200 "g" = 200%float.
Proof. repeat split; run. Qed.

Lemma firstMatch_unmatched patterns text :
  Forall (fun pattern : regexp.Regexp * (list string -> parsed) =>
            regexp.FindStringSubmatch (fst pattern) text = None) patterns ->
  firstMatch patterns text = (1%float, text, 0%float, 3).
Proof.
  induction 1 as [| [re handler] patterns Hre _ IH]; [reflexivity |].
  cbn [firstMatch]. cbn [fst] in Hre. rewrite Hre. exact IH.
Qed.

(** C8, as the code has it.  When none of the patterns matches the cleaned
    text of a description, the parser returns the quantity 1, the weight
    0, the type 3 (other), and the cleaned text as the label: the label is
    the description itself when cleaning leaves it as it is, as for the
    empty description. *)
Theorem unmatched_text_is_the_label text :
  unmatched (cleanServingSize text) ->
  parseServingSize text = (1%float, cleanServingSize text, 0%float, 3)
  /\ (cleanServingSize text = text ->
      parseServingSize text = (1%float, text, 0%float, 3))
  /\ parseServingSize "" = (1%float, "", 0%float, 3).
Proof.
  intros [Hfirst Hlater].
  assert (Hparse :
    parseServingSize text = (1%float, cleanServingSize text, 0%float, 3)).
  { unfold parseServingSize. cbv zeta. rewrite Hfirst.
    apply firstMatch_unmatched. exact Hlater. }
  split; [exact Hparse |].
  split; [intros Hsame; rewrite Hparse, Hsame; reflexivity |].
  run.
Qed.

(** ** C9: allergens *)

(** C9.  [normalizeAllergen] maps [EN:Milk] to [milk].  For every text that
    has no entry in [AllergenMap] once trimmed, put in upper case and
    stripped of a leading [EN:], [normalizeAllergen] returns the text in
    lower case and [extractIngredientAllergen] returns the empty text; so
    for [unknown_thing] and [en:unknown_thing]. *)
Theorem allergen_lookup_and_fallbacks :
  normalizeAllergen "EN:Milk" = "milk"
  /\ normalizeAllergen "unknown_thing" = "unknown_thing"
  /\ extractIngredientAllergen "en:unknown_thing" = ""
  /\ forall raw,
       AllergenMap !! strings.TrimPrefix
                        (strings.ToUpper (strings.TrimSpace raw)) "EN:" = None ->
       normalizeAllergen raw = strings.ToLower raw
       /\ extractIngredientAllergen raw = "".
Proof.
  split; [run |].
  split; [run |].
  split; [run |].
  intros raw Hmiss. unfold normalizeAllergen, extractIngredientAllergen.
  cbv zeta. rewrite Hmiss. split; reflexivity.
Qed.

(** ** C10: what [ProcessProduct] writes *)

(** The loop over the allergens writes to the backing array of the slice
    and to no other. *)
Lemma normalizeInPlace_other n : forall i (h : store) s a,
  a <> array s -> normalizeInPlace h s i n !! a = h !! a.
Proof.
  induction n as [| n IH]; intros i h s a Hne; [reflexivity |].
  cbn [normalizeInPlace].
  destruct (index h s i) as [x |].
  - rewrite IH by exact Hne. unfold assign.
    rewrite lookup_alter_ne by congruence. reflexivity.
  - apply IH. exact Hne.
Qed.

Lemma normalizeInPlace_array n : forall i (h : store) s (a : list string),
  h !! array s = Some a ->
  (offset s + i + n <= length a)%nat ->
  normalizeInPlace h s i n !! array s =
  Some (take (offset s + i) a
        ++ map normalizeAllergen (take n (drop (offset s + i) a))
        ++ drop (offset s + i + n) a)%list.
Proof.
  induction n as [| n IH]; intros i h s a Ha Hlen.
  - cbn [normalizeInPlace]. rewrite Nat.add_0_r, take_0. cbn [map app].
    rewrite take_drop. exact Ha.
  - cbn [normalizeInPlace]. unfold index. rewrite Ha. cbn [from_option id].
    destruct (lookup_lt_is_Some_2 a (offset s + i)) as [x Hx]; [lia |].
    rewrite Hx.
    rewrite (IH (S i) _ s (<[(offset s + i)%nat := normalizeAllergen x]> a)).
    + f_equal.
      replace (offset s + S i)%nat with (S (offset s + i)) by lia.
      replace (S (offset s + i) + n)%nat with (offset s + i + S n)%nat by lia.
      rewrite (take_S_r _ _ (normalizeAllergen x))
        by (apply list_lookup_insert_eq; lia).
      rewrite take_insert_ge by lia.
      rewrite !drop_insert_lt by lia.
      rewrite (drop_S a x (offset s + i)) by exact Hx.
      cbn [take map]. rewrite <- app_assoc. reflexivity.
    + unfold assign. rewrite lookup_alter_eq, Ha. reflexivity.
    + rewrite length_insert. lia.
Qed.

Lemma mapSlice_empty f s (a : list string) :
  len s = 0%nat -> mapSlice f s a = a.
Proof.
  intros Hlen. unfold mapSlice. rewrite Hlen, Nat.add_0_r, take_0.
  cbn [map app]. apply take_drop.
Qed.

Lemma normalizedAllergens_other h product a :
  a ∈ dom h ->
  a <> array (AllergensTags product) \/ len (AllergensTags product) = 0%nat ->
  fst (normalizedAllergens h product) !! a = h !! a.
Proof.
  intros Hdom Hother. unfold normalizedAllergens. cbv zeta.
  destruct ((len (AllergensTags product) =? 0)%nat
            && negb (String.eqb (RawAllergens product) "")) eqn:Hsplit.
  - unfold allocate. cbn [fst array len].
    assert (Hfresh : a <> fresh (dom h)).
    { intros ->. exact (is_fresh (dom h) Hdom). }
    rewrite normalizeInPlace_other by exact Hfresh.
    apply lookup_insert_ne. congruence.
  - cbn [fst]. destruct Hother as [Hne | Hlen].
    + apply normalizeInPlace_other. exact Hne.
    + rewrite Hlen. reflexivity.
Qed.

Lemma normalizedAllergens_array h product (a : list string) :
  h !! array (AllergensTags product) = Some a ->
  (offset (AllergensTags product) + len (AllergensTags product) <= length a)%nat ->
  fst (normalizedAllergens h product) !! array (AllergensTags product) =
  Some (mapSlice normalizeAllergen (AllergensTags product) a).
Proof.
  intros Ha Hbound.
  destruct (decide (len (AllergensTags product) = 0%nat)) as [Hlen | Hlen].
  - rewrite normalizedAllergens_other.
    + rewrite mapSlice_empty by exact Hlen. exact Ha.
    + apply elem_of_dom. eauto.
    + right. exact Hlen.
  - unfold normalizedAllergens. cbv zeta.
    apply Nat.eqb_neq in Hlen. rewrite Hlen. cbn [andb fst].
    rewrite (normalizeInPlace_array _ 0 h _ a Ha) by lia.
    unfold mapSlice. rewrite !Nat.add_0_r. reflexivity.
Qed.

(** The elements of a slice after [mapSlice] are the images of its
    elements. *)
Lemma elements_mapSlice f (h h' : store) s (a : list string) :
  h !! array s = Some a ->
  (offset s + len s <= length a)%nat ->
  h' !! array s = Some (mapSlice f s a) ->
  elements h' s = map f (elements h s).
Proof.
  intros Ha Hbound Ha'. unfold elements. rewrite Ha, Ha'. cbn [from_option id].
  unfold mapSlice.
  rewrite drop_app_length' by (rewrite length_take; lia).
  rewrite take_app_length'; [reflexivity |].
  rewrite length_map, length_take, length_drop. lia.
Qed.

(** The item of an accepted record shares the tag list of the record when
    that list is not empty. *)
Lemma allergens_alias_the_tag_list h product :
  len (AllergensTags product) <> 0%nat ->
  snd (normalizedAllergens h product) = AllergensTags product.
Proof.
  intros Hlen. unfold normalizedAllergens. cbv zeta.
  apply Nat.eqb_neq in Hlen. rewrite Hlen. reflexivity.
Qed.

(** C10, as the code has it.  [ProcessProduct] writes to one place of its
    input only: the backing array of the allergens tag list.  Every other
    backing array of the store is as it was, and so is every array when the
    tag list is empty; in the array under the tag list of an accepted
    record, each element of the list has been replaced by its normalized
    form and the elements outside the list are as they were, so that the
    tag list holds the normalized allergens afterwards, and the item shares
    it; a rejected record leaves the store as it was. *)
Theorem only_allergen_tags_overwritten order h product :
  (forall a, a ∈ dom h -> a <> array (AllergensTags product) ->
     fst (ProcessProduct order h product) !! a = h !! a)
  /\ (len (AllergensTags product) = 0%nat ->
      forall a, a ∈ dom h -> fst (ProcessProduct order h product) !! a = h !! a)
  /\ (forall a,
        h !! array (AllergensTags product) = Some a ->
        (offset (AllergensTags product) + len (AllergensTags product)
         <= length a)%nat ->
        fst (ProcessProduct order h product) !! array (AllergensTags product) =
        Some (if String.eqb (ID product) "" || String.eqb (Code product) ""
              then a
              else mapSlice normalizeAllergen (AllergensTags product) a))
  /\ (inBounds h (AllergensTags product) ->
      String.eqb (ID product) "" || String.eqb (Code product) "" = false ->
      elements (fst (ProcessProduct order h product)) (AllergensTags product) =
      map normalizeAllergen (elements h (AllergensTags product)))
  /\ (forall item,
        snd (ProcessProduct order h product) = (Some item, None) ->
        len (AllergensTags product) <> 0%nat ->
        Allergens item = AllergensTags product)
  /\ (String.eqb (ID product) "" || String.eqb (Code product) "" = true ->
      fst (ProcessProduct order h product) = h).
Proof.
  destruct (String.eqb (ID product) "" || String.eqb (Code product) "") eqn:Hguard.
  - rewrite (ProcessProduct_rejected _ _ _ Hguard). cbn [fst snd].
    repeat split; auto; discriminate.
  - rewrite (ProcessProduct_accepted _ _ _ Hguard). cbn [fst snd].
    split; [intros a Hdom Hne; apply normalizedAllergens_other; auto |].
    split; [intros Hlen a Hdom; apply normalizedAllergens_other; auto |].
    split; [intros a Ha Hbound; apply normalizedAllergens_array; assumption |].
    split.
    { intros (a & Ha & Hbound) _.
      apply (elements_mapSlice _ h _ _ a Ha Hbound).
      apply normalizedAllergens_array; assumption. }
    split; [| discriminate].
    intros item Hitem Hlen.
    apply (f_equal (fun r : option FoodItem * option error =>
                      match fst r with
                      | Some it => Allergens it
                      | None => nilSlice
                      end)) in Hitem.
    cbv beta iota in Hitem. cbn [fst Allergens] in Hitem.
    rewrite <- Hitem. apply allergens_alias_the_tag_list. exact Hlen.
Qed.

End Properties.

(** ** The theorems at concrete records *)

Lemma per100g_once_and_last_witness :
  let item := itemOf (ProcessProduct (H := plainTables) 0 breadStore bread) in
  snd (ProcessProduct (H := plainTables) 0 breadStore bread) = (Some item, None)
  /\ exists natural,
       ServingSizes item = (natural ++ [per100gServing (Nutriments bread)])%list
       /\ natural =
          (if String.eqb (RawServingSize bread) "" then []
           else describedServings (H := plainTables) (Nutriments bread)
                                  (RawServingSize bread))
       /\ isPer100g (per100gServing (Nutriments bread))
       /\ (length natural <= 1)%nat
       /\ Forall (fun s => ~ isPer100g s) natural
       /\ (forall i s, ServingSizes item !! i = Some s -> isPer100g s ->
            i = length natural)
       /\ length (List.filter per100gEntry (ServingSizes item)) = 1%nat.
Proof.
  cbv zeta. split; [run |].
  apply (per100g_once_and_last (H := plainTables) 0 breadStore bread).
  run.
Defined.

Lemma empty_key_fields_rejected_witness :
  (ID (bareProduct "" "0123") = "" \/ Code (bareProduct "" "0123") = "")
  /\ ProcessProduct (H := plainTables) 0 breadStore (bareProduct "" "0123") =
     (breadStore, (None, Some EmptyKeyFields)).
Proof.
  split; [left; reflexivity |].
  apply (empty_key_fields_rejected (H := plainTables)). left. reflexivity.
Defined.

Lemma no_name_no_barcode_rejected_witness :
  noName (bareProduct "7" "")
  /\ Code (bareProduct "7" "") = ""
  /\ ProcessProduct (H := plainTables) 0 breadStore (bareProduct "7" "") =
     (breadStore, (None, Some EmptyKeyFields)).
Proof.
  assert (Hnone : noName (bareProduct "7" "")) by (repeat constructor).
  split; [exact Hnone |]. split; [reflexivity |].
  exact (proj1 (no_name_no_barcode_rejected (H := plainTables) 0 breadStore
                  (bareProduct "7" "") Hnone eq_refl)).
Defined.

Lemma calories_backfilled_witness :
  let item := itemOf (ProcessProduct (H := plainTables) 0 breadStore bread) in
  snd (ProcessProduct (H := plainTables) 0 breadStore bread) = (Some item, None)
  /\ exists natural reference,
       ServingSizes item = (natural ++ [reference])%list
       /\ caloriesBackfilled (Nutriments bread) "energy-kcal_100g" reference
       /\ Forall (caloriesBackfilled (Nutriments bread) "energy-kcal_serving")
                 natural.
Proof.
  cbv zeta. split; [run |].
  apply (calories_backfilled (H := plainTables) 0 breadStore bread).
  run.
Defined.

Lemma two_slices_serving_witness :
  ID bread <> "" /\ Code bread <> ""
  /\ RawServingSize bread = "2 SLICES (57 g)"
  /\ exists item serving,
       snd (ProcessProduct (H := plainTables) 0 breadStore bread) = (Some item, None)
       /\ ServingSizes item = [serving; per100gServing (Nutriments bread)]
       /\ Quantity serving = 2%float
       /\ MeasurementUnit serving = "Slices"
       /\ WeightInGrams serving = 57%float
       /\ Type_ serving = 3.
Proof.
  assert (Hid : ID bread <> "") by discriminate.
  assert (Hcode : Code bread <> "") by discriminate.
  split; [exact Hid |]. split; [exact Hcode |]. split; [reflexivity |].
  exact (proj2 (proj2 (two_slices_serving (H := plainTables) 0 breadStore bread
                         Hid Hcode eq_refl))).
Defined.

Lemma unmatched_text_is_the_label_witness :
  unmatched (H := plainTables) (cleanServingSize " (")
  /\ parseServingSize (H := plainTables) " (" = (1%float, "(", 0%float, 3).
Proof.
  assert (Hun : unmatched (H := plainTables) (cleanServingSize " (")).
  { split; [vm_compute; reflexivity |].
    unfold laterPatterns. repeat constructor; run. }
  split; [exact Hun |].
  exact (proj1 (unmatched_text_is_the_label (H := plainTables) " (" Hun)).
Defined.

(** ** Where the code departs from the wording of the specification *)

(** C3, as worded, at a record with no name and an empty code: the record
    is rejected with [EmptyKeyFields], which is not [EmptyNameAndBarcode]. *)
Lemma no_name_no_barcode_is_EmptyKeyFields :
  noName (bareProduct "7" "")
  /\ Code (bareProduct "7" "") = ""
  /\ snd (ProcessProduct (H := plainTables) 0 breadStore (bareProduct "7" ""))
     = (None, Some EmptyKeyFields)
  /\ snd (ProcessProduct (H := plainTables) 0 breadStore (bareProduct "7" ""))
     <> (None, Some EmptyNameAndBarcode).
Proof.
  split; [repeat constructor |].
  split; [reflexivity |].
  split; [run |].
  vm_compute. discriminate.
Qed.

(** C4, as worded, at a map whose first candidate key is present with a
    text that is no number: the first present key decides nothing, and the
    value of the later key is assigned. *)
Lemma later_key_used_when_first_does_not_convert :
  let keys := ["energy-kcal_100g"; "energy_100g"] in
  firstPresent mixedNutriments keys = Some (JString "n/a")
  /\ mapNutrientByFirstPresent 0 mixedNutriments "" keys = 0%float
  /\ mapNutrient 0 mixedNutriments "" keys = 5%float
  /\ mapNutrient 0 mixedNutriments "" keys
     <> mapNutrientByFirstPresent 0 mixedNutriments "" keys.
Proof.
  cbv zeta.
  split; [run |]. split; [run |]. split; [run |].
  intros Hsame.
  apply (f_equal (fun v => PrimFloat.eqb v 5)) in Hsame.
  vm_compute in Hsame. discriminate.
Qed.

(** C8, as worded, at a description with a leading space that no pattern
    matches: the label is the cleaned text, without the space. *)
Lemma unmatched_label_is_not_the_original :
  unmatched (H := plainTables) (cleanServingSize " (")
  /\ parseServingSize (H := plainTables) " (" = (1%float, "(", 0%float, 3)
  /\ parseServingSize (H := plainTables) " (" <> (1%float, " (", 0%float, 3).
Proof.
  split.
  { split; [run |]. unfold laterPatterns. repeat constructor; run. }
  split; [run |].
  vm_compute. discriminate.
Qed.

(** C10, as worded, at a record with two allergen tags: after
    [ProcessProduct] the tag list of the record holds the normalized
    allergens, not the tags it held. *)
Lemma allergen_tags_are_overwritten :
  elements breadStore (AllergensTags bread) = ["en:milk"; "en:gluten"]
  /\ elements (fst (ProcessProduct (H := plainTables) 0 breadStore bread))
              (AllergensTags bread)
     = ["milk"; "gluten"]
  /\ elements (fst (ProcessProduct (H := plainTables) 0 breadStore bread))
              (AllergensTags bread)
     <> elements breadStore (AllergensTags bread).
Proof.
  split; [run |]. split; [run |].
  vm_compute. discriminate.
Qed.

(** * Further properties of the program *)

(** ** The display name and the translations *)

Section Names.
Context `{CaseTables}.

Lemma collectTranslations_fold product :
  collectTranslations product = foldl (fileUnder product) ∅ languageFields.
Proof. reflexivity. Qed.

Lemma eqb_empty_false (s : string) : s <> "" -> String.eqb s "" = false.
Proof. intros Hs. apply String.eqb_neq. exact Hs. Qed.

Lemma fileUnder_fold_other product (l : list (string * (OpenFoodFactsProduct -> string))) :
  forall m code,
  code ∉ fst <$> l ->
  foldl (fileUnder product) m l !! code = m !! code.
Proof.
  induction l as [| [c f] l IH]; intros m code Hnot; [reflexivity |].
  cbn [foldl]. rewrite IH.
  - unfold fileUnder. cbn [fst snd].
    destruct (negb (String.eqb (f product) "")); [| reflexivity].
    apply lookup_insert_ne. intros ->. apply Hnot. cbn. left.
  - intros Hin. apply Hnot. cbn. right. exact Hin.
Qed.

Lemma fileUnder_fold_lookup product (l : list (string * (OpenFoodFactsProduct -> string))) :
  forall m code field,
  NoDup (fst <$> l) ->
  (code, field) ∈ l ->
  foldl (fileUnder product) m l !! code =
  if String.eqb (field product) "" then m !! code else Some (field product).
Proof.
  induction l as [| [c f] l IH]; intros m code field Hnodup Hin.
  - inversion Hin.
  - cbn [fmap list_fmap fst] in Hnodup. apply NoDup_cons in Hnodup as [Hfresh Hnodup].
    cbn [foldl]. apply elem_of_cons in Hin as [Heq | Hin].
    + injection Heq as <- <-.
      rewrite fileUnder_fold_other by exact Hfresh.
      unfold fileUnder. cbn [fst snd].
      destruct (String.eqb (field product) ""); cbn [negb]; [reflexivity |].
      apply lookup_insert_eq.
    + rewrite (IH _ code field Hnodup Hin).
      destruct (String.eqb (field product) ""); [| reflexivity].
      unfold fileUnder. cbn [fst snd].
      destruct (negb (String.eqb (f product) "")); [| reflexivity].
      apply lookup_insert_ne. intros ->. apply Hfresh.
      apply (list_elem_of_fmap_2 fst) in Hin. exact Hin.
Qed.

Lemma fileUnder_fold_inv product (l : list (string * (OpenFoodFactsProduct -> string))) :
  forall m code n,
  foldl (fileUnder product) m l !! code = Some n ->
  m !! code = Some n
  \/ exists field, (code, field) ∈ l /\ field product = n /\ n <> "".
Proof.
  induction l as [| [c f] l IH]; intros m code n Hlook; [left; exact Hlook |].
  cbn [foldl] in Hlook. apply IH in Hlook as [Hlook | (field & Hin & Hn & Hne)].
  - unfold fileUnder in Hlook. cbn [fst snd] in Hlook.
    destruct (String.eqb (f product) "") eqn:Hempty; cbn [negb] in Hlook;
      [left; exact Hlook |].
    destruct (decide (c = code)) as [-> | Hother].
    + rewrite lookup_insert_eq in Hlook. injection Hlook as <-.
      right. exists f. split; [left | split; [reflexivity |]].
      apply String.eqb_neq. exact Hempty.
    + rewrite lookup_insert_ne in Hlook by exact Hother. left. exact Hlook.
  - right. exists field. split; [right; exact Hin | split; assumption].
Qed.

Lemma languageFields_NoDup : NoDup (fst <$> languageFields).
Proof. apply (bool_decide_unpack _). vm_compute. exact I. Qed.


Lemma languageFields_lookup_elem i code field :
  languageFields !! i = Some (code, field) -> (code, field) ∈ languageFields.
Proof. apply list_elem_of_lookup_2. Qed.

Lemma collect_lookup product i code field :
  languageFields !! i = Some (code, field) ->
  collectTranslations product !! code =
  if String.eqb (field product) "" then None else Some (field product).
Proof.
  intros Hi. rewrite collectTranslations_fold.
  rewrite (fileUnder_fold_lookup _ _ _ code field languageFields_NoDup
             (languageFields_lookup_elem _ _ _ Hi)).
  rewrite lookup_empty. reflexivity.
Qed.

Lemma collect_inv product code n :
  collectTranslations product !! code = Some n ->
  exists i field,
    languageFields !! i = Some (code, field) /\ field product = n /\ n <> "".
Proof.
  rewrite collectTranslations_fold. intros Hlook.
  apply fileUnder_fold_inv in Hlook as [Hlook | (field & Hin & Hn & Hne)].
  - rewrite lookup_empty in Hlook. discriminate.
  - apply list_elem_of_lookup_1 in Hin as [i Hi]. eauto.
Qed.

Lemma collect_empty product :
  collectTranslations product = ∅ <-> noTranslation product.
Proof.
  unfold noTranslation. split.
  - intros Hempty. apply Forall_lookup_2. intros i [code field] Hi. cbn [snd].
    pose proof (collect_lookup product i code field Hi) as Hlook.
    rewrite Hempty, lookup_empty in Hlook.
    destruct (String.eqb (field product) "") eqn:Hfield; [| discriminate].
    apply String.eqb_eq. exact Hfield.
  - intros Hnone. apply map_eq. intros code. rewrite lookup_empty.
    destruct (collectTranslations product !! code) as [n |] eqn:Hlook;
      [| reflexivity].
    apply collect_inv in Hlook as (i & field & Hi & Hn & Hne).
    apply (Forall_lookup_1 _ _ _ _ Hnone) in Hi. cbn [snd] in Hi. congruence.
Qed.

Lemma lookup_en product :
  lookupOrEmpty (collectTranslations product) "en" = ProductNameEn product.
Proof.
  unfold lookupOrEmpty.
  rewrite (collect_lookup product 0 "en" ProductNameEn eq_refl).
  destruct (String.eqb (ProductNameEn product) "") eqn:Hen; [| reflexivity].
  apply String.eqb_eq in Hen. rewrite Hen. reflexivity.
Qed.

Lemma size_pos_iff (m : gmap string string) : (0 <? size m)%nat = false <-> m = ∅.
Proof.
  rewrite Nat.ltb_ge. rewrite <- map_size_empty_iff. lia.
Qed.

(** The entry Go's [range] visits first is an entry of the map, and each
    entry is visited first under some order. *)
Lemma rangeFirst_entry order (m : gmap string string) :
  m <> ∅ -> exists code n, rangeFirst order m = Some n /\ m !! code = Some n.
Proof.
  intros Hne. unfold rangeFirst.
  assert (length (map_to_list m) <> 0%nat) as Hlen.
  { rewrite length_map_to_list. apply map_size_non_empty_iff. exact Hne. }
  destruct (lookup_lt_is_Some_2 (map_to_list m)
              (order mod length (map_to_list m))%nat) as [[code n] Hentry].
  { apply Nat.mod_upper_bound. exact Hlen. }
  exists code, n. rewrite Hentry. split; [reflexivity |].
  apply elem_of_map_to_list. apply list_elem_of_lookup_2 in Hentry. exact Hentry.
Qed.

Lemma rangeFirst_any (m : gmap string string) code n :
  m !! code = Some n -> exists order, rangeFirst order m = Some n.
Proof.
  intros Hlook. apply elem_of_map_to_list in Hlook.
  apply list_elem_of_lookup_1 in Hlook as [i Hi].
  exists i. unfold rangeFirst.
  rewrite Nat.mod_small by (apply lookup_lt_Some in Hi; exact Hi).
  rewrite Hi. reflexivity.
Qed.

(** The display name, case by case. *)
Lemma chooseName_cases order product :
  let translations := collectTranslations product in
  let underLang := lookupOrEmpty translations (strings.ToLower (Lang product)) in
  fst (chooseName order product) =
  if negb (String.eqb (ProductNameEn product) "") then ProductNameEn product
  else if negb (String.eqb (ProductName product) "") then ProductName product
  else if negb (String.eqb (Lang product) "") && negb (String.eqb underLang "")
  then underLang
  else default "" (rangeFirst order translations).
Proof.
  cbv zeta. unfold chooseName. cbv zeta. cbn [fst]. rewrite lookup_en.
  destruct (String.eqb (ProductNameEn product) "") eqn:Hen; cbn [negb andb].
  - destruct (String.eqb (ProductName product) "") eqn:Hpn; cbn [negb andb].
    + apply String.eqb_eq in Hpn. rewrite Hpn.
      destruct (0 <? size (collectTranslations product))%nat eqn:Hsize;
        cbn [andb].
      * destruct (String.eqb (Lang product) "") eqn:Hlang; cbn [negb andb].
        -- reflexivity.
        -- destruct (String.eqb (lookupOrEmpty _ _) "") eqn:Hunder;
             cbn [negb andb]; [| reflexivity].
           apply String.eqb_eq in Hunder. rewrite Hunder. reflexivity.
      * apply size_pos_iff in Hsize. rewrite Hsize.
        unfold lookupOrEmpty. rewrite lookup_empty. cbn [default from_option id].
        cbn [String.eqb negb]. rewrite andb_false_r.
        unfold rangeFirst. rewrite map_to_list_empty.
        destruct (negb (String.eqb (Lang product) "")); reflexivity.
    + rewrite ?Hpn. cbn [andb]. reflexivity.
  - rewrite ?Hen. cbn [andb]. rewrite ?Hen. cbn [andb]. reflexivity.
Qed.

Lemma chooseName_translations order product :
  snd (chooseName order product) =
  if negb (String.eqb (ProductName product) "")
     && (size (collectTranslations product) =? 0)%nat
     && negb (String.eqb (Lang product) "")
  then {[ strings.ToLower (Lang product) := ProductName product ]}
  else collectTranslations product.
Proof.
  unfold chooseName. cbv zeta. cbn [snd]. rewrite lookup_en.
  destruct (negb (String.eqb (ProductName product) "")
            && (size (collectTranslations product) =? 0)%nat
            && negb (String.eqb (Lang product) "")) eqn:Hcase; [| reflexivity].
  apply andb_prop in Hcase as [Hcase _]. apply andb_prop in Hcase as [_ Hsize].
  apply Nat.eqb_eq, map_size_empty_iff in Hsize.
  assert (ProductNameEn product = "") as Hen.
  { pose proof (collect_lookup product 0 "en" ProductNameEn eq_refl) as Hlook.
    rewrite Hsize, lookup_empty in Hlook.
    destruct (String.eqb (ProductNameEn product) "") eqn:Hen; [| discriminate].
    apply String.eqb_eq. exact Hen. }
  rewrite Hsize, Hen. cbn [String.eqb]. reflexivity.
Qed.

End Names.
Section Names2.
Context `{CaseTables}.

(** An accepted record, and the item it gives. *)
Lemma accepted_item order h product item :
  snd (ProcessProduct order h product) = (Some item, None) ->
  String.eqb (ID product) "" || String.eqb (Code product) "" = false
  /\ item =
     {| Name := fst (chooseName order product);
        OffID := ID product;
        Brand := extractBrand (Brands product);
        Barcode := Code product;
        ServingSizes := servingSizesOf product;
        Allergens := snd (normalizedAllergens h product);
        IngredientAllergens :=
          ingredientAllergensOf (fst (normalizedAllergens h product)) product;
        Translations := snd (chooseName order product) |}.
Proof.
  intros Hrun.
  destruct (String.eqb (ID product) "" || String.eqb (Code product) "") eqn:Hguard.
  - rewrite (ProcessProduct_rejected _ _ _ Hguard) in Hrun. discriminate.
  - split; [reflexivity |].
    rewrite (ProcessProduct_accepted _ _ _ Hguard) in Hrun. cbn [snd] in Hrun.
    apply (f_equal (fun r : option FoodItem * option error =>
                      match fst r with Some it => it | None => item end))
      in Hrun.
    cbv beta iota in Hrun. cbn [fst] in Hrun. symmetry. exact Hrun.
Qed.

Lemma key_fields_present product :
  String.eqb (ID product) "" || String.eqb (Code product) "" = false <->
  ID product <> "" /\ Code product <> "".
Proof.
  rewrite orb_false_iff, !String.eqb_neq. reflexivity.
Qed.

Lemma nameFields_languageFields :
  nameFields = ProductName :: map snd languageFields.
Proof. reflexivity. Qed.

Lemma noName_iff product :
  noName product <-> ProductName product = "" /\ noTranslation product.
Proof.
  unfold noName, noTranslation. rewrite nameFields_languageFields.
  rewrite Forall_cons. rewrite List.Forall_map. reflexivity.
Qed.

Lemma chooseName_empty order product :
  fst (chooseName order product) = "" <-> noName product.
Proof.
  split; [| apply noName_resolves_nothing].
  rewrite chooseName_cases. cbv zeta. intros Hname.
  destruct (String.eqb (ProductNameEn product) "") eqn:Hen; cbn [negb] in Hname;
    [| apply String.eqb_neq in Hen; contradiction].
  destruct (String.eqb (ProductName product) "") eqn:Hpn; cbn [negb] in Hname;
    [| apply String.eqb_neq in Hpn; contradiction].
  apply String.eqb_eq in Hpn.
  destruct (negb (String.eqb (Lang product) "")
            && negb (String.eqb (lookupOrEmpty (collectTranslations product)
                                   (strings.ToLower (Lang product))) ""))
    eqn:Hunder.
  - apply andb_prop in Hunder as [_ Hunder].
    apply negb_true_iff, String.eqb_neq in Hunder. contradiction.
  - apply noName_iff. split; [exact Hpn |]. apply collect_empty.
    destruct (decide (collectTranslations product = ∅)) as [| Hsome];
      [assumption |].
    destruct (rangeFirst_entry order _ Hsome) as (code & n & Hfirst & Hlook).
    rewrite Hfirst in Hname. cbn in Hname. subst n.
    apply collect_inv in Hlook as (i & field & _ & _ & Hne). contradiction.
Qed.

(** X2.  The display name of an accepted record: the English name; else the
    default name; else the name in the language of the record; the name is
    empty only when the record has no name at all, and is one of the names of
    the record otherwise. *)
Theorem display_name_priority order h product item :
  snd (ProcessProduct order h product) = (Some item, None) ->
  (ProductNameEn product <> "" -> Name item = ProductNameEn product)
  /\ (ProductNameEn product = "" -> ProductName product <> "" ->
      Name item = ProductName product)
  /\ (ProductNameEn product = "" -> ProductName product = "" ->
      Lang product <> "" ->
      forall i field,
        languageFields !! i = Some (strings.ToLower (Lang product), field) ->
        field product <> "" -> Name item = field product)
  /\ (Name item = "" <-> noName product)
  /\ (Name item = "" \/ Name item = ProductName product
      \/ exists i code field,
           languageFields !! i = Some (code, field)
           /\ field product = Name item).
Proof.
  intros Hrun. apply accepted_item in Hrun as [_ ->]. cbn [Name].
  split; [| split; [| split; [| split]]].
  - intros Hen. rewrite chooseName_cases. cbv zeta.
    apply String.eqb_neq in Hen. rewrite Hen. reflexivity.
  - intros Hen Hpn. rewrite chooseName_cases. cbv zeta.
    apply String.eqb_neq in Hpn. rewrite Hen, Hpn. reflexivity.
  - intros Hen Hpn Hlang i field Hi Hfield. rewrite chooseName_cases. cbv zeta.
    rewrite Hen, Hpn. cbn [String.eqb negb].
    unfold lookupOrEmpty. rewrite (collect_lookup _ _ _ _ Hi).
    apply String.eqb_neq in Hlang, Hfield. rewrite Hlang, Hfield.
    cbn [negb andb default from_option id]. rewrite Hfield. reflexivity.
  - apply chooseName_empty.
  - rewrite chooseName_cases. cbv zeta.
    destruct (String.eqb (ProductNameEn product) ""); cbn [negb].
    2: { right. right. exists 0%nat, "en", ProductNameEn. split; reflexivity. }
    destruct (String.eqb (ProductName product) ""); cbn [negb].
    2: { right. left. reflexivity. }
    assert (forall code,
              lookupOrEmpty (collectTranslations product) code = ""
              \/ exists i code' field,
                   languageFields !! i = Some (code', field)
                   /\ field product
                      = lookupOrEmpty (collectTranslations product) code)
      as Hunder.
    { intros code. unfold lookupOrEmpty.
      destruct (collectTranslations product !! code) as [n |] eqn:Hlook;
        [| left; reflexivity].
      apply collect_inv in Hlook as (i & field & Hi & Hn & _).
      right. exists i, code, field. split; assumption. }
    destruct (negb (String.eqb (Lang product) "") && _).
    + destruct (Hunder (strings.ToLower (Lang product))) as [-> | Hsome];
        [left; reflexivity | right; right; exact Hsome].
    + destruct (decide (collectTranslations product = ∅)) as [Hnone | Hsome].
      * left. unfold rangeFirst. rewrite Hnone, map_to_list_empty. reflexivity.
      * destruct (rangeFirst_entry order _ Hsome) as (code & n & -> & Hlook).
        cbn. apply collect_inv in Hlook as (i & field & Hi & Hn & _).
        right. right. exists i, code, field. split; assumption.
Qed.

(** X3.  Go's [range] over the translations decides the name only when the
    record has no English name, no default name and no name in its own
    language: the result of [ProcessProduct] is the same under every order
    otherwise, and each translation is the name under some order then. *)
Theorem name_depends_on_range_order_only_as_last_resort h product :
  (ProductNameEn product <> "" \/ ProductName product <> ""
   \/ (Lang product <> ""
       /\ exists i field,
            languageFields !! i = Some (strings.ToLower (Lang product), field)
            /\ field product <> "") ->
   forall order order',
     ProcessProduct order h product = ProcessProduct order' h product)
  /\ (ID product <> "" -> Code product <> "" ->
      ProductNameEn product = "" -> ProductName product = "" ->
      (Lang product = ""
       \/ collectTranslations product !! strings.ToLower (Lang product) = None) ->
      forall i code field,
        languageFields !! i = Some (code, field) -> field product <> "" ->
        exists order item,
          snd (ProcessProduct order h product) = (Some item, None)
          /\ Name item = field product).
Proof.
  split.
  - intros Hcase order order'.
    destruct (String.eqb (ID product) "" || String.eqb (Code product) "")
      eqn:Hguard.
    + rewrite !(ProcessProduct_rejected _ _ _ Hguard). reflexivity.
    + rewrite !(ProcessProduct_accepted _ _ _ Hguard).
      rewrite !chooseName_translations.
      assert (fst (chooseName order product) = fst (chooseName order' product))
        as ->; [| reflexivity].
      rewrite !chooseName_cases. cbv zeta.
      destruct (String.eqb (ProductNameEn product) "") eqn:Hen; cbn [negb];
        [| reflexivity].
      destruct (String.eqb (ProductName product) "") eqn:Hpn; cbn [negb];
        [| reflexivity].
      apply String.eqb_eq in Hen, Hpn.
      destruct Hcase as [Hcase | [Hcase | (Hlang & i & field & Hi & Hfield)]];
        [contradiction | contradiction |].
      unfold lookupOrEmpty. rewrite (collect_lookup _ _ _ _ Hi).
      apply String.eqb_neq in Hlang, Hfield. rewrite Hlang, Hfield.
      cbn [negb andb default from_option id]. rewrite Hfield. reflexivity.
  - intros Hid Hcode Hen Hpn Hlang i code field Hi Hfield.
    assert (collectTranslations product !! code = Some (field product))
      as Hlook.
    { rewrite (collect_lookup _ _ _ _ Hi).
      apply String.eqb_neq in Hfield. rewrite Hfield. reflexivity. }
    destruct (rangeFirst_any _ _ _ Hlook) as [order Hfirst].
    assert (String.eqb (ID product) "" || String.eqb (Code product) "" = false)
      as Hguard by (apply key_fields_present; split; assumption).
    exists order. eexists. rewrite (ProcessProduct_accepted _ _ _ Hguard).
    cbn [snd Name]. split; [reflexivity |].
    rewrite chooseName_cases. cbv zeta. rewrite Hen, Hpn. cbn [String.eqb negb].
    rewrite Hfirst.
    destruct Hlang as [-> | Hnone].
    + reflexivity.
    + unfold lookupOrEmpty. rewrite Hnone. cbn [default from_option id].
      cbn [String.eqb negb]. rewrite andb_false_r. reflexivity.
Qed.

End Names2.
Section Names3.
Context `{CaseTables}.

(** X4.  The translations of an accepted record: each translated name that is
    not empty is filed under its language code; a record with a default
    name, no translated name and a language has the default name filed
    under its language, in lower case; nothing else is filed, and no empty
    name ever is. *)
Theorem translations_hold_the_names_present order h product item :
  snd (ProcessProduct order h product) = (Some item, None) ->
  (forall i code field,
     languageFields !! i = Some (code, field) -> field product <> "" ->
     Translations item !! code = Some (field product))
  /\ (noTranslation product -> ProductName product <> "" ->
      Lang product <> "" ->
      Translations item
      = {[ strings.ToLower (Lang product) := ProductName product ]})
  /\ (noTranslation product ->
      ProductName product = "" \/ Lang product = "" ->
      Translations item = ∅)
  /\ (forall code n,
        Translations item !! code = Some n ->
        n <> ""
        /\ ((exists i field,
               languageFields !! i = Some (code, field) /\ field product = n)
            \/ (noTranslation product
                /\ code = strings.ToLower (Lang product)
                /\ n = ProductName product))).
Proof.
  intros Hrun. apply accepted_item in Hrun as [_ ->]. cbn [Translations].
  rewrite chooseName_translations.
  destruct (decide (collectTranslations product = ∅)) as [Hnone | Hsome].
  - pose proof (proj1 (collect_empty product) Hnone) as Hno.
    rewrite Hnone, map_size_empty. cbn [Nat.eqb]. rewrite andb_true_r.
    split; [| split; [| split]].
    + intros i code field Hi Hfield.
      apply (Forall_lookup_1 _ _ _ _ Hno) in Hi. contradiction.
    + intros _ Hpn Hlang. apply String.eqb_neq in Hpn, Hlang.
      rewrite Hpn, Hlang. reflexivity.
    + intros _ [Hpn | Hlang].
      * rewrite Hpn. reflexivity.
      * rewrite Hlang. cbn [String.eqb negb]. rewrite andb_false_r. reflexivity.
    + intros code n.
      destruct (negb (String.eqb (ProductName product) "")
                && negb (String.eqb (Lang product) "")) eqn:Hcase.
      * apply andb_prop in Hcase as [Hpn _].
        apply negb_true_iff, String.eqb_neq in Hpn.
        intros Hlook. apply lookup_singleton_Some in Hlook as [<- <-].
        split; [exact Hpn |]. right. repeat split. exact Hno.
      * rewrite lookup_empty. discriminate.
  - assert ((size (collectTranslations product) =? 0)%nat = false) as ->.
    { apply Nat.eqb_neq. apply map_size_non_empty_iff. exact Hsome. }
    rewrite andb_false_r. cbn [andb].
    assert (~ noTranslation product) as Hno
      by (intros Hno; apply Hsome, collect_empty, Hno).
    split; [| split; [| split]]; try (intros; contradiction).
    + intros i code field Hi Hfield. rewrite (collect_lookup _ _ _ _ Hi).
      apply String.eqb_neq in Hfield. rewrite Hfield. reflexivity.
    + intros code n Hlook.
      apply collect_inv in Hlook as (i & field & Hi & Hn & Hne).
      split; [exact Hne |]. left. exists i, field. split; assumption.
Qed.

(** X1.  [ProcessProduct] accepts a record exactly when it has an identifier
    and a code, whatever else it holds; it returns an item or an error,
    never both and never neither; the item carries the identifier and the
    code as they are. *)
Theorem accepted_exactly_with_key_fields order h product :
  ((exists item, snd (ProcessProduct order h product) = (Some item, None))
   <-> ID product <> "" /\ Code product <> "")
  /\ (snd (ProcessProduct order h product) = (None, Some EmptyKeyFields)
      <-> ID product = "" \/ Code product = "")
  /\ (forall item,
        fst (snd (ProcessProduct order h product)) = Some item ->
        snd (snd (ProcessProduct order h product)) = None
        /\ OffID item = ID product /\ OffID item <> ""
        /\ Barcode item = Code product /\ Barcode item <> ""
        /\ Brand item = extractBrand (Brands product))
  /\ (fst (snd (ProcessProduct order h product)) = None ->
      snd (snd (ProcessProduct order h product)) = Some EmptyKeyFields).
Proof.
  destruct (String.eqb (ID product) "" || String.eqb (Code product) "")
    eqn:Hguard.
  - rewrite (ProcessProduct_rejected _ _ _ Hguard). cbn [fst snd].
    apply orb_prop in Hguard. rewrite !String.eqb_eq in Hguard.
    split; [| split; [| split]].
    + split; [intros [item Hitem]; discriminate |].
      intros [Hid Hcode]. destruct Hguard; contradiction.
    + split; [intros _; exact Hguard | reflexivity].
    + discriminate.
    + reflexivity.
  - rewrite (ProcessProduct_accepted _ _ _ Hguard). cbn [fst snd].
    apply key_fields_present in Hguard as [Hid Hcode].
    split; [| split; [| split]].
    + split; [intros _; split; assumption | intros _; eexists; reflexivity].
    + split; [discriminate | intros [? | ?]; contradiction].
    + intros item Hitem.
      apply (f_equal (fun o : option FoodItem =>
                        match o with Some it => it | None => item end))
        in Hitem.
      cbv beta iota in Hitem. rewrite <- Hitem. cbn [OffID Barcode Brand].
      repeat split; assumption.
    + discriminate.
Qed.

End Names3.

Lemma display_name_priority_witness :
  let item := itemOf (ProcessProduct (H := plainTables) 0 breadStore bread) in
  snd (ProcessProduct (H := plainTables) 0 breadStore bread) = (Some item, None)
  /\ ProductNameEn bread = "" /\ ProductName bread <> ""
  /\ Name item = ProductName bread.
Proof.
  cbv zeta.
  assert (snd (ProcessProduct (H := plainTables) 0 breadStore bread)
          = (Some (itemOf (ProcessProduct (H := plainTables) 0 breadStore bread)),
             None)) as Hrun by run.
  split; [exact Hrun |]. split; [reflexivity |]. split; [discriminate |].
  apply (display_name_priority (H := plainTables) 0 breadStore bread _ Hrun);
    [reflexivity | discriminate].
Defined.

Lemma translations_hold_the_names_present_witness :
  let item := itemOf (ProcessProduct (H := plainTables) 0 breadStore bread) in
  snd (ProcessProduct (H := plainTables) 0 breadStore bread) = (Some item, None)
  /\ languageFields !! 1%nat = Some ("fr", ProductNameFr)
  /\ ProductNameFr bread <> ""
  /\ Translations item !! "fr" = Some (ProductNameFr bread).
Proof.
  cbv zeta.
  assert (snd (ProcessProduct (H := plainTables) 0 breadStore bread)
          = (Some (itemOf (ProcessProduct (H := plainTables) 0 breadStore bread)),
             None)) as Hrun by run.
  split; [exact Hrun |]. split; [reflexivity |]. split; [discriminate |].
  apply (proj1 (translations_hold_the_names_present (H := plainTables) 0
                  breadStore bread _ Hrun) 1%nat); [reflexivity | discriminate].
Defined.

Lemma name_depends_on_range_order_only_as_last_resort_witness :
  ID twoNames <> "" /\ Code twoNames <> ""
  /\ ProductNameEn twoNames = "" /\ ProductName twoNames = ""
  /\ Lang twoNames = ""
  /\ languageFields !! 3%nat = Some ("de", ProductNameDe)
  /\ ProductNameDe twoNames <> ""
  /\ exists order item,
       snd (ProcessProduct (H := plainTables) order breadStore twoNames)
       = (Some item, None)
       /\ Name item = ProductNameDe twoNames.
Proof.
  do 2 (split; [discriminate |]). do 4 (split; [reflexivity |]).
  split; [discriminate |].
  refine (proj2 (name_depends_on_range_order_only_as_last_resort
                   (H := plainTables) breadStore twoNames)
                _ _ eq_refl eq_refl (or_introl eq_refl)
                3%nat "de" ProductNameDe eq_refl _); discriminate.
Defined.

Lemma accepted_exactly_with_key_fields_witness :
  ID bread <> "" /\ Code bread <> ""
  /\ exists item,
       snd (ProcessProduct (H := plainTables) 0 breadStore bread)
       = (Some item, None).
Proof.
  do 2 (split; [discriminate |]).
  apply (proj1 (accepted_exactly_with_key_fields (H := plainTables) 0
                  breadStore bread)).
  split; discriminate.
Defined.

(** ** The allergens *)

Section Allergens.
Context `{CaseTables}.

Lemma HasPrefix_empty (s : string) : strings.HasPrefix s "" = true.
Proof. destruct s; reflexivity. Qed.

Lemma splitLoop_byte_length (c : ascii) (s : string) : forall cur,
  length (strings.splitLoop (String c "") 0 cur s) = S (occurrences c s).
Proof.
  induction s as [| d s IH]; intros cur; [reflexivity |].
  cbn [strings.splitLoop strings.HasPrefix occurrences String.length Nat.sub].
  rewrite HasPrefix_empty, andb_true_r.
  destruct (Ascii.eqb c d); cbn [length Nat.add]; rewrite IH; reflexivity.
Qed.

Lemma Split_comma_length (s : string) :
  length (strings.Split s ",") = S (occurrences "," s).
Proof. apply splitLoop_byte_length. Qed.

Lemma normalizeInPlace_dom n : forall i (h : store) s,
  dom (normalizeInPlace h s i n) = dom h.
Proof.
  induction n as [| n IH]; intros i h s; [reflexivity |].
  cbn [normalizeInPlace]. destruct (index h s i); rewrite IH; [| reflexivity].
  unfold assign. apply dom_alter_L.
Qed.

(** The allergens of a record without tags: the pieces of the allergen
    text in a new backing array, normalized. *)
Lemma normalizedAllergens_fallback h product :
  len (AllergensTags product) = 0%nat ->
  RawAllergens product <> "" ->
  let pieces := strings.Split (RawAllergens product) "," in
  let h' := fst (normalizedAllergens h product) in
  let allergens := snd (normalizedAllergens h product) in
  allergens = {| array := fresh (dom h); offset := 0; len := length pieces |}
  /\ h' !! fresh (dom h) = Some (map normalizeAllergen pieces)
  /\ (forall a, a ∈ dom h -> h' !! a = h !! a)
  /\ dom h' = {[ fresh (dom h) ]} ∪ dom h.
Proof.
  intros Hlen Hraw. cbv zeta. unfold normalizedAllergens. cbv zeta.
  apply String.eqb_neq in Hraw. rewrite Hlen, Hraw. cbn [Nat.eqb negb andb].
  unfold allocate. cbv zeta. cbn [fst snd len].
  set (pieces := strings.Split (RawAllergens product) ",").
  set (a := fresh (dom h)).
  set (s := {| array := a; offset := 0; len := length pieces |}).
  split; [reflexivity |]. split; [| split].
  - rewrite (normalizeInPlace_array (length pieces) 0 _ s pieces).
    + cbn [offset s Nat.add]. rewrite take_0, firstn_all, drop_0.
      rewrite drop_all, app_nil_r. reflexivity.
    + apply lookup_insert_eq.
    + cbn. lia.
  - intros b Hb. rewrite normalizeInPlace_other.
    + apply lookup_insert_ne. intros <-. apply (is_fresh (dom h)). exact Hb.
    + cbn [array s]. intros ->. apply (is_fresh (dom h)). exact Hb.
  - rewrite normalizeInPlace_dom. apply dom_insert_L.
Qed.

Lemma normalizedAllergens_none h product :
  len (AllergensTags product) = 0%nat ->
  RawAllergens product = "" ->
  normalizedAllergens h product = (h, AllergensTags product).
Proof.
  intros Hlen Hraw. unfold normalizedAllergens. cbv zeta.
  rewrite Hlen, Hraw. cbn [Nat.eqb String.eqb negb andb]. rewrite Hlen.
  reflexivity.
Qed.

(** X5.  A record without allergen tags: the allergens of its item are the
    pieces of the allergen text between commas, one more than there are
    commas, each normalized, in a backing array that is new; the arrays of
    the store are as they were.  Without an allergen text either, the item
    has the empty tag list of the record and the store is as it was. *)
Theorem allergen_text_split_when_no_tags order h product :
  ID product <> "" -> Code product <> "" ->
  len (AllergensTags product) = 0%nat ->
  exists item,
    snd (ProcessProduct order h product) = (Some item, None)
    /\ (RawAllergens product <> "" ->
        (array (Allergens item) ∉ dom h)
        /\ elements (fst (ProcessProduct order h product)) (Allergens item)
           = map normalizeAllergen (strings.Split (RawAllergens product) ",")
        /\ len (Allergens item) = S (occurrences "," (RawAllergens product))
        /\ forall a, a ∈ dom h ->
             fst (ProcessProduct order h product) !! a = h !! a)
    /\ (RawAllergens product = "" ->
        Allergens item = AllergensTags product
        /\ elements (fst (ProcessProduct order h product)) (Allergens item) = []
        /\ fst (ProcessProduct order h product) = h).
Proof.
  intros Hid Hcode Hlen.
  assert (String.eqb (ID product) "" || String.eqb (Code product) "" = false)
    as Hguard by (apply key_fields_present; split; assumption).
  rewrite (ProcessProduct_accepted _ _ _ Hguard). cbn [fst snd].
  eexists. split; [reflexivity |]. cbn [Allergens]. split.
  - intros Hraw.
    destruct (normalizedAllergens_fallback h product Hlen Hraw)
      as (Hslice & Harray & Hother & _).
    rewrite Hslice. cbn [array len]. split; [apply is_fresh |].
    split; [| split; [apply Split_comma_length | exact Hother]].
    unfold elements. cbn [array offset len]. rewrite Harray.
    cbn [default from_option id]. rewrite drop_0.
    rewrite <- (length_map normalizeAllergen). apply firstn_all.
  - intros Hraw. rewrite (normalizedAllergens_none _ _ Hlen Hraw). cbn [fst snd].
    split; [reflexivity |]. split; [| reflexivity].
    unfold elements. rewrite Hlen. apply take_0.
Qed.

Lemma AllergenMap_values_not_empty key token :
  AllergenMap !! key = Some token -> token <> "".
Proof.
  intros Hlook Hempty. subst token.
  assert (map_Forall (fun _ token => token <> "") AllergenMap) as Hall.
  { apply (bool_decide_unpack _). vm_compute. exact I. }
  exact (Hall _ _ Hlook eq_refl).
Qed.

Lemma extractIngredientAllergen_canonical tag :
  extractIngredientAllergen tag = "" \/ canonical (extractIngredientAllergen tag).
Proof.
  unfold extractIngredientAllergen, canonical. cbv zeta.
  destruct (AllergenMap !! _) as [token |] eqn:Hlook; [| left; reflexivity].
  right. eexists. exact Hlook.
Qed.

Lemma ingredientAllergensOf_canonical h product :
  Forall (fun token => token <> "" /\ canonical token)
         (ingredientAllergensOf h product)
  /\ (length (ingredientAllergensOf h product)
      <= len (IngredientsTags product))%nat.
Proof.
  unfold ingredientAllergensOf. split.
  - apply List.Forall_forall. intros token Hin.
    apply List.filter_In in Hin as [Hin Hkeep].
    apply negb_true_iff, String.eqb_neq in Hkeep. split; [exact Hkeep |].
    apply List.in_map_iff in Hin as (tag & <- & _).
    destruct (extractIngredientAllergen_canonical tag); [contradiction | assumption].
  - etransitivity; [apply List.filter_length_le |].
    rewrite length_map. unfold elements. rewrite length_take. lia.
Qed.

Lemma elements_unchanged (h h' : store) s :
  h' !! array s = h !! array s -> elements h' s = elements h s.
Proof. intros Hsame. unfold elements. rewrite Hsame. reflexivity. Qed.

(** X6.  The ingredient allergens of an accepted record: the canonical tokens
    of the ingredient tags that [AllergenMap] knows, in the order of the
    tags; a tag it does not know adds nothing, so that no token is empty
    and there are at most as many tokens as tags. *)
Theorem ingredient_allergens_are_canonical order h product item :
  snd (ProcessProduct order h product) = (Some item, None) ->
  Forall (fun token => token <> "" /\ canonical token)
         (IngredientAllergens item)
  /\ (length (IngredientAllergens item) <= len (IngredientsTags product))%nat
  /\ (array (IngredientsTags product) ∈ dom h ->
      array (IngredientsTags product) <> array (AllergensTags product)
      \/ len (AllergensTags product) = 0%nat ->
      IngredientAllergens item
      = List.filter (fun token => negb (String.eqb token ""))
          (map extractIngredientAllergen
               (elements h (IngredientsTags product)))).
Proof.
  intros Hrun. apply accepted_item in Hrun as [_ ->].
  cbn [IngredientAllergens].
  split; [apply ingredientAllergensOf_canonical |].
  split; [apply ingredientAllergensOf_canonical |].
  intros Hdom Hapart. unfold ingredientAllergensOf.
  rewrite (elements_unchanged h); [reflexivity |].
  apply normalizedAllergens_other; assumption.
Qed.

End Allergens.

Lemma allergen_text_split_when_no_tags_witness :
  ID twoNames <> "" /\ Code twoNames <> ""
  /\ len (AllergensTags twoNames) = 0%nat
  /\ RawAllergens twoNames <> ""
  /\ exists item,
       snd (ProcessProduct (H := plainTables) 0 breadStore twoNames)
       = (Some item, None)
       /\ elements (fst (ProcessProduct (H := plainTables) 0 breadStore twoNames))
                   (Allergens item)
          = map (normalizeAllergen (H := plainTables))
                (strings.Split (RawAllergens twoNames) ",")
       /\ len (Allergens item) = 3%nat.
Proof.
  do 2 (split; [discriminate |]). split; [reflexivity |].
  split; [discriminate |].
  destruct (allergen_text_split_when_no_tags (H := plainTables) 0 breadStore
              twoNames) as (item & Hrun & Hsplit & _);
    [discriminate | discriminate | reflexivity |].
  exists item. split; [exact Hrun |].
  destruct Hsplit as (_ & Helements & Hlen & _); [discriminate |].
  split; [exact Helements | exact Hlen].
Defined.

Lemma ingredient_allergens_are_canonical_witness :
  let item := itemOf (ProcessProduct (H := plainTables) 0 breadStore bread) in
  snd (ProcessProduct (H := plainTables) 0 breadStore bread) = (Some item, None)
  /\ Forall (fun token => token <> "" /\ canonical token)
            (IngredientAllergens item)
  /\ IngredientAllergens item = ["wheat"; "eggs"].
Proof.
  cbv zeta.
  assert (snd (ProcessProduct (H := plainTables) 0 breadStore bread)
          = (Some (itemOf (ProcessProduct (H := plainTables) 0 breadStore bread)),
             None)) as Hrun by run.
  split; [exact Hrun |].
  split; [| run].
  apply (ingredient_allergens_are_canonical (H := plainTables) 0 breadStore
           bread _ Hrun).
Defined.

(** ** ASCII strings *)

Lemma byte_range (c : ascii) : 0 <= byte c < 256.
Proof.
  unfold byte. pose proof (N_ascii_bounded c) as Hc. lia.
Qed.

Ltac each_byte c :=
  destruct c as [[] [] [] [] [] [] [] []]; vm_compute;
  try reflexivity; try discriminate; try tauto.

Lemma append_cons (c : ascii) (s t : string) :
  String c s ++ t = String c (s ++ t).
Proof. reflexivity. Qed.

Lemma append_empty_l (s : string) : "" ++ s = s.
Proof. reflexivity. Qed.

Lemma append_assoc (s t u : string) : (s ++ t) ++ u = s ++ (t ++ u).
Proof.
  induction s as [| c s IH]; [reflexivity |].
  rewrite !append_cons, IH. reflexivity.
Qed.

Lemma length_append (s t : string) :
  String.length (s ++ t) = (String.length s + String.length t)%nat.
Proof.
  induction s as [| c s IH]; [reflexivity |].
  rewrite append_cons. cbn [String.length]. rewrite IH. reflexivity.
Qed.

Lemma srev_onto_app (s acc : string) : srev_onto s acc = srev s ++ acc.
Proof.
  unfold srev. revert acc. induction s as [| c s IH]; intros acc; [reflexivity |].
  cbn [srev_onto]. rewrite IH, (IH (String c "")).
  rewrite append_assoc. reflexivity.
Qed.

Lemma srev_cons (c : ascii) (s : string) : srev (String c s) = srev s ++ String c "".
Proof. unfold srev at 1. cbn [srev_onto]. apply srev_onto_app. Qed.

Lemma append_empty_r (s : string) : s ++ "" = s.
Proof.
  induction s as [| c s IH]; [reflexivity |]. rewrite append_cons, IH. reflexivity.
Qed.

Lemma srev_app (s t : string) : srev (s ++ t) = srev t ++ srev s.
Proof.
  induction s as [| c s IH]; [symmetry; apply append_empty_r |].
  rewrite append_cons, !srev_cons, IH, append_assoc. reflexivity.
Qed.

Lemma srev_involutive (s : string) : srev (srev s) = s.
Proof.
  induction s as [| c s IH]; [reflexivity |].
  rewrite srev_cons, srev_app, IH. reflexivity.
Qed.

Lemma srev_length (s : string) : String.length (srev s) = String.length s.
Proof.
  induction s as [| c s IH]; [reflexivity |].
  rewrite srev_cons, length_append, IH. cbn. lia.
Qed.

Lemma sforall_app f (s t : string) :
  sforall f (s ++ t) = sforall f s && sforall f t.
Proof.
  induction s as [| c s IH]; [reflexivity |].
  rewrite append_cons. cbn [sforall]. rewrite IH, andb_assoc. reflexivity.
Qed.

Lemma sforall_srev f (s : string) : sforall f (srev s) = sforall f s.
Proof.
  induction s as [| c s IH]; [reflexivity |].
  rewrite srev_cons, sforall_app, IH. cbn [sforall].
  rewrite andb_true_r, andb_comm. reflexivity.
Qed.

Lemma smap_app g (s t : string) : smap g (s ++ t) = smap g s ++ smap g t.
Proof.
  induction s as [| c s IH]; [reflexivity |].
  rewrite append_cons. cbn [smap]. rewrite IH. reflexivity.
Qed.

Lemma smap_srev g (s : string) : smap g (srev s) = srev (smap g s).
Proof.
  induction s as [| c s IH]; [reflexivity |].
  cbn [smap]. rewrite !srev_cons, smap_app, IH. reflexivity.
Qed.


Lemma sforall_smap f g (s : string) :
  (forall c, f (g c) = f c) -> sforall f (smap g s) = sforall f s.
Proof.
  intros Hfg. induction s as [| c s IH]; [reflexivity |].
  cbn. rewrite Hfg, IH. reflexivity.
Qed.

Lemma sforall_skip f n : forall s, sforall f s = true -> sforall f (skip n s) = true.
Proof.
  induction n as [| n IH]; intros [| c s] Hs; try exact Hs.
  cbn [skip]. apply IH. cbn in Hs. apply andb_prop in Hs as [_ Hs]. exact Hs.
Qed.

Lemma sforall_keep f n : forall s, sforall f s = true -> sforall f (keep n s) = true.
Proof.
  induction n as [| n IH]; intros [| c s] Hs; try reflexivity.
  cbn in Hs. apply andb_prop in Hs as [Hc Hs]. cbn. rewrite Hc. apply IH, Hs.
Qed.

Lemma sforall_dropWhileByte f g : forall s,
  sforall f s = true -> sforall f (dropWhileByte g s) = true.
Proof.
  induction s as [| c s IH]; intros Hs; [reflexivity |].
  cbn [dropWhileByte]. destruct (g c); [| exact Hs].
  apply IH. cbn in Hs. apply andb_prop in Hs as [_ Hs]. exact Hs.
Qed.

Lemma keep_skip (n : nat) : forall s, keep n s ++ skip n s = s.
Proof.
  induction n as [| n IH]; intros [| c s]; try reflexivity.
  cbn [keep skip]. rewrite append_cons, IH. reflexivity.
Qed.

(** Decoding a rune at an ASCII byte and at another byte. *)
Lemma DecodeRune_ascii (c : ascii) (s : string) :
  byte c < 128 -> utf8.DecodeRuneInString (String c s) = (byte c, 1%nat).
Proof.
  intros Hc. unfold utf8.DecodeRuneInString.
  destruct (byte c <? 128) eqn:Hlt; [reflexivity | lia].
Qed.

Lemma lor_above (a b : Z) : 0 <= b -> 128 <= a -> 128 <= Z.lor a b.
Proof.
  intros Hb Ha.
  assert (0 <= Z.lor a b) as Hnonneg by (apply Z.lor_nonneg; lia).
  assert (Z.lor a b <> 0) as Hnot0.
  { intros Hzero. apply Z.lor_eq_0_iff in Hzero. lia. }
  change 128 with (2 ^ 7). apply Z.log2_le_pow2; [lia |].
  rewrite Z.log2_lor by lia.
  assert (7 <= Z.log2 a) by (apply Z.log2_le_pow2; [lia | exact Ha]). lia.
Qed.

Lemma low6_nonneg (c : ascii) : 0 <= utf8.low6 c.
Proof. unfold utf8.low6. apply Z.land_nonneg. right. lia. Qed.

Lemma lead2_above (c : ascii) :
  (194 <=? byte c) && (byte c <=? 223) = true ->
  (128 <=? Z.shiftl (Z.land (byte c) 31) 6) = true.
Proof. each_byte c. Qed.

Lemma lead3_above (c : ascii) :
  (224 <=? byte c) && (byte c <=? 239) = true -> (byte c =? 224) = false ->
  (128 <=? Z.shiftl (Z.land (byte c) 15) 12) = true.
Proof. each_byte c. Qed.

Lemma lead4_above (c : ascii) :
  (240 <=? byte c) && (byte c <=? 244) = true -> (byte c =? 240) = false ->
  (128 <=? Z.shiftl (Z.land (byte c) 7) 18) = true.
Proof. each_byte c. Qed.

Lemma second3_above (c : ascii) :
  utf8.cont 160 191 c = true -> (128 <=? Z.shiftl (utf8.low6 c) 6) = true.
Proof. each_byte c. Qed.

Lemma second4_above (c : ascii) :
  utf8.cont 144 191 c = true -> (128 <=? Z.shiftl (utf8.low6 c) 12) = true.
Proof. each_byte c. Qed.

Lemma shiftl_nonneg (a n : Z) : 0 <= a -> 0 <= Z.shiftl a n.
Proof. intros Ha. apply Z.shiftl_nonneg. exact Ha. Qed.

Lemma land_nonneg_r (a m : Z) : 0 <= m -> 0 <= Z.land a m.
Proof. intros Hm. apply Z.land_nonneg. right. exact Hm. Qed.

Lemma DecodeRune_not_ascii (c : ascii) (s : string) :
  128 <= byte c ->
  128 <= fst (utf8.DecodeRuneInString (String c s))
  /\ (1 <= snd (utf8.DecodeRuneInString (String c s)))%nat.
Proof.
  intros Hc. unfold utf8.DecodeRuneInString.
  assert (forall n : nat, 128 <= fst (utf8.RuneError, n)) as Herror
    by (intros n; cbn; unfold utf8.RuneError; lia).
  destruct (byte c <? 128) eqn:Hlt; [lia |].
  destruct ((194 <=? byte c) && (byte c <=? 223)) eqn:Htwo.
  { destruct s as [| b1 s1]; [split; [apply Herror | cbn; lia] |].
    destruct (utf8.cont 128 191 b1); [| split; [apply Herror | cbn; lia]].
    cbn [fst snd]. split; [| lia].
    apply lor_above; [apply low6_nonneg |].
    apply Z.leb_le, lead2_above, Htwo. }
  destruct ((224 <=? byte c) && (byte c <=? 239)) eqn:Hthree.
  { destruct s as [| b1 [| b2 s2]]; try (split; [apply Herror | cbn; lia]).
    destruct (utf8.cont _ _ b1 && utf8.cont 128 191 b2) eqn:Hcont;
      [| split; [apply Herror | cbn; lia]].
    cbn [fst snd]. split; [| lia].
    apply lor_above; [apply low6_nonneg |].
    apply andb_prop in Hcont as [Hsecond _].
    destruct (byte c =? 224) eqn:Hlow.
    - rewrite Z.lor_comm. apply lor_above.
      + apply shiftl_nonneg, land_nonneg_r. lia.
      + apply Z.leb_le, second3_above.
        destruct (byte c =? 237); [revert Hsecond; each_byte b1 | exact Hsecond].
    - apply lor_above; [apply shiftl_nonneg, low6_nonneg |].
      apply Z.leb_le, lead3_above; assumption. }
  destruct ((240 <=? byte c) && (byte c <=? 244)) eqn:Hfour;
    [| split; [apply Herror | cbn; lia]].
  destruct s as [| b1 [| b2 [| b3 s3]]]; try (split; [apply Herror | cbn; lia]).
  destruct (utf8.cont _ _ b1 && utf8.cont 128 191 b2 && utf8.cont 128 191 b3)
    eqn:Hcont; [| split; [apply Herror | cbn; lia]].
  cbn [fst snd]. split; [| lia].
  apply lor_above; [apply low6_nonneg |].
  apply lor_above; [apply shiftl_nonneg, low6_nonneg |].
  apply andb_prop in Hcont as [Hcont _]. apply andb_prop in Hcont as [Hsecond _].
  destruct (byte c =? 240) eqn:Hlow.
  - rewrite Z.lor_comm. apply lor_above.
    + apply shiftl_nonneg, land_nonneg_r. lia.
    + apply Z.leb_le, second4_above.
      destruct (byte c =? 244); [revert Hsecond; each_byte b1 | exact Hsecond].
  - apply lor_above; [apply shiftl_nonneg, low6_nonneg |].
    apply Z.leb_le, lead4_above; assumption.
Qed.
Lemma indexFuncLoop_not_ascii (fuel : nat) : forall (s : string) (i : Z),
  (String.length s <= fuel)%nat -> 0 <= i ->
  (strings.indexFuncLoop (fun r => r >? unicode.MaxASCII) fuel i s =? -1)
  = strings.isASCII s.
Proof.
  induction fuel as [| fuel IH]; intros [| c s] i Hfuel Hi;
    try reflexivity; [cbn in Hfuel; lia |].
  cbn [strings.indexFuncLoop]. unfold strings.isASCII. cbn [sforall].
  unfold utf8.RuneSelf.
  destruct (byte c <? 128) eqn:Hc.
  - rewrite DecodeRune_ascii by lia. unfold unicode.MaxASCII.
    destruct (byte c >? 127) eqn:Habove; [lia |].
    cbn [skip andb]. apply IH; [cbn in Hfuel; lia | lia].
  - destruct (DecodeRune_not_ascii c s) as [Hrune _]; [lia |].
    destruct (utf8.DecodeRuneInString (String c s)) as [r size].
    cbn [fst] in Hrune. unfold unicode.MaxASCII.
    destruct (r >? 127) eqn:Habove; [| lia].
    cbn [andb]. lia.
Qed.

Lemma isAsciiOnly_isASCII (s : string) : isAsciiOnly s = strings.isASCII s.
Proof.
  unfold isAsciiOnly, strings.IndexFunc.
  apply indexFuncLoop_not_ascii; [reflexivity | lia].
Qed.

(** X12.  [isAsciiOnly] scans the runes of the string, an invalid byte counting
    as U+FFFD; the string passes exactly when each of its bytes is below
    128. *)
Theorem isAsciiOnly_tests_every_byte (s : string) :
  isAsciiOnly s = sforall (fun c => byte c <? 128) s.
Proof.
  unfold isAsciiOnly, strings.IndexFunc.
  change (sforall (fun c => byte c <? 128) s) with (strings.isASCII s).
  apply indexFuncLoop_not_ascii; [reflexivity | lia].
Qed.

(** Case mapping of bytes. *)
Lemma lowerByte_upperByte (c : ascii) :
  strings.lowerByte (strings.upperByte c) = strings.lowerByte c.
Proof. each_byte c. Qed.

Lemma upperByte_lowerByte (c : ascii) :
  strings.upperByte (strings.lowerByte c) = strings.upperByte c.
Proof. each_byte c. Qed.

Lemma lowerByte_idempotent (c : ascii) :
  strings.lowerByte (strings.lowerByte c) = strings.lowerByte c.
Proof. each_byte c. Qed.


Lemma lowerByte_ascii (c : ascii) :
  (byte (strings.lowerByte c) <? utf8.RuneSelf) = (byte c <? utf8.RuneSelf).
Proof. each_byte c. Qed.

Lemma upperByte_ascii (c : ascii) :
  (byte (strings.upperByte c) <? utf8.RuneSelf) = (byte c <? utf8.RuneSelf).
Proof. each_byte c. Qed.

Lemma lowerByte_space (c : ascii) :
  isSpaceByte (strings.lowerByte c) = isSpaceByte c.
Proof. each_byte c. Qed.

Lemma upperByte_space (c : ascii) :
  isSpaceByte (strings.upperByte c) = isSpaceByte c.
Proof. each_byte c. Qed.

Lemma smap_smap f g (s : string) : smap f (smap g s) = smap (fun c => f (g c)) s.
Proof.
  induction s as [| c s IH]; [reflexivity |]. cbn. rewrite IH. reflexivity.
Qed.

Lemma smap_ext f g (s : string) : (forall c, f c = g c) -> smap f s = smap g s.
Proof.
  intros Hfg. induction s as [| c s IH]; [reflexivity |].
  cbn. rewrite Hfg, IH. reflexivity.
Qed.

Lemma isASCII_lower (s : string) :
  strings.isASCII (smap strings.lowerByte s) = strings.isASCII s.
Proof. apply sforall_smap. intros c. apply lowerByte_ascii. Qed.

Lemma isASCII_upper (s : string) :
  strings.isASCII (smap strings.upperByte s) = strings.isASCII s.
Proof. apply sforall_smap. intros c. apply upperByte_ascii. Qed.

Section Ascii.
Context `{CaseTables}.

Lemma ToLower_bytes (s : string) :
  strings.isASCII s = true -> strings.ToLower s = smap strings.lowerByte s.
Proof. intros Hs. unfold strings.ToLower. rewrite Hs. reflexivity. Qed.

Lemma ToUpper_bytes (s : string) :
  strings.isASCII s = true -> strings.ToUpper s = smap strings.upperByte s.
Proof. intros Hs. unfold strings.ToUpper. rewrite Hs. reflexivity. Qed.

Lemma toTitle_ascii (s : string) :
  strings.isASCII s = true ->
  toTitle s = smap strings.upperByte (keep 1 s) ++ smap strings.lowerByte (skip 1 s).
Proof.
  intros Hs. unfold toTitle.
  rewrite ToUpper_bytes by (apply sforall_keep; exact Hs).
  rewrite ToLower_bytes by (apply sforall_skip; exact Hs).
  reflexivity.
Qed.

Lemma toTitle_isASCII (s : string) :
  strings.isASCII s = true -> strings.isASCII (toTitle s) = true.
Proof.
  intros Hs. rewrite toTitle_ascii by exact Hs. unfold strings.isASCII.
  rewrite sforall_app. apply andb_true_intro. split.
  - fold (strings.isASCII (smap strings.upperByte (keep 1 s))).
    rewrite isASCII_upper. apply sforall_keep. exact Hs.
  - fold (strings.isASCII (smap strings.lowerByte (skip 1 s))).
    rewrite isASCII_lower. apply sforall_skip. exact Hs.
Qed.

Lemma ToLower_toTitle (s : string) :
  strings.isASCII s = true -> strings.ToLower (toTitle s) = strings.ToLower s.
Proof.
  intros Hs. rewrite (ToLower_bytes (toTitle s)) by (apply toTitle_isASCII, Hs).
  rewrite (ToLower_bytes s) by exact Hs. rewrite toTitle_ascii by exact Hs.
  rewrite smap_app, !smap_smap.
  rewrite (smap_ext _ strings.lowerByte) by apply lowerByte_upperByte.
  rewrite (smap_ext (fun c => strings.lowerByte (strings.lowerByte c))
                    strings.lowerByte) by apply lowerByte_idempotent.
  rewrite <- smap_app, keep_skip. reflexivity.
Qed.


End Ascii.

(** ** Trimming *)

Lemma trimLeftLoop_ascii f (fuel : nat) : forall s : string,
  strings.isASCII s = true -> (String.length s <= fuel)%nat ->
  strings.trimLeftLoop f fuel s = dropWhileByte (fun c => f (byte c)) s.
Proof.
  induction fuel as [| fuel IH]; intros [| c s] Hs Hfuel; try reflexivity;
    [cbn in Hfuel; lia |].
  unfold strings.isASCII in Hs. cbn [sforall] in Hs.
  apply andb_prop in Hs as [Hc Hs]. unfold utf8.RuneSelf in Hc.
  cbn [strings.trimLeftLoop dropWhileByte].
  rewrite DecodeRune_ascii by lia.
  destruct (f (byte c)); [| reflexivity].
  cbn [skip]. apply IH; [exact Hs | cbn in Hfuel; lia].
Qed.

Lemma trimRightLoop_ascii f (fuel : nat) : forall r : string,
  strings.isASCII r = true -> (String.length r <= fuel)%nat ->
  strings.trimRightLoop f fuel r = dropWhileByte (fun c => f (byte c)) r.
Proof.
  induction fuel as [| fuel IH]; intros [| c r] Hr Hfuel; try reflexivity;
    [cbn in Hfuel; lia |].
  unfold strings.isASCII in Hr. cbn [sforall] in Hr.
  apply andb_prop in Hr as [Hc Hr]. unfold utf8.RuneSelf in Hc.
  cbn [strings.trimRightLoop dropWhileByte utf8.DecodeLastRuneInReversed].
  rewrite Hc.
  destruct (f (byte c)); [| reflexivity].
  cbn [skip]. apply IH; [exact Hr | cbn in Hfuel; lia].
Qed.

Lemma dropWhileByte_length f (s : string) :
  (String.length (dropWhileByte f s) <= String.length s)%nat.
Proof.
  induction s as [| c s IH]; [reflexivity |].
  cbn [dropWhileByte]. destruct (f c); cbn [String.length]; lia.
Qed.

Lemma TrimFunc_ascii f (s : string) :
  strings.isASCII s = true ->
  strings.TrimFunc s f = trimBytes (fun c => f (byte c)) s.
Proof.
  intros Hs. unfold strings.TrimFunc, strings.TrimRightFunc, strings.TrimLeftFunc.
  rewrite (trimLeftLoop_ascii f _ s Hs) by reflexivity.
  unfold trimBytes. f_equal. apply trimRightLoop_ascii.
  - unfold strings.isASCII. rewrite sforall_srev.
    apply sforall_dropWhileByte. exact Hs.
  - rewrite srev_length. reflexivity.
Qed.

Lemma TrimSpace_bytes (s : string) :
  strings.isASCII s = true -> strings.TrimSpace s = trimBytes isSpaceByte s.
Proof. apply TrimFunc_ascii. Qed.

Lemma dropWhileByte_smap f g (s : string) :
  (forall c, f (g c) = f c) ->
  dropWhileByte f (smap g s) = smap g (dropWhileByte f s).
Proof.
  intros Hfg. induction s as [| c s IH]; [reflexivity |].
  cbn [smap dropWhileByte]. rewrite Hfg. destruct (f c); [exact IH | reflexivity].
Qed.

Lemma trimBytes_smap f g (s : string) :
  (forall c, f (g c) = f c) -> trimBytes f (smap g s) = smap g (trimBytes f s).
Proof.
  intros Hfg. unfold trimBytes.
  rewrite dropWhileByte_smap, <- smap_srev, dropWhileByte_smap, smap_srev
    by exact Hfg.
  reflexivity.
Qed.

Lemma isASCII_trimBytes f (s : string) :
  strings.isASCII s = true -> strings.isASCII (trimBytes f s) = true.
Proof.
  intros Hs. unfold trimBytes, strings.isASCII.
  rewrite sforall_srev. apply sforall_dropWhileByte.
  rewrite sforall_srev. apply sforall_dropWhileByte. exact Hs.
Qed.

Lemma dropWhileByte_idempotent f (s : string) :
  dropWhileByte f (dropWhileByte f s) = dropWhileByte f s.
Proof.
  induction s as [| c s IH]; [reflexivity |].
  cbn [dropWhileByte]. destruct (f c) eqn:Hc; [exact IH |].
  cbn [dropWhileByte]. rewrite Hc. reflexivity.
Qed.

(** What is left of a string that starts with a byte outside [f], once
    the bytes of [f] at its end are dropped, starts with that byte. *)
Lemma dropWhileByte_srev_head f (c : ascii) (s : string) :
  f c = false ->
  exists t, srev (dropWhileByte f (srev (String c s))) = String c t.
Proof.
  intros Hc. rewrite srev_cons.
  induction (srev s) as [| d r IH].
  - cbn [String.append dropWhileByte]. rewrite append_empty_l.
    cbn [dropWhileByte]. rewrite Hc. exists "". reflexivity.
  - rewrite append_cons. cbn [dropWhileByte]. destruct (f d); [exact IH |].
    rewrite <- append_cons, srev_app.
    change (srev (String c "")) with (String c ""). rewrite append_cons.
    eexists. reflexivity.
Qed.

Lemma trimBytes_idempotent f (s : string) :
  trimBytes f (trimBytes f s) = trimBytes f s.
Proof.
  unfold trimBytes at 2 3.
  destruct (dropWhileByte f s) as [| c t] eqn:Hleft; [reflexivity |].
  assert (f c = false) as Hc.
  { clear -Hleft. induction s as [| d s IH]; [discriminate |].
    cbn [dropWhileByte] in Hleft. destruct (f d) eqn:Hd; [exact (IH Hleft) |].
    injection Hleft as <- _. exact Hd. }
  destruct (dropWhileByte_srev_head f c t Hc) as [u Hu].
  unfold trimBytes. rewrite Hu. cbn [dropWhileByte]. rewrite Hc.
  rewrite <- Hu, srev_involutive, dropWhileByte_idempotent. reflexivity.
Qed.
(** ** Pieces of a string *)

Lemma skip_skip (n m : nat) : forall s, skip n (skip m s) = skip (m + n) s.
Proof.
  induction m as [| m IH]; intros s; [reflexivity |].
  destruct s as [| c s]; [destruct n; reflexivity |]. cbn [skip Nat.add]. apply IH.
Qed.

Lemma trimLeftLoop_skip f (fuel : nat) : forall s,
  exists n, strings.trimLeftLoop f fuel s = skip n s.
Proof.
  induction fuel as [| fuel IH]; intros s; [exists 0%nat; destruct s; reflexivity |].
  destruct s as [| c s]; [exists 0%nat; reflexivity |].
  cbn [strings.trimLeftLoop].
  destruct (utf8.DecodeRuneInString (String c s)) as [r size].
  destruct (f r); [| exists 0%nat; reflexivity].
  destruct (IH (skip size (String c s))) as [n Hn].
  exists (size + n)%nat. rewrite Hn. apply skip_skip.
Qed.

Lemma trimRightLoop_skip f (fuel : nat) : forall r,
  exists n, strings.trimRightLoop f fuel r = skip n r.
Proof.
  induction fuel as [| fuel IH]; intros r; [exists 0%nat; destruct r; reflexivity |].
  destruct r as [| c r]; [exists 0%nat; reflexivity |].
  cbn [strings.trimRightLoop].
  destruct (utf8.DecodeLastRuneInReversed (String c r)) as [rn size].
  destruct (f rn); [| exists 0%nat; reflexivity].
  destruct (IH (skip size (String c r))) as [n Hn].
  exists (size + n)%nat. rewrite Hn. apply skip_skip.
Qed.

Lemma occurrences_app c (s t : string) :
  occurrences c (s ++ t) = (occurrences c s + occurrences c t)%nat.
Proof.
  induction s as [| d s IH]; [reflexivity |].
  rewrite append_cons. cbn [occurrences]. rewrite IH. lia.
Qed.

Lemma occurrences_srev c (s : string) : occurrences c (srev s) = occurrences c s.
Proof.
  induction s as [| d s IH]; [reflexivity |].
  rewrite srev_cons, occurrences_app, IH. cbn [occurrences]. lia.
Qed.

Lemma occurrences_skip c (n : nat) : forall s,
  (occurrences c (skip n s) <= occurrences c s)%nat.
Proof.
  induction n as [| n IH]; intros [| d s]; try reflexivity.
  cbn [skip occurrences]. specialize (IH s). lia.
Qed.

Lemma occurrences_TrimFunc c f (s : string) :
  (occurrences c (strings.TrimFunc s f) <= occurrences c s)%nat.
Proof.
  unfold strings.TrimFunc, strings.TrimRightFunc, strings.TrimLeftFunc.
  destruct (trimLeftLoop_skip f (String.length s) s) as [n ->].
  destruct (trimRightLoop_skip f (String.length (skip n s)) (srev (skip n s)))
    as [m ->].
  rewrite occurrences_srev.
  etransitivity; [apply occurrences_skip |].
  rewrite occurrences_srev. apply occurrences_skip.
Qed.

Lemma beforeByte_none c (s : string) : occurrences c (beforeByte c s) = 0%nat.
Proof.
  induction s as [| d s IH]; [reflexivity |].
  cbn [beforeByte]. destruct (Ascii.eqb c d) eqn:Hd; [reflexivity |].
  cbn [occurrences]. rewrite Hd, IH. reflexivity.
Qed.

Lemma beforeByte_all c (s : string) :
  occurrences c s = 0%nat -> beforeByte c s = s.
Proof.
  induction s as [| d s IH]; [reflexivity |].
  cbn [beforeByte occurrences]. destruct (Ascii.eqb c d); [discriminate |].
  intros Hs. rewrite IH by exact Hs. reflexivity.
Qed.

Lemma splitLoop_first c (s : string) : forall cur,
  hd "" (strings.splitLoop (String c "") 0 cur s) = srev cur ++ beforeByte c s.
Proof.
  induction s as [| d s IH]; intros cur.
  - cbn. rewrite append_empty_r. reflexivity.
  - cbn [strings.splitLoop strings.HasPrefix beforeByte].
    rewrite HasPrefix_empty, andb_true_r.
    destruct (Ascii.eqb c d); cbn [hd].
    + rewrite append_empty_r. reflexivity.
    + rewrite IH, srev_cons, append_assoc. reflexivity.
Qed.

Lemma Split_comma_first (s : string) :
  exists pieces, strings.Split s "," = beforeByte "," s :: pieces.
Proof.
  pose proof (splitLoop_first "," s "") as Hfirst.
  pose proof (Split_comma_length s) as Hlen.
  change (strings.Split s ",") with (strings.splitLoop "," 0 "" s) in *.
  destruct (strings.splitLoop "," 0 "" s) as [| first pieces];
    [discriminate |].
  cbn [hd] in Hfirst. rewrite Hfirst. exists pieces. reflexivity.
Qed.

Lemma extractBrand_before_comma brands :
  extractBrand brands
  = strings.TrimSpace (beforeByte "," (strings.TrimSpace brands)).
Proof.
  unfold extractBrand. cbv zeta.
  destruct (Split_comma_first (strings.TrimSpace brands)) as [pieces ->].
  reflexivity.
Qed.

(** X14.  [extractBrand] gives the first of the brands: what stands before the
    first comma of the text, trimmed of the white space at its ends.  It
    holds no comma, and for an ASCII text without a comma it is the text
    trimmed. *)
Theorem extractBrand_is_the_first_brand brands :
  extractBrand brands
  = strings.TrimSpace (beforeByte "," (strings.TrimSpace brands))
  /\ occurrences "," (extractBrand brands) = 0%nat
  /\ (occurrences "," brands = 0%nat -> isAsciiOnly brands = true ->
      extractBrand brands = strings.TrimSpace brands).
Proof.
  split; [apply extractBrand_before_comma |]. split.
  - rewrite extractBrand_before_comma.
    pose proof (occurrences_TrimFunc "," unicode.IsSpace
                  (beforeByte "," (strings.TrimSpace brands))) as Hle.
    rewrite beforeByte_none in Hle. unfold strings.TrimSpace at 1. lia.
  - intros Hnone Hascii. rewrite isAsciiOnly_isASCII in Hascii.
    rewrite extractBrand_before_comma.
    rewrite beforeByte_all.
    + rewrite (TrimSpace_bytes brands Hascii).
      rewrite TrimSpace_bytes by (apply isASCII_trimBytes, Hascii).
      apply trimBytes_idempotent.
    + pose proof (occurrences_TrimFunc "," unicode.IsSpace brands) as Hle.
      unfold strings.TrimSpace. lia.
Qed.

Lemma extractBrand_is_the_first_brand_witness :
  occurrences "," " Acme " = 0%nat /\ isAsciiOnly " Acme " = true
  /\ extractBrand " Acme " = strings.TrimSpace " Acme "
  /\ extractBrand " Acme , Other" = "Acme".
Proof.
  split; [reflexivity |]. split; [reflexivity |].
  split; [| reflexivity].
  apply (extractBrand_is_the_first_brand " Acme "); reflexivity.
Defined.
(** ** Patterns that start with a given byte *)

Lemma keep_prefix (n : nat) (s : string) : exists rest, s = keep n s ++ rest.
Proof. exists (skip n s). symmetry. apply keep_skip. Qed.

Lemma searchFrom_none re (s : string) (tries : nat) : forall start,
  (forall p, regexp.matchAt re s p = None) ->
  regexp.searchFrom re s tries start = None.
Proof.
  induction tries as [| tries IH]; intros start Hnone;
    cbn [regexp.searchFrom]; rewrite Hnone; [reflexivity | apply IH, Hnone].
Qed.

Lemma FindAll_none re (s : string) :
  (forall p, regexp.matchAt re s p = None) -> regexp.FindAll re s = [].
Proof.
  intros Hnone. unfold regexp.FindAll. cbn [regexp.allMatches].
  destruct (String.length s <? 0)%nat; [reflexivity |].
  unfold regexp.doExecute. rewrite searchFrom_none by exact Hnone. reflexivity.
Qed.

Lemma head_of_skip c (n : nat) : forall s d t,
  occurrences c s = 0%nat -> skip n s = String d t -> Ascii.eqb c d = false.
Proof.
  induction n as [| n IH]; intros [| e s] d t Hnone Hskip; try discriminate.
  - cbn [skip] in Hskip. injection Hskip as -> ->. cbn [occurrences] in Hnone.
    destruct (Ascii.eqb c d); [discriminate | reflexivity].
  - cbn [skip] in Hskip. cbn [occurrences] in Hnone.
    apply (IH s d t); [lia | exact Hskip].
Qed.

(** A pattern that starts with the literal byte [c] matches nowhere in a
    string without that byte. *)
Lemma matchAt_first_byte re c (f : ascii -> bool) (r : regexp.regex) (s : string) :
  regexp.expr re = regexp.Seq (regexp.Chr f) r ->
  (forall d, f d = true -> Ascii.eqb c d = true) ->
  occurrences c s = 0%nat ->
  forall p, regexp.matchAt re s p = None.
Proof.
  intros Hexpr Hf Hnone p. unfold regexp.matchAt. rewrite Hexpr.
  cbn [regexp.run regexp.rest].
  destruct (skip p s) as [| d t] eqn:Hskip; [reflexivity |].
  pose proof (head_of_skip c p s d t Hnone Hskip) as Hd.
  destruct (f d) eqn:Hfd; [| reflexivity].
  apply Hf in Hfd. congruence.
Qed.

Lemma parenthesized_starts_with_paren :
  exists f r,
    regexp.expr (regexp.MustCompile "\([^()]*\)")
    = regexp.Seq (regexp.Chr f) r
    /\ forall d, f d = true -> Ascii.eqb "(" d = true.
Proof.
  eexists. eexists. split; [vm_compute; reflexivity |].
  intros d. each_byte d.
Qed.

(** X15.  [removeNestedParentheses] cuts the text: what it returns is the
    start of the text, and the whole of a text without an opening
    parenthesis. *)
Theorem removeNestedParentheses_cuts_the_text input :
  (exists rest, input = removeNestedParentheses input ++ rest)
  /\ (String.length (removeNestedParentheses input) <= String.length input)%nat
  /\ (occurrences "(" input = 0%nat -> removeNestedParentheses input = input).
Proof.
  assert (exists rest, input = removeNestedParentheses input ++ rest) as Hcut.
  { unfold removeNestedParentheses. cbv zeta.
    destruct (1 <? length _)%nat; [| exists ""; symmetry; apply append_empty_r].
    destruct (regexp.FindAllStringIndex _ input) as [| [a e] matches];
      [exists ""; symmetry; apply append_empty_r | apply keep_prefix]. }
  split; [exact Hcut |]. split.
  - destruct Hcut as [rest Hrest]. rewrite Hrest at 2. rewrite length_append. lia.
  - intros Hnone. unfold removeNestedParentheses. cbv zeta.
    destruct parenthesized_starts_with_paren as (f & r & Hexpr & Hf).
    unfold regexp.FindAllStringIndex.
    rewrite FindAll_none; [reflexivity |].
    apply (matchAt_first_byte _ "(" f r); assumption.
Qed.

Lemma removeNestedParentheses_cuts_the_text_witness :
  occurrences "(" "2 cups" = 0%nat
  /\ removeNestedParentheses "2 cups" = "2 cups"
  /\ removeNestedParentheses "1 cup (240 ml) (2 servings)" = "1 cup (240 ml)".
Proof.
  split; [reflexivity |]. split; [| vm_compute; reflexivity].
  apply (removeNestedParentheses_cuts_the_text "2 cups"). reflexivity.
Defined.

(** ** The serving sizes *)

Section Servings.
Context `{CaseTables}.

Ltac split_keys Hkeys :=
  repeat match type of Hkeys with
  | Forall _ (_ :: _) =>
    let Hkey := fresh "Hkey" in
    apply Forall_cons_1 in Hkeys as [Hkey Hkeys]
  | Forall2 _ (_ :: _) (_ :: _) =>
    let Hkey := fresh "Hkey" in
    apply Forall2_cons_1 in Hkeys as [Hkey Hkeys]
  end.

Ltac read_keys :=
  repeat match goal with
  | Hkey : _ !! _ = _ !! _ |- _ => rewrite Hkey; clear Hkey
  end.

Lemma per100gServing_agree (m1 m2 : gmap string jsonValue) :
  Forall (fun key => m1 !! key = m2 !! key) per100gKeys ->
  per100gServing m1 = per100gServing m2.
Proof.
  unfold per100gKeys. intros Hkeys. split_keys Hkeys.
  unfold per100gServing, mapNutrient. cbn [mapNutrientWrites].
  read_keys. reflexivity.
Qed.

Lemma describedServing_agree (m1 m2 : gmap string jsonValue) u t q w :
  Forall (fun key => m1 !! key = m2 !! key) servingKeys ->
  describedServing m1 u t q w = describedServing m2 u t q w.
Proof.
  unfold servingKeys. intros Hkeys. split_keys Hkeys.
  unfold describedServing, mapNutrient. cbn [mapNutrientWrites].
  read_keys. reflexivity.
Qed.

Lemma describedServing_mirrors (m100 msv : gmap string jsonValue) :
  Forall2 (fun key100 keysv => m100 !! key100 = msv !! keysv)
          per100gKeys servingKeys ->
  describedServing msv "g" 1 100 100 = per100gServing m100.
Proof.
  unfold per100gKeys, servingKeys. intros Hkeys. split_keys Hkeys.
  unfold describedServing, per100gServing, mapNutrient.
  cbn [mapNutrientWrites]. read_keys. reflexivity.
Qed.

End Servings.
Section Servings2.
Context `{CaseTables}.

(** X7.  The serving sizes of an accepted record are read from seventy keys of
    the nutrient map and from the description: two records that agree on
    them have the same serving sizes, whatever else their maps hold. *)
Theorem only_the_listed_nutrient_keys_are_read
  order order' h h' product product' item item' :
  snd (ProcessProduct order h product) = (Some item, None) ->
  snd (ProcessProduct order' h' product') = (Some item', None) ->
  RawServingSize product = RawServingSize product' ->
  Forall (fun key => Nutriments product !! key = Nutriments product' !! key)
         (per100gKeys ++ servingKeys)%list ->
  ServingSizes item = ServingSizes item'.
Proof.
  intros Hrun Hrun' Htext Hkeys.
  rewrite (accepted_servingSizes _ _ _ _ Hrun).
  rewrite (accepted_servingSizes _ _ _ _ Hrun').
  apply Forall_app in Hkeys as [H100 Hsv].
  unfold servingSizesOf. cbv zeta. rewrite <- Htext.
  rewrite (per100gServing_agree _ _ H100). f_equal.
  destruct (negb (String.eqb (RawServingSize product) "")); [| reflexivity].
  unfold describedServings.
  destruct (resolveServing (RawServingSize product)) as [[[[u t] q] w] |];
    [| reflexivity].
  rewrite (describedServing_agree _ _ _ _ _ _ Hsv). reflexivity.
Qed.

(** X8.  The two blocks of [mapNutrient] calls agree: a described serving size
    is read from the keys ending in [_serving] as the one for 100 g is from
    the keys ending in [_100g], nutrient by nutrient, with the same unit
    conversion and the same calorie rule. *)
Theorem described_serving_is_read_like_the_one_for_100g
  (nutriments100g nutrimentsServing : gmap string jsonValue) u t q w :
  Forall2 (fun key100g keyServing =>
             nutriments100g !! key100g = nutrimentsServing !! keyServing)
          per100gKeys servingKeys ->
  Forall (fun field : ServingSize -> float =>
            field (describedServing nutrimentsServing u t q w)
            = field (per100gServing nutriments100g)) nutrientFields
  /\ map (fun key => strings.TrimSuffix key "_100g") per100gKeys
     = map (fun key => strings.TrimSuffix key "_serving") servingKeys.
Proof.
  intros Hkeys. split; [| vm_compute; reflexivity].
  rewrite <- (describedServing_mirrors _ _ Hkeys).
  unfold nutrientFields. repeat (constructor; [reflexivity |]). constructor.
Qed.

Lemma servingTypeOf_follows q u w : typeFollowsLabel (q, u, w, servingTypeOf u).
Proof.
  unfold typeFollowsLabel, servingTypeOf. cbv zeta.
  destruct (isMetricUnit (strings.ToLower u)).
  - split; [left; reflexivity |]. split; [reflexivity | discriminate].
  - destruct (isImperialUnit (strings.ToLower u)).
    + split; [right; left; reflexivity |].
      split; [discriminate | split; reflexivity].
    + split; [right; right; reflexivity |]. split; discriminate.
Qed.

Lemma other_follows q u w : typeFollowsLabel (q, u, w, 3).
Proof.
  unfold typeFollowsLabel. cbv zeta.
  split; [right; right; reflexivity |]. split; discriminate.
Qed.

Lemma firstMatch_follows patterns text :
  Forall (fun pattern : regexp.Regexp * (list string -> parsed) =>
            forall matches, typeFollowsLabel (snd pattern matches)) patterns ->
  typeFollowsLabel (firstMatch patterns text).
Proof.
  induction patterns as [| [re handler] patterns IH]; intros Hall.
  - apply other_follows.
  - apply Forall_cons_1 in Hall as [Hhandler Hall]. cbn [firstMatch].
    destruct (regexp.FindStringSubmatch re text) as [matches |];
      [apply Hhandler | apply IH, Hall].
Qed.

Lemma laterPatterns_follow :
  Forall (fun pattern : regexp.Regexp * (list string -> parsed) =>
            forall matches, typeFollowsLabel (snd pattern matches))
         laterPatterns.
Proof.
  unfold laterPatterns.
  repeat (constructor;
          [intros matches; cbn [snd];
           first [apply servingTypeOf_follows | apply other_follows] |]).
  constructor.
Qed.

Lemma parsed_type_follows_label text :
  typeFollowsLabel (parseServingSize text).
Proof.
  unfold parseServingSize. cbv zeta.
  destruct (regexp.FindStringSubmatch reBareWeight (cleanServingSize text))
    as [matches |]; [| apply firstMatch_follows, laterPatterns_follow].
  unfold onBareWeight. cbv zeta.
  destruct (strconv.ParseFloat (group matches 1)) as [weightQty [err |]];
    [apply other_follows |].
  destruct (PrimFloat.eqb _ _ || _); [apply other_follows |].
  apply firstMatch_follows, laterPatterns_follow.
Qed.

(** X9.  Whatever the description, [parseServingSize] returns 1, 2 or 3 for
    the serving type: 1 only with a unit label that is a metric unit in
    lower case, 2 only with one that is an imperial unit and no metric
    one. *)
Theorem serving_type_follows_the_label text :
  typeFollowsLabel (parseServingSize text).
Proof.
  unfold parseServingSize. cbv zeta.
  destruct (regexp.FindStringSubmatch reBareWeight (cleanServingSize text))
    as [matches |]; [| apply firstMatch_follows, laterPatterns_follow].
  unfold onBareWeight. cbv zeta.
  destruct (strconv.ParseFloat (group matches 1)) as [weightQty [err |]];
    [apply other_follows |].
  destruct (PrimFloat.eqb _ _ || _); [apply other_follows |].
  apply firstMatch_follows, laterPatterns_follow.
Qed.

Lemma ToLower_empty : strings.ToLower "" = "".
Proof. reflexivity. Qed.

Lemma resolveServing_inv description u' t q w' :
  resolveServing description = Some (u', t, q, w') ->
  exists u w,
    parseServingSize description = (q, u, w, t)
    /\ PrimFloat.ltb 0 q = true
    /\ w' = (if PrimFloat.eqb w 0 then convertToGrams q u else w)
    /\ PrimFloat.eqb w' 100 = false
    /\ u' = (if (1 <? String.length u)%nat && isAsciiOnly u
             then toTitle u else u)
    /\ existsb (String.eqb (strings.ToLower u)) skippedLabels = false.
Proof.
  unfold resolveServing.
  destruct (parseServingSize description) as [[[q0 u] w] t0]. cbv zeta.
  destruct (negb _ && PrimFloat.ltb 0 q0 && negb _) eqn:Hkeep; [| discriminate].
  apply andb_prop in Hkeep as [Hkeep Hweight].
  apply andb_prop in Hkeep as [Hskip Hquantity].
  apply negb_true_iff in Hweight, Hskip.
  intros Hsome. injection Hsome as <- <- <- <-.
  exists u, w. split; [reflexivity |]. split; [exact Hquantity |].
  rewrite Hquantity, andb_true_r in Hweight |- *.
  split; [reflexivity |]. split; [exact Hweight |]. split; [reflexivity |].
  unfold skippedLabels. cbn [existsb].
  repeat (apply orb_false_iff in Hskip as [Hskip ->]). rewrite Hskip.
  reflexivity.
Qed.

Lemma describedServing_header nutriments u t q w :
  MeasurementUnit (describedServing nutriments u t q w) = u
  /\ Type_ (describedServing nutriments u t q w) = t
  /\ Quantity (describedServing nutriments u t q w) = q
  /\ WeightInGrams (describedServing nutriments u t q w) = w.
Proof. repeat split; reflexivity. Qed.

Lemma servingSizesOf_first product i serving :
  servingSizesOf product !! i = Some serving ->
  (S i < length (servingSizesOf product))%nat ->
  i = 0%nat /\ length (servingSizesOf product) = 2%nat
  /\ RawServingSize product <> ""
  /\ exists u t q w,
       resolveServing (RawServingSize product) = Some (u, t, q, w)
       /\ serving = describedServing (Nutriments product) u t q w.
Proof.
  unfold servingSizesOf. cbv zeta.
  destruct (String.eqb (RawServingSize product) "") eqn:Htext; cbn [negb].
  { intros _ Hnotlast. cbn in Hnotlast. lia. }
  apply String.eqb_neq in Htext. unfold describedServings.
  destruct (resolveServing (RawServingSize product))
    as [[[[u t] q] w] |] eqn:Hresolve.
  2: { intros _ Hnotlast. cbn in Hnotlast. lia. }
  rewrite length_app. cbn [length]. intros Hserving Hnotlast.
  assert (i = 0%nat) as -> by lia.
  split; [reflexivity |]. split; [reflexivity |]. split; [exact Htext |].
  exists u, t, q, w. split; [reflexivity |].
  rewrite lookup_app_l in Hserving by (cbn; lia).
  apply list_lookup_singleton_Some in Hserving as [_ Hserving].
  symmetry. exact Hserving.
Qed.

(** X10.  A described serving size of an accepted record: it is the first of
    two serving sizes; its quantity is the parsed one and is above 0; its
    weight is the parsed one, or the quantity converted by the unit label
    when the parser found no weight, and is not 100; its label is the
    parsed one, in title case when it is ASCII and longer than one byte; in
    lower case the label is none of the empty label, 100g, 100 g, 100grams
    and 100 grams. *)
Theorem described_serving_is_kept_only_when_meaningful
  order h product item i serving :
  snd (ProcessProduct order h product) = (Some item, None) ->
  ServingSizes item !! i = Some serving ->
  (S i < length (ServingSizes item))%nat ->
  i = 0%nat /\ length (ServingSizes item) = 2%nat
  /\ RawServingSize product <> ""
  /\ exists measurementUnit weightInGrams,
       parseServingSize (RawServingSize product)
       = (Quantity serving, measurementUnit, weightInGrams, Type_ serving)
       /\ PrimFloat.ltb 0 (Quantity serving) = true
       /\ (Type_ serving = 1 \/ Type_ serving = 2 \/ Type_ serving = 3)
       /\ WeightInGrams serving
          = (if PrimFloat.eqb weightInGrams 0
             then convertToGrams (Quantity serving) measurementUnit
             else weightInGrams)
       /\ PrimFloat.eqb (WeightInGrams serving) 100 = false
       /\ MeasurementUnit serving
          = (if (1 <? String.length measurementUnit)%nat
                && isAsciiOnly measurementUnit
             then toTitle measurementUnit else measurementUnit)
       /\ strings.ToLower (MeasurementUnit serving)
          = strings.ToLower measurementUnit
       /\ existsb (String.eqb (strings.ToLower (MeasurementUnit serving)))
                  skippedLabels = false
       /\ MeasurementUnit serving <> "".
Proof.
  intros Hrun. rewrite (accepted_servingSizes _ _ _ _ Hrun).
  intros Hserving Hnotlast.
  destruct (servingSizesOf_first _ _ _ Hserving Hnotlast)
    as (Hi & Hlen & Htext & u' & t & q & w' & Hresolve & ->).
  split; [exact Hi |]. split; [exact Hlen |]. split; [exact Htext |].
  destruct (describedServing_header (Nutriments product) u' t q w')
    as (-> & -> & -> & ->).
  apply resolveServing_inv in Hresolve
    as (u & w & Hparse & Hquantity & Hw & Hweight & Hu & Hskip).
  exists u, w.
  pose proof (parsed_type_follows_label (RawServingSize product))
    as Htype.
  rewrite Hparse in Htype. destruct Htype as [Htype _].
  assert (strings.ToLower u' = strings.ToLower u) as Hlower.
  { rewrite Hu. destruct (1 <? String.length u)%nat; cbn [andb]; [| reflexivity].
    destruct (isAsciiOnly u) eqn:Hascii; [| reflexivity].
    apply ToLower_toTitle. rewrite <- isAsciiOnly_isASCII. exact Hascii. }
  split; [exact Hparse |]. split; [exact Hquantity |]. split; [exact Htype |].
  split; [exact Hw |]. split; [exact Hweight |]. split; [exact Hu |].
  split; [exact Hlower |]. split.
  - rewrite Hlower. exact Hskip.
  - intros Hempty. rewrite <- Hlower, Hempty in Hskip. discriminate.
Qed.

End Servings2.
Lemma only_the_listed_nutrient_keys_are_read_witness :
  let item := itemOf (ProcessProduct (H := plainTables) 0 breadStore bread) in
  let item' :=
    itemOf (ProcessProduct (H := plainTables) 0 breadStore breadWithMoreKeys) in
  snd (ProcessProduct (H := plainTables) 0 breadStore bread) = (Some item, None)
  /\ snd (ProcessProduct (H := plainTables) 0 breadStore breadWithMoreKeys)
     = (Some item', None)
  /\ RawServingSize bread = RawServingSize breadWithMoreKeys
  /\ Forall (fun key => Nutriments bread !! key
                        = Nutriments breadWithMoreKeys !! key)
            (per100gKeys ++ servingKeys)%list
  /\ Nutriments bread !! "salt_100g" <> Nutriments breadWithMoreKeys !! "salt_100g"
  /\ ServingSizes item = ServingSizes item'.
Proof.
  cbv zeta.
  assert (snd (ProcessProduct (H := plainTables) 0 breadStore bread)
          = (Some (itemOf (ProcessProduct (H := plainTables) 0 breadStore bread)),
             None)) as Hrun by run.
  assert (snd (ProcessProduct (H := plainTables) 0 breadStore breadWithMoreKeys)
          = (Some (itemOf (ProcessProduct (H := plainTables) 0 breadStore
                             breadWithMoreKeys)), None)) as Hrun' by run.
  assert (Forall (fun key => Nutriments bread !! key
                             = Nutriments breadWithMoreKeys !! key)
                 (per100gKeys ++ servingKeys)%list) as Hkeys.
  { unfold per100gKeys, servingKeys. cbn [app].
    repeat (constructor; [vm_compute; reflexivity |]). constructor. }
  split; [exact Hrun |]. split; [exact Hrun' |]. split; [reflexivity |].
  split; [exact Hkeys |]. split; [vm_compute; discriminate |].
  exact (only_the_listed_nutrient_keys_are_read (H := plainTables)
           0 0 breadStore breadStore bread breadWithMoreKeys _ _
           Hrun Hrun' eq_refl Hkeys).
Defined.

Lemma described_serving_is_read_like_the_one_for_100g_witness :
  let nutriments100g : gmap string jsonValue :=
    {[ "sodium_100g" := JNumber 2; "fat_100g" := JString "1.5" ]} in
  let nutrimentsServing : gmap string jsonValue :=
    {[ "sodium_serving" := JNumber 2; "fat_serving" := JString "1.5" ]} in
  Forall2 (fun key100g keyServing =>
             nutriments100g !! key100g = nutrimentsServing !! keyServing)
          per100gKeys servingKeys
  /\ Forall (fun field : ServingSize -> float =>
               field (describedServing nutrimentsServing "Cup" 3 1 240)
               = field (per100gServing nutriments100g)) nutrientFields
  /\ Sodium (per100gServing nutriments100g) = 2000%float.
Proof.
  cbv zeta.
  assert (Forall2 (fun key100g keyServing =>
             ({[ "sodium_100g" := JNumber 2; "fat_100g" := JString "1.5" ]}
                : gmap string jsonValue) !! key100g
             = ({[ "sodium_serving" := JNumber 2;
                   "fat_serving" := JString "1.5" ]}
                  : gmap string jsonValue) !! keyServing)
          per100gKeys servingKeys) as Hkeys.
  { unfold per100gKeys, servingKeys.
    repeat (constructor; [vm_compute; reflexivity |]). constructor. }
  split; [exact Hkeys |]. split; [| vm_compute; reflexivity].
  exact (proj1 (described_serving_is_read_like_the_one_for_100g
                  _ _ "Cup" 3 1%float 240%float Hkeys)).
Defined.

Lemma described_serving_is_kept_only_when_meaningful_witness :
  let item := itemOf (ProcessProduct (H := plainTables) 0 breadStore bread) in
  exists serving,
    snd (ProcessProduct (H := plainTables) 0 breadStore bread) = (Some item, None)
    /\ ServingSizes item !! 0%nat = Some serving
    /\ (1 < length (ServingSizes item))%nat
    /\ PrimFloat.ltb 0 (Quantity serving) = true
    /\ PrimFloat.eqb (WeightInGrams serving) 100 = false
    /\ MeasurementUnit serving = "Slices".
Proof.
  cbv zeta.
  assert (snd (ProcessProduct (H := plainTables) 0 breadStore bread)
          = (Some (itemOf (ProcessProduct (H := plainTables) 0 breadStore bread)),
             None)) as Hrun by run.
  eexists. split; [exact Hrun |].
  assert (ServingSizes (itemOf (ProcessProduct (H := plainTables) 0 breadStore
                                  bread)) !! 0%nat
          = Some (describedServing (Nutriments bread) "Slices" 3 2 57))
    as Hfirst by run.
  split; [exact Hfirst |].
  assert (1 < length (ServingSizes (itemOf (ProcessProduct (H := plainTables) 0
                                              breadStore bread))))%nat
    as Hnotlast by (vm_compute; lia).
  split; [exact Hnotlast |].
  destruct (described_serving_is_kept_only_when_meaningful (H := plainTables)
              0 breadStore bread _ 0%nat _ Hrun Hfirst Hnotlast)
    as (_ & _ & _ & u & w & _ & Hquantity & _ & _ & Hweight & _).
  split; [exact Hquantity |]. split; [exact Hweight | reflexivity].
Defined.
Section Units.
Context `{CaseTables}.

Ltac each_unit Hunit :=
  apply existsb_exists in Hunit as (known & Hin & Hunit);
  apply String.eqb_eq in Hunit; subst;
  cbn [In] in Hin;
  repeat (destruct Hin as [<- | Hin]; [| try contradiction]).

Lemma metric_units_convert quantity unit_ :
  isMetricUnit unit_ = true ->
  convertToGrams quantity unit_ = quantity
  \/ convertToGrams quantity unit_ = (quantity * 1000)%float.
Proof.
  unfold isMetricUnit. cbv zeta. intros Hunit. each_unit Hunit;
    first [left; reflexivity | right; reflexivity].
Qed.

Lemma imperial_units_convert quantity unit_ :
  isImperialUnit unit_ = true -> unit_ <> "fl oz" ->
  convertToGrams quantity unit_ = (quantity * 28.3495)%float
  \/ convertToGrams quantity unit_ = (quantity * 453.592)%float.
Proof.
  unfold isImperialUnit. cbv zeta. intros Hunit Hnot. each_unit Hunit;
    first [left; reflexivity | right; reflexivity | contradiction].
Qed.

Lemma metric_not_imperial unit_ :
  isMetricUnit unit_ && isImperialUnit unit_ = false.
Proof.
  destruct (isMetricUnit unit_) eqn:Hunit; [| reflexivity].
  unfold isMetricUnit in Hunit. cbv zeta in Hunit. each_unit Hunit; reflexivity.
Qed.

Lemma other_units_convert_to_zero quantity unit_ :
  isMetricUnit (strings.ToLower unit_) = false ->
  isImperialUnit (strings.ToLower unit_) = false ->
  existsb (String.eqb (strings.ToLower unit_))
          ["mg"; "milligram"; "milligrams"; "oz."] = false ->
  convertToGrams quantity unit_ = 0%float.
Proof.
  unfold convertToGrams, isMetricUnit, isImperialUnit. cbv zeta.
  generalize (strings.ToLower unit_) as u. intros u. cbn [existsb].
  intros Hmetric Himperial Hextra.
  repeat match goal with
  | Hor : _ || _ = false |- _ => apply orb_false_iff in Hor as [? ?]
  end.
  repeat match goal with
  | Heq : String.eqb u ?known = false |- _ => rewrite Heq; clear Heq
  end.
  reflexivity.
Qed.

(** X11.  The units [convertToGrams] knows against those [isMetricUnit] and
    [isImperialUnit] accept: a metric unit converts by 1 or by 1000; an
    imperial unit by 28.3495 or by 453.592, except [fl oz], which the
    converter does not know and gives the weight 0; no unit is both metric
    and imperial; and a unit that is neither converts to 0 unless it is one
    of mg, milligram, milligrams and oz. with a dot, in any case of the
    letters. *)
Theorem units_the_converter_knows quantity unit_ :
  (isMetricUnit unit_ = true ->
   convertToGrams quantity unit_ = quantity
   \/ convertToGrams quantity unit_ = (quantity * 1000)%float)
  /\ (isImperialUnit unit_ = true -> unit_ <> "fl oz" ->
      convertToGrams quantity unit_ = (quantity * 28.3495)%float
      \/ convertToGrams quantity unit_ = (quantity * 453.592)%float)
  /\ isImperialUnit "fl oz" = true
  /\ (strings.ToLower unit_ = "fl oz" -> convertToGrams quantity unit_ = 0%float)
  /\ isMetricUnit unit_ && isImperialUnit unit_ = false
  /\ (isMetricUnit (strings.ToLower unit_) = false ->
      isImperialUnit (strings.ToLower unit_) = false ->
      existsb (String.eqb (strings.ToLower unit_))
              ["mg"; "milligram"; "milligrams"; "oz."] = false ->
      convertToGrams quantity unit_ = 0%float).
Proof.
  split; [apply metric_units_convert |].
  split; [apply imperial_units_convert |].
  split; [reflexivity |].
  split; [intros Hlower; unfold convertToGrams; rewrite Hlower; reflexivity |].
  split; [apply metric_not_imperial | apply other_units_convert_to_zero].
Qed.

End Units.

Lemma units_the_converter_knows_witness :
  isMetricUnit "kg" = true
  /\ (convertToGrams (H := plainTables) 2 "kg" = 2%float
      \/ convertToGrams (H := plainTables) 2 "kg" = (2 * 1000)%float)
  /\ strings.ToLower (H := plainTables) "FL OZ" = "fl oz"
  /\ convertToGrams (H := plainTables) 8 "FL OZ" = 0%float.
Proof.
  split; [reflexivity |].
  split; [exact (proj1 (units_the_converter_knows (H := plainTables) 2 "kg")
                        eq_refl) |].
  split; [reflexivity |].
  exact (proj1 (proj2 (proj2 (proj2
           (units_the_converter_knows (H := plainTables) 8 "FL OZ")))) eq_refl).
Defined.

(** ** Normalizing twice *)

Section Normalize.
Context `{CaseTables}.

(** The key [normalizeAllergen] and [extractIngredientAllergen] look up. *)
Lemma allergen_key_ascii (raw : string) :
  strings.isASCII raw = true ->
  strings.ToUpper (strings.TrimSpace raw)
  = smap strings.upperByte (trimBytes isSpaceByte raw).
Proof.
  intros Hraw. rewrite TrimSpace_bytes by exact Hraw.
  apply ToUpper_bytes, isASCII_trimBytes, Hraw.
Qed.

Lemma allergen_key_lower (raw : string) :
  strings.isASCII raw = true ->
  strings.ToUpper (strings.TrimSpace (strings.ToLower raw))
  = strings.ToUpper (strings.TrimSpace raw).
Proof.
  intros Hraw. rewrite (ToLower_bytes raw Hraw).
  rewrite !allergen_key_ascii by (rewrite ?isASCII_lower; exact Hraw).
  rewrite trimBytes_smap by apply lowerByte_space.
  rewrite smap_smap. apply smap_ext, upperByte_lowerByte.
Qed.

Lemma ToLower_idempotent (raw : string) :
  strings.isASCII raw = true ->
  strings.ToLower (strings.ToLower raw) = strings.ToLower raw.
Proof.
  intros Hraw. rewrite (ToLower_bytes raw Hraw).
  rewrite ToLower_bytes by (rewrite isASCII_lower; exact Hraw).
  rewrite smap_smap. apply smap_ext, lowerByte_idempotent.
Qed.

Lemma canonical_fixed token :
  canonical token ->
  normalizeAllergen token = token /\ extractIngredientAllergen token = token.
Proof.
  intros [key Hkey].
  assert (map_Forall (fun _ token =>
            normalizeAllergen token = token
            /\ extractIngredientAllergen token = token) AllergenMap) as Hall.
  { apply (bool_decide_unpack _). vm_compute. exact I. }
  exact (Hall _ _ Hkey).
Qed.

Lemma normalizeAllergen_cases raw :
  (canonical (normalizeAllergen raw)
   /\ extractIngredientAllergen raw = normalizeAllergen raw)
  \/ (normalizeAllergen raw = strings.ToLower raw
      /\ extractIngredientAllergen raw = ""
      /\ AllergenMap !! strings.TrimPrefix
                          (strings.ToUpper (strings.TrimSpace raw)) "EN:"
         = None).
Proof.
  unfold normalizeAllergen, extractIngredientAllergen, canonical. cbv zeta.
  destruct (AllergenMap !! _) as [token |] eqn:Hkey.
  - left. split; [eexists; exact Hkey | reflexivity].
  - right. repeat split.
Qed.

Lemma normalizeAllergen_twice raw :
  strings.isASCII raw = true ->
  normalizeAllergen (normalizeAllergen raw) = normalizeAllergen raw.
Proof.
  intros Hraw.
  destruct (normalizeAllergen_cases raw) as [[Hcanonical _] | (Hlower & _ & Hkey)].
  - apply canonical_fixed, Hcanonical.
  - rewrite Hlower. unfold normalizeAllergen at 1. cbv zeta.
    rewrite allergen_key_lower by exact Hraw. rewrite Hkey.
    apply ToLower_idempotent, Hraw.
Qed.

(** X16.  [normalizeAllergen] gives a canonical token, on which it agrees with
    [extractIngredientAllergen], or the text in lower case, for which
    [extractIngredientAllergen] gives nothing.  A canonical token is
    normalized to itself, and normalizing an ASCII text once more changes
    nothing. *)
Theorem normalizing_an_allergen_again_changes_nothing raw :
  ((canonical (normalizeAllergen raw)
    /\ extractIngredientAllergen raw = normalizeAllergen raw)
   \/ (normalizeAllergen raw = strings.ToLower raw
       /\ extractIngredientAllergen raw = ""))
  /\ (canonical raw ->
      normalizeAllergen raw = raw /\ extractIngredientAllergen raw = raw)
  /\ (isAsciiOnly raw = true ->
      normalizeAllergen (normalizeAllergen raw) = normalizeAllergen raw).
Proof.
  split; [| split].
  - destruct (normalizeAllergen_cases raw) as [Hcase | (Hlower & Hnone & _)];
      [left; exact Hcase | right; split; assumption].
  - apply canonical_fixed.
  - rewrite isAsciiOnly_isASCII. apply normalizeAllergen_twice.
Qed.

Lemma mapSlice_length f s (a : list string) :
  (offset s + len s <= length a)%nat -> length (mapSlice f s a) = length a.
Proof.
  intros Hbound. unfold mapSlice.
  rewrite !length_app, length_map, !length_take, !length_drop. lia.
Qed.

Lemma mapSlice_twice f s (a : list string) :
  (offset s + len s <= length a)%nat ->
  Forall (fun x => f (f x) = f x) (take (len s) (drop (offset s) a)) ->
  mapSlice f s (mapSlice f s a) = mapSlice f s a.
Proof.
  intros Hbound Hfixed. unfold mapSlice at 1.
  assert (length (take (offset s) a) = offset s) as Hpre
    by (rewrite length_take; lia).
  assert (length (map f (take (len s) (drop (offset s) a))) = len s) as Hmid
    by (rewrite length_map, length_take, length_drop; lia).
  assert (take (offset s) (mapSlice f s a) = take (offset s) a) as ->.
  { unfold mapSlice. rewrite take_app_length'; [reflexivity | symmetry; exact Hpre]. }
  assert (drop (offset s) (mapSlice f s a)
          = map f (take (len s) (drop (offset s) a))
            ++ drop (offset s + len s) a)%list as Hdrop.
  { unfold mapSlice. rewrite drop_app_length'; [reflexivity | symmetry; exact Hpre]. }
  assert (take (len s) (drop (offset s) (mapSlice f s a))
          = map f (take (len s) (drop (offset s) a))) as ->.
  { rewrite Hdrop. rewrite take_app_length'; [reflexivity | symmetry; exact Hmid]. }
  assert (drop (offset s + len s) (mapSlice f s a) = drop (offset s + len s) a)
    as ->.
  { rewrite <- drop_drop, Hdrop. rewrite drop_app_length'; [reflexivity | symmetry; exact Hmid]. }
  unfold mapSlice. f_equal. f_equal.
  rewrite List.map_map. apply List.map_ext_Forall. exact Hfixed.
Qed.

(** X17.  A record whose allergen tags are ASCII can be processed again: the
    first run has normalized the tags in the caller's array, and a second
    run on the store the first one left changes nothing in it and returns
    the same item. *)
Theorem processing_again_changes_nothing order h product :
  inBounds h (AllergensTags product) ->
  len (AllergensTags product) <> 0%nat ->
  Forall (fun tag => isAsciiOnly tag = true)
         (elements h (AllergensTags product)) ->
  array (IngredientsTags product) <> array (AllergensTags product) ->
  let h' := fst (ProcessProduct order h product) in
  ProcessProduct order h' product = (h', snd (ProcessProduct order h product)).
Proof.
  intros (a & Ha & Hbound) Hlen Hascii Hapart. cbv zeta.
  destruct (String.eqb (ID product) "" || String.eqb (Code product) "")
    eqn:Hguard.
  { rewrite !(ProcessProduct_rejected _ _ _ Hguard). reflexivity. }
  remember (ProcessProduct order h product) as first eqn:Hfirst.
  rewrite (ProcessProduct_accepted _ _ _ Hguard) in Hfirst. subst first.
  cbn [fst snd].
  set (h' := fst (normalizedAllergens h product)).
  rewrite (ProcessProduct_accepted _ h' _ Hguard).
  pose proof (normalizedAllergens_array h product a Ha Hbound) as Ha'.
  fold h' in Ha'.
  assert (fst (normalizedAllergens h' product) = h') as Hstore.
  { apply map_eq. intros b.
    destruct (decide (b = array (AllergensTags product))) as [-> | Hb].
    - rewrite (normalizedAllergens_array h' product _ Ha')
        by (rewrite mapSlice_length; exact Hbound).
      rewrite Ha'. f_equal. apply mapSlice_twice; [exact Hbound |].
      unfold elements in Hascii. rewrite Ha in Hascii.
      cbn [default from_option id] in Hascii.
      eapply Forall_impl; [exact Hascii |]. intros tag Htag. cbn beta.
      apply normalizeAllergen_twice. rewrite <- isAsciiOnly_isASCII. exact Htag.
    - unfold normalizedAllergens. cbv zeta.
      apply Nat.eqb_neq in Hlen. rewrite Hlen. cbn [andb fst].
      apply normalizeInPlace_other. exact Hb. }
  rewrite Hstore.
  rewrite !(allergens_alias_the_tag_list _ _ Hlen).
  unfold ingredientAllergensOf.
  assert (elements h' (IngredientsTags product)
          = elements h (IngredientsTags product)) as Hsame; [| reflexivity].
  apply elements_unchanged. unfold h', normalizedAllergens. cbv zeta.
  apply Nat.eqb_neq in Hlen. rewrite Hlen. cbn [andb fst].
  apply normalizeInPlace_other. exact Hapart.
Qed.

End Normalize.

Lemma normalizing_an_allergen_again_changes_nothing_witness :
  isAsciiOnly " EN:Milk " = true
  /\ normalizeAllergen (H := plainTables) " EN:Milk " = "milk"
  /\ normalizeAllergen (H := plainTables)
       (normalizeAllergen (H := plainTables) " EN:Milk ")
     = normalizeAllergen (H := plainTables) " EN:Milk ".
Proof.
  split; [reflexivity |]. split; [reflexivity |].
  apply (normalizing_an_allergen_again_changes_nothing (H := plainTables)
           " EN:Milk "). reflexivity.
Defined.

Lemma processing_again_changes_nothing_witness :
  inBounds breadStore (AllergensTags bread)
  /\ len (AllergensTags bread) <> 0%nat
  /\ Forall (fun tag => isAsciiOnly tag = true)
            (elements breadStore (AllergensTags bread))
  /\ array (IngredientsTags bread) <> array (AllergensTags bread)
  /\ ProcessProduct (H := plainTables) 0
                    (fst (ProcessProduct (H := plainTables) 0 breadStore bread))
                    bread
     = (fst (ProcessProduct (H := plainTables) 0 breadStore bread),
        snd (ProcessProduct (H := plainTables) 0 breadStore bread)).
Proof.
  assert (inBounds breadStore (AllergensTags bread)) as Hbounds.
  { exists ["en:milk"; "en:gluten"]. split; [reflexivity | cbn; lia]. }
  assert (Forall (fun tag => isAsciiOnly tag = true)
                 (elements breadStore (AllergensTags bread))) as Hascii.
  { repeat constructor. }
  split; [exact Hbounds |]. split; [discriminate |]. split; [exact Hascii |].
  split; [discriminate |].
  apply (processing_again_changes_nothing (H := plainTables) 0 breadStore bread
           Hbounds); [discriminate | exact Hascii | discriminate].
Defined.

(** ** Runs of [main] *)

Lemma wrapInt_small (n : Z) : - 2 ^ 63 <= n < 2 ^ 63 -> wrapInt n = n.
Proof.
  intros Hn. unfold wrapInt. rewrite Z.mod_small; lia.
Qed.

Lemma rem_chunk (n : Z) : 0 <= n -> Z.rem n CHUNK_SIZE = n mod CHUNK_SIZE.
Proof. intros Hn. apply Z.rem_mod_nonneg; unfold CHUNK_SIZE; lia. Qed.

Lemma div_succ (n : Z) :
  0 <= n ->
  (n + 1) / CHUNK_SIZE
  = n / CHUNK_SIZE + (if (n + 1) mod CHUNK_SIZE =? 0 then 1 else 0).
Proof.
  intros Hn. unfold CHUNK_SIZE.
  pose proof (Z.div_mod n 50000 ltac:(lia)) as Hdm.
  pose proof (Z.mod_pos_bound n 50000 ltac:(lia)) as Hbound.
  pose proof (Z.div_mod (n + 1) 50000 ltac:(lia)) as Hdm'.
  pose proof (Z.mod_pos_bound (n + 1) 50000 ltac:(lia)) as Hbound'.
  destruct ((n + 1) mod 50000 =? 0) eqn:Hzero; lia.
Qed.

Lemma mod_succ (n : Z) :
  0 <= n ->
  (n + 1) mod CHUNK_SIZE
  = if (n + 1) mod CHUNK_SIZE =? 0 then 0 else n mod CHUNK_SIZE + 1.
Proof.
  intros Hn. unfold CHUNK_SIZE.
  pose proof (Z.div_mod n 50000 ltac:(lia)) as Hdm.
  pose proof (Z.mod_pos_bound n 50000 ltac:(lia)) as Hbound.
  pose proof (Z.div_mod (n + 1) 50000 ltac:(lia)) as Hdm'.
  pose proof (Z.mod_pos_bound (n + 1) 50000 ltac:(lia)) as Hbound'.
  destruct ((n + 1) mod 50000 =? 0) eqn:Hzero; lia.
Qed.

(** The paths of the output files are different from one another. *)
Lemma append_cancel_l (p a b : string) : p ++ a = p ++ b -> a = b.
Proof.
  induction p as [| c p IH]; [intros Hab; exact Hab |].
  rewrite !append_cons. intros Hab. injection Hab as Hab. apply IH, Hab.
Qed.

Lemma append_cancel_r (a b s : string) : a ++ s = b ++ s -> a = b.
Proof.
  intros Hab. apply (f_equal srev) in Hab. rewrite !srev_app in Hab.
  apply append_cancel_l in Hab. apply (f_equal srev) in Hab.
  rewrite !srev_involutive in Hab. exact Hab.
Qed.

Lemma to_uint_not_nil (n : N) : N.to_uint n <> Decimal.Nil.
Proof.
  destruct n as [| p]; [discriminate |]. apply DecimalPos.Unsigned.to_uint_nonnil.
Qed.

Lemma digitsOf_inj (n m : Z) :
  0 <= n -> 0 <= m -> fmt.digitsOf n = fmt.digitsOf m -> n = m.
Proof.
  unfold fmt.digitsOf. intros Hn Hm Hdigits.
  apply (f_equal NilZero.uint_of_string) in Hdigits.
  rewrite !NilZero.usu in Hdigits by apply to_uint_not_nil.
  injection Hdigits as Hdigits. apply DecimalN.Unsigned.to_uint_inj in Hdigits.
  lia.
Qed.

Lemma outputPath_inj (n m : Z) :
  0 <= n -> 0 <= m -> outputPath n = outputPath m -> n = m.
Proof.
  unfold outputPath, Sprintf_d. intros Hn Hm.
  destruct (n <? 0) eqn:Hn'; [lia |]. destruct (m <? 0) eqn:Hm'; [lia |].
  rewrite !Z.abs_eq by lia. rewrite !append_empty_l.
  intros Hpath. apply append_cancel_l in Hpath. apply append_cancel_l in Hpath.
  apply append_cancel_r in Hpath. apply digitsOf_inj; assumption.
Qed.
Section RunsOfMainProofs.
Context `{CaseTables}.

(** The body of the loop, by what the result of [Decode] leads to. *)
Lemma body_spec env st result :
  let '(count, h, line) := outcome env (lineCount st) (heap st) result in
  lineCount (body env st result) = count
  /\ heap (body env st result) = h
  /\ chunkCount (body env st result) = chunkCount st
  /\ currentFile (body env st result) = currentFile st
  /\ closed (body env st result) = closed st
  /\ match line, currentFile st with
     | Some line, Some path =>
       match writeFails env count with
       | None =>
         processedCount (body env st result) = wrapInt (processedCount st + 1)
         /\ disk (body env st result)
            = alter (fun content => content ++ line) path (disk st)
       | Some n =>
         processedCount (body env st result) = processedCount st
         /\ disk (body env st result)
            = alter (fun content => content ++ keep n line) path (disk st)
       end
     | _, _ =>
       processedCount (body env st result) = processedCount st
       /\ disk (body env st result) = disk st
     end.
Proof.
  destruct result as [| product allergensTags ingredientsTags].
  { cbn. destruct (currentFile st); repeat split; reflexivity. }
  unfold outcome, body.
  destruct (decodedSlice (heap st) allergensTags) as [h1 allergens].
  destruct (decodedSlice h1 ingredientsTags) as [h2 ingredients].
  unfold handle. cbn [lineCount heap processedCount chunkCount currentFile
                      disk closed log].
  generalize (withTags product allergens ingredients) as record.
  intros record.
  generalize (wrapInt (lineCount st + 1)) as count. intros count.
  destruct (ProcessProduct (rangeOrder env count) h2 record)
    as [h3 [[item |] err]].
  2: { cbn. destruct (currentFile st); repeat split; reflexivity. }
  destruct (Encode env h3 item) as [line |].
  2: { cbn. repeat split; reflexivity. }
  destruct (currentFile st) as [path |].
  2: { cbn. repeat split; reflexivity. }
  destruct (writeFails env count) as [n |].
  { cbn. repeat split; reflexivity. }
  destruct (Z.rem (wrapInt (processedCount st + 1)) 10000 =? 0);
    cbn; repeat split; reflexivity.
Qed.

(** The head of the loop. *)
Lemma nextChunk_spec env st :
  0 <= processedCount st ->
  - 2 ^ 63 <= chunkCount st + 1 < 2 ^ 63 ->
  lineCount (snd (nextChunk env st)) = lineCount st
  /\ processedCount (snd (nextChunk env st)) = processedCount st
  /\ heap (snd (nextChunk env st)) = heap st
  /\ (processedCount st mod CHUNK_SIZE <> 0 -> nextChunk env st = (Returned, st))
  /\ (processedCount st mod CHUNK_SIZE = 0 ->
      fst (nextChunk env st) = Returned ->
      chunkCount (snd (nextChunk env st)) = chunkCount st + 1
      /\ currentFile (snd (nextChunk env st)) = Some (outputPath (chunkCount st))
      /\ disk (snd (nextChunk env st))
         = <[outputPath (chunkCount st) := ""]> (disk st)
      /\ closed (snd (nextChunk env st))
         = match currentFile st with
           | Some path => (closed st ++ [path])%list
           | None => closed st
           end).
Proof.
  intros Hprocessed Hchunk. unfold nextChunk. rewrite rem_chunk by exact Hprocessed.
  destruct (processedCount st mod CHUNK_SIZE =? 0) eqn:Hboundary.
  - apply Z.eqb_eq in Hboundary. cbv zeta.
    destruct (createFails env (outputPath (chunkCount st))); cbn [fst snd].
    + repeat split; try reflexivity; try contradiction; discriminate.
    + rewrite wrapInt_small by exact Hchunk.
      repeat split; try reflexivity; contradiction.
  - apply Z.eqb_neq in Hboundary. cbn [fst snd].
    repeat split; try reflexivity; contradiction.
Qed.


Lemma outcome_count env count h result :
  fst (fst (outcome env count h result))
  = match result with
    | DecodeError => count
    | Decoded _ _ _ => wrapInt (count + 1)
    end
  /\ (snd (outcome env count h result) <> None ->
      exists product allergensTags ingredientsTags,
        result = Decoded product allergensTags ingredientsTags).
Proof.
  destruct result as [| product allergensTags ingredientsTags];
    [split; [reflexivity | intros Hline; contradiction] |].
  unfold outcome.
  destruct (decodedSlice h allergensTags) as [h1 allergens].
  destruct (decodedSlice h1 ingredientsTags) as [h2 ingredients].
  destruct (ProcessProduct _ h2 _) as [h3 [item err]]. cbn [fst snd].
  split; [reflexivity | intros _; eauto].
Qed.

Lemma records_cons result left :
  records (result :: left) = (isRecord result + records left)%nat.
Proof. reflexivity. Qed.

Lemma seq_last_chunk (k : Z) :
  1 <= k ->
  map (fun i => outputPath (Z.of_nat i)) (seq 0 (Z.to_nat (k + 1) - 1))
  = (map (fun i => outputPath (Z.of_nat i)) (seq 0 (Z.to_nat k - 1))
     ++ [outputPath (k - 1)])%list.
Proof.
  intros Hk.
  replace (Z.to_nat (k + 1) - 1)%nat with (S (Z.to_nat k - 1)) by lia.
  rewrite seq_S, map_app. cbn [map Nat.add]. repeat f_equal. lia.
Qed.

(** One pass of the loop keeps the counters as [counted] says. *)
Lemma counted_step env st seen recordsSeen result :
  counted seen recordsSeen st ->
  Z.of_nat seen + 3 < 2 ^ 63 ->
  fst (nextChunk env (body env st result)) = Returned ->
  counted (S seen) (isRecord result + recordsSeen)
          (snd (nextChunk env (body env st result))).
Proof.
  intros (Hseen & Hlines & Hprocessed & Hlow & Hhigh & Hnone & Hfile & Hclosed)
         Hbound Hreturned.
  pose proof (body_spec env st result) as Hbody.
  pose proof (outcome_count env (lineCount st) (heap st) result)
    as [Hcount Hline].
  destruct (outcome env (lineCount st) (heap st) result) as [[count h] line].
  cbn [fst snd] in Hcount, Hline.
  destruct Hbody as (Hlines' & _ & Hchunk' & Hfile' & Hclosed' & Hwrite).
  set (st' := body env st result) in *.
  assert (0 <= processedCount st / CHUNK_SIZE <= processedCount st) as Hdiv.
  { split; [apply Z.div_pos; unfold CHUNK_SIZE; lia |].
    apply Z.div_le_upper_bound; unfold CHUNK_SIZE; lia. }
  assert ((isRecord result + recordsSeen <= S seen)%nat) as Hseen'
    by (destruct result; cbn [isRecord]; lia).
  assert (lineCount st' = Z.of_nat (isRecord result + recordsSeen)
          /\ ((processedCount st' = processedCount st)
              \/ (processedCount st' = processedCount st + 1
                  /\ isRecord result = 1%nat))) as [Hl Hp].
  { rewrite Hlines', Hcount. split.
    - destruct result; cbn [isRecord]; [lia |].
      rewrite wrapInt_small by lia. lia.
    - destruct line as [line |]; [| left; apply Hwrite].
      destruct Hline as (product & a & i & ->); [discriminate |].
      rewrite Hfile in Hwrite.
      destruct (writeFails env count); [left; apply Hwrite |].
      right. destruct Hwrite as [-> _]. rewrite wrapInt_small by lia.
      split; reflexivity. }
  assert (0 <= processedCount st') as Hpos by lia.
  assert (- 2 ^ 63 <= chunkCount st' + 1 < 2 ^ 63) as Hroom by lia.
  destruct (nextChunk_spec env st' Hpos Hroom)
    as (Hl'' & Hp'' & _ & Hinside & Hboundary).
  unfold counted. rewrite Hl'', Hp''.
  destruct (Z.eq_dec (processedCount st' mod CHUNK_SIZE) 0) as [Hzero | Hnonzero].
  - destruct (Hboundary Hzero Hreturned) as (Hk & Hcurrent & _ & Hclosed'').
    rewrite Hk, Hcurrent, Hclosed'', Hchunk', Hfile', Hfile, Hclosed', Hclosed.
    destruct Hp as [Hp | [Hp Hrecord]].
    + rewrite Hp in *. repeat split; try lia.
      * f_equal. f_equal. lia.
      * symmetry. apply seq_last_chunk. lia.
    + rewrite Hp in *.
      pose proof (div_succ (processedCount st) ltac:(lia)) as Hsucc.
      rewrite Hzero in Hsucc. cbn [Z.eqb] in Hsucc.
      repeat split; try lia.
      * f_equal. f_equal. lia.
      * symmetry. apply seq_last_chunk. lia.
  - rewrite (Hinside Hnonzero). cbn [snd].
    rewrite Hchunk', Hfile', Hclosed', Hfile.
    destruct Hp as [Hp | [Hp Hrecord]].
    + rewrite Hp in *.
      assert (processedCount st <> 0)
        by (intros Hzero; rewrite Hzero in Hnonzero; apply Hnonzero; reflexivity).
      repeat split; try lia. exact Hclosed.
    + rewrite Hp in *.
      pose proof (div_succ (processedCount st) ltac:(lia)) as Hsucc.
      destruct ((processedCount st + 1) mod CHUNK_SIZE =? 0) eqn:Hmod;
        [apply Z.eqb_eq in Hmod; contradiction |].
      repeat split; try lia. exact Hclosed.
Qed.

Lemma loop_unfold env left st :
  loop env left st
  = match nextChunk env st with
    | (Exited, st1) => (Exited, st1)
    | (Returned, st1) =>
      match left with
      | [] => (Returned, st1)
      | result :: left' => loop env left' (body env st1 result)
      end
    end.
Proof. destruct left; reflexivity. Qed.

Lemma loop_counted env (left : list decoded) : forall st seen recordsSeen st',
  counted seen recordsSeen st ->
  Z.of_nat seen + Z.of_nat (length left) + 3 < 2 ^ 63 ->
  match left with
  | [] => (Returned, st)
  | result :: left' => loop env left' (body env st result)
  end = (Returned, st') ->
  counted (seen + length left) (records left + recordsSeen) st'.
Proof.
  induction left as [| result left IH]; intros st seen recordsSeen st'
    Hcounted Hbound Hrun.
  - injection Hrun as <-. rewrite Nat.add_0_r. exact Hcounted.
  - cbn [length] in Hbound |- *. rewrite records_cons.
    replace (seen + S (length left))%nat with (S seen + length left)%nat by lia.
    replace (isRecord result + records left + recordsSeen)%nat
      with (records left + (isRecord result + recordsSeen))%nat by lia.
    rewrite loop_unfold in Hrun.
    destruct (nextChunk env (body env st result)) as [[] st1] eqn:Hnext;
      [discriminate |].
    apply (IH st1 (S seen) _ st'); [| lia | exact Hrun].
    pose proof (counted_step env st seen recordsSeen result Hcounted
                  ltac:(lia)) as Hstep.
    rewrite Hnext in Hstep. apply Hstep. reflexivity.
Qed.

(** X18.  [main] counts: when it returns, [lineCount] is the number of records
    decoded and [processedCount] the number of lines written in full, at
    most that; [chunkCount] files were created, one more than the full
    chunks of lines, and one more again for each result of [Decode] that
    wrote no line while [processedCount] was a multiple of [CHUNK_SIZE], so
    that a run that writes nothing creates a file for each result and one
    more; all the files but the last were closed, the last is still open;
    and the last entry of the log tells the three counters. *)
Theorem main_counts env h files st :
  Z.of_nat (length (decodes env)) + 3 < 2 ^ 63 ->
  main env h files = (Returned, st) ->
  let seen := Z.of_nat (length (decodes env)) in
  lineCount st = Z.of_nat (records (decodes env))
  /\ 0 <= processedCount st <= lineCount st
  /\ lineCount st <= seen
  /\ processedCount st / CHUNK_SIZE + 1 <= chunkCount st
  /\ chunkCount st
     <= processedCount st / CHUNK_SIZE + 1 + (seen - processedCount st)
  /\ (processedCount st = seen -> chunkCount st = seen / CHUNK_SIZE + 1)
  /\ (processedCount st = 0 -> chunkCount st = seen + 1)
  /\ currentFile st = Some (outputPath (chunkCount st - 1))
  /\ closed st = map (fun k => outputPath (Z.of_nat k))
                     (seq 0 (Z.to_nat (chunkCount st) - 1))
  /\ List.last (log st) ErrorDecodingJSON
     = CompletedProcessing (lineCount st) (processedCount st) (chunkCount st).
Proof.
  intros Hbound. unfold main. cbv zeta.
  destruct (mkdirFails env); [discriminate |].
  destruct (openFails env); [discriminate |].
  destruct (gzipFails env); [discriminate |].
  rewrite loop_unfold.
  set (st0 := {| lineCount := 0; processedCount := 0; chunkCount := 0;
                 currentFile := None; heap := h; disk := files; closed := [];
                 log := [] |}).
  destruct (nextChunk env st0) as [[] st1] eqn:Hnext; [discriminate |].
  assert (counted 0 0 st1) as Hstart.
  { destruct (nextChunk_spec env st0) as (Hl & Hp & _ & _ & Hboundary);
      [cbn; lia | cbn; lia |].
    rewrite Hnext in Hl, Hp, Hboundary. cbn [fst snd] in Hl, Hp, Hboundary.
    destruct Hboundary as (Hk & Hfile & _ & Hclosed); [reflexivity .. |].
    unfold counted. rewrite Hl, Hp, Hk, Hfile, Hclosed. cbn.
    repeat split; try lia; reflexivity. }
  destruct (match decodes env with
            | [] => (Returned, st1)
            | result :: left' => loop env left' (body env st1 result)
            end) as [[] st2] eqn:Hrun; [discriminate |].
  intros Hmain. injection Hmain as <-.
  apply (loop_counted env _ st1 0 0 st2 Hstart) in Hrun; [| lia].
  cbn [Nat.add] in Hrun. rewrite Nat.add_0_r in Hrun.
  destruct Hrun as (Hseen & Hlines & Hprocessed & Hlow & Hhigh & Hnone
                    & Hfile & Hclosed).
  cbv zeta. cbn [say lineCount processedCount chunkCount currentFile closed log].
  split; [exact Hlines |]. split; [lia |]. split; [lia |].
  split; [exact Hlow |].
  split; [exact Hhigh |]. split; [| split; [exact Hnone |]].
  - intros Hall. rewrite Hall in *. lia.
  - split; [exact Hfile |]. split; [exact Hclosed |]. apply last_last.
Qed.

End RunsOfMainProofs.
Section FilesOfMain.
Context `{CaseTables}.

Lemma fileOf_app (lines : list string) (line : string) :
  fileOf (lines ++ [line]) = fileOf lines ++ line.
Proof.
  unfold fileOf. induction lines as [| first lines IH].
  - cbn. rewrite append_empty_r. reflexivity.
  - cbn [app fold_right]. rewrite IH, append_assoc. reflexivity.
Qed.

Lemma list_split_last {A} (l : list A) (d : A) :
  l <> [] -> l = (removelast l ++ [List.last l d])%list.
Proof. intros Hl. apply app_removelast_last. exact Hl. Qed.

Lemma concat_snoc {A} (l : list (list A)) (x : list A) :
  concat (l ++ [x]) = (concat l ++ x)%list.
Proof. rewrite concat_app. cbn. rewrite app_nil_r. reflexivity. Qed.

(** A line written to the open file. *)
Lemma chunked_write files st st' chunks line lastLength :
  chunked files lastLength st chunks ->
  lastLength < CHUNK_SIZE ->
  chunkCount st' = chunkCount st ->
  currentFile st' = currentFile st ->
  processedCount st' = processedCount st + 1 ->
  disk st'
  = alter (fun content => content ++ line)
          (outputPath (chunkCount st - 1)) (disk st) ->
  exists chunks',
    chunked files (lastLength + 1) st' chunks'
    /\ concat chunks' = (concat chunks ++ [line])%list.
Proof.
  intros (Hlen & Hone & Hfile & Hprocessed & Hlast & Hrange & Hfull & Hdisk
          & Hother) Hroom Hk' Hfile' Hp' Hdisk'.
  assert (chunks <> []) as Hsome by (intros ->; cbn in Hlen; lia).
  pose proof (list_split_last chunks [] Hsome) as Hsplit.
  set (before := removelast chunks) in *.
  set (open := List.last chunks []) in *.
  assert (length chunks = S (length before)) as Hcount
    by (rewrite Hsplit, length_app; cbn; lia).
  exists (before ++ [open ++ [line]])%list.
  split; [| rewrite Hsplit; rewrite !concat_snoc, app_assoc; reflexivity].
  unfold chunked. rewrite Hk', Hfile', Hp'.
  split; [rewrite length_app; cbn [length]; lia |].
  split; [exact Hone |]. split; [exact Hfile |].
  split.
  { rewrite concat_snoc, !length_app. cbn [length].
    rewrite Hsplit, concat_snoc, length_app in Hprocessed. lia. }
  split; [rewrite last_last, length_app; cbn [length]; lia |].
  split; [lia |].
  split; [rewrite removelast_last; exact Hfull |].
  split.
  - intros k lines Hk. rewrite Hdisk'.
    destruct (decide (k = length before)) as [-> | Hbefore].
    + rewrite list_lookup_middle in Hk by reflexivity. injection Hk as <-.
      replace (Z.of_nat (length before)) with (chunkCount st - 1) by lia.
      rewrite lookup_alter_eq.
      replace (chunkCount st - 1) with (Z.of_nat (length before)) by lia.
      rewrite (Hdisk (length before) open).
      * cbn. rewrite fileOf_app. reflexivity.
      * rewrite Hsplit. apply list_lookup_middle. reflexivity.
    + assert (k < length before)%nat as Hlt.
      { apply lookup_lt_Some in Hk. rewrite length_app in Hk. cbn in Hk. lia. }
      rewrite lookup_app_l in Hk by exact Hlt.
      rewrite lookup_alter_ne.
      * apply Hdisk. rewrite Hsplit. rewrite lookup_app_l by exact Hlt. exact Hk.
      * intros Hpath. apply outputPath_inj in Hpath; lia.
  - intros path Hpath. rewrite Hdisk'. rewrite lookup_alter_ne.
    + apply Hother, Hpath.
    + replace (chunkCount st - 1) with (Z.of_nat (length before)) by lia.
      intros Heq. apply (Hpath (length before)). symmetry. exact Heq.
Qed.

(** The head of the loop after a pass. *)
Lemma chunked_nextChunk env files st chunks lastLength :
  chunked files lastLength st chunks ->
  0 <= processedCount st ->
  chunkCount st + 1 < 2 ^ 63 ->
  (processedCount st mod CHUNK_SIZE <> 0 ->
   lastLength = processedCount st mod CHUNK_SIZE) ->
  (processedCount st mod CHUNK_SIZE = 0 ->
   lastLength = 0 \/ lastLength = CHUNK_SIZE) ->
  fst (nextChunk env st) = Returned ->
  exists chunks',
    inStep files (snd (nextChunk env st)) chunks'
    /\ concat chunks' = concat chunks.
Proof.
  intros (Hlen & Hone & Hfile & Hprocessed & Hlast & Hrange & Hfull & Hdisk
          & Hother) Hpos Hroom Hinside Hboundary Hreturned.
  destruct (nextChunk_spec env st Hpos ltac:(lia))
    as (_ & Hp' & _ & Hsame & Hnew).
  unfold inStep.
  destruct (Z.eq_dec (processedCount st mod CHUNK_SIZE) 0) as [Hzero | Hnonzero].
  - destruct (Hnew Hzero Hreturned) as (Hk' & Hfile' & Hdisk' & _).
    exists (chunks ++ [[]])%list.
    split; [| rewrite concat_snoc; apply app_nil_r].
    unfold chunked. rewrite Hp', Hk', Hfile', Hdisk', Hzero.
    split; [rewrite length_app; cbn [length]; lia |].
    split; [lia |].
    split; [do 2 f_equal; lia |].
    split; [rewrite concat_snoc, app_nil_r; exact Hprocessed |].
    split; [rewrite last_last; reflexivity |].
    split; [unfold CHUNK_SIZE; lia |].
    split.
    { rewrite removelast_last.
      assert (chunks <> []) as Hsome by (intros ->; cbn in Hlen; lia).
      rewrite (list_split_last chunks [] Hsome).
      apply Forall_app. split; [exact Hfull |].
      constructor; [| constructor].
      destruct (Hboundary Hzero) as [Hempty | Hchunk]; lia. }
    split.
    + intros k lines Hk.
      destruct (decide (k = length chunks)) as [-> | Hbefore].
      * rewrite list_lookup_middle in Hk by reflexivity. injection Hk as <-.
        rewrite Hlen. apply lookup_insert_eq.
      * assert (k < length chunks)%nat as Hlt.
        { apply lookup_lt_Some in Hk. rewrite length_app in Hk. cbn in Hk. lia. }
        rewrite lookup_app_l in Hk by exact Hlt.
        rewrite lookup_insert_ne; [apply Hdisk, Hk |].
        intros Hpath. apply outputPath_inj in Hpath; lia.
    + intros path Hpath. rewrite lookup_insert_ne; [apply Hother, Hpath |].
      rewrite <- Hlen. intros Heq. apply (Hpath (length chunks)).
      symmetry. exact Heq.
  - rewrite (Hsame Hnonzero). cbn [snd]. exists chunks. split; [| reflexivity].
    unfold chunked. rewrite <- (Hinside Hnonzero).
    repeat split; try assumption; lia.
Qed.


Lemma chunked_same files st st' chunks lastLength :
  chunked files lastLength st chunks ->
  chunkCount st' = chunkCount st ->
  currentFile st' = currentFile st ->
  processedCount st' = processedCount st ->
  disk st' = disk st ->
  chunked files lastLength st' chunks.
Proof.
  unfold chunked. intros Hchunked -> -> -> ->. exact Hchunked.
Qed.

Lemma mod_succ_full (n : Z) :
  0 <= n -> (n + 1) mod CHUNK_SIZE = 0 -> n mod CHUNK_SIZE + 1 = CHUNK_SIZE.
Proof.
  intros Hn. unfold CHUNK_SIZE.
  pose proof (Z.div_mod n 50000 ltac:(lia)) as Hdm.
  pose proof (Z.mod_pos_bound n 50000 ltac:(lia)) as Hbound.
  pose proof (Z.div_mod (n + 1) 50000 ltac:(lia)) as Hdm'.
  lia.
Qed.

(** One pass of the loop when no write fails. *)
Lemma inStep_step env files st chunks seen recordsSeen result :
  counted seen recordsSeen st ->
  inStep files st chunks ->
  (forall count, writeFails env count = None) ->
  Z.of_nat seen + 3 < 2 ^ 63 ->
  fst (nextChunk env (body env st result)) = Returned ->
  lineCount (snd (nextChunk env (body env st result)))
  = fst (fst (outcome env (lineCount st) (heap st) result))
  /\ heap (snd (nextChunk env (body env st result)))
     = snd (fst (outcome env (lineCount st) (heap st) result))
  /\ exists chunks',
       inStep files (snd (nextChunk env (body env st result))) chunks'
       /\ concat chunks'
          = (concat chunks
             ++ match snd (outcome env (lineCount st) (heap st) result) with
                | Some line => [line]
                | None => []
                end)%list.
Proof.
  intros (Hseen & Hlines & Hprocessed & Hlow & Hhigh & _ & Hfile & _)
         Hstep Hnofail Hbound Hreturned.
  pose proof (body_spec env st result) as Hbody.
  destruct (outcome env (lineCount st) (heap st) result) as [[count h] line].
  cbn [fst snd].
  destruct Hbody as (Hl' & Hh' & Hk' & Hfile' & _ & Hwrite).
  set (st1 := body env st result) in *.
  assert (0 <= processedCount st / CHUNK_SIZE <= processedCount st) as Hdiv.
  { split; [apply Z.div_pos; unfold CHUNK_SIZE; lia |].
    apply Z.div_le_upper_bound; unfold CHUNK_SIZE; lia. }
  pose proof (Z.mod_pos_bound (processedCount st) CHUNK_SIZE
                ltac:(unfold CHUNK_SIZE; lia)) as Hmod.
  assert (exists chunks1 lastLength,
            chunked files lastLength st1 chunks1
            /\ concat chunks1
               = (concat chunks
                  ++ match line with Some line => [line] | None => [] end)%list
            /\ 0 <= processedCount st1 <= processedCount st + 1
            /\ (processedCount st1 mod CHUNK_SIZE <> 0 ->
                lastLength = processedCount st1 mod CHUNK_SIZE)
            /\ (processedCount st1 mod CHUNK_SIZE = 0 ->
                lastLength = 0 \/ lastLength = CHUNK_SIZE))
    as (chunks1 & lastLength & Hchunked & Hconcat & Hp1 & Hinside & Hboundary).
  { destruct line as [line |].
    - rewrite Hfile, Hnofail in Hwrite. destruct Hwrite as [Hp' Hdisk'].
      rewrite wrapInt_small in Hp' by lia.
      destruct (chunked_write files st st1 chunks line _ Hstep) as
        (chunks1 & Hchunked & Hconcat); try assumption; [lia |].
      exists chunks1, (processedCount st mod CHUNK_SIZE + 1).
      split; [exact Hchunked |]. split; [exact Hconcat |].
      rewrite Hp'. split; [lia |]. split.
      + intros Hnonzero.
        pose proof (mod_succ (processedCount st) ltac:(lia)) as Hsucc.
        destruct ((processedCount st + 1) mod CHUNK_SIZE =? 0) eqn:Hzero;
          [apply Z.eqb_eq in Hzero; contradiction | lia].
      + intros Hzero. right. apply mod_succ_full; [lia | exact Hzero].
    - destruct Hwrite as [Hp' Hdisk'].
      exists chunks, (processedCount st mod CHUNK_SIZE).
      split; [apply (chunked_same files st); assumption |].
      split; [rewrite app_nil_r; reflexivity |].
      rewrite Hp'. split; [lia |]. split; [reflexivity |]. intros ->. left.
      reflexivity. }
  assert (chunkCount st1 + 1 < 2 ^ 63) as Hroom by lia.
  destruct (nextChunk_spec env st1 ltac:(lia) ltac:(lia))
    as (Hl'' & _ & Hh'' & _ & _).
  split; [rewrite Hl''; exact Hl' |]. split; [rewrite Hh''; exact Hh' |].
  destruct (chunked_nextChunk env files st1 chunks1 lastLength Hchunked
              ltac:(lia) Hroom Hinside Hboundary Hreturned)
    as (chunks' & Hstep' & Hconcat').
  exists chunks'. split; [exact Hstep' |]. rewrite Hconcat'. exact Hconcat.
Qed.

Lemma loop_inStep env files (left : list decoded) :
  forall st seen recordsSeen chunks st',
  counted seen recordsSeen st ->
  inStep files st chunks ->
  (forall count, writeFails env count = None) ->
  Z.of_nat seen + Z.of_nat (length left) + 3 < 2 ^ 63 ->
  match left with
  | [] => (Returned, st)
  | result :: left' => loop env left' (body env st result)
  end = (Returned, st') ->
  exists chunks',
    inStep files st' chunks'
    /\ concat chunks'
       = (concat chunks ++ acceptedLines env left (lineCount st) (heap st))%list.
Proof.
  induction left as [| result left IH];
    intros st seen recordsSeen chunks st' Hcounted Hstep Hnofail Hbound Hrun.
  - injection Hrun as <-. exists chunks. split; [exact Hstep |].
    cbn [acceptedLines]. rewrite app_nil_r. reflexivity.
  - cbn [length] in Hbound. rewrite loop_unfold in Hrun.
    destruct (nextChunk env (body env st result)) as [[] st1] eqn:Hnext;
      [discriminate |].
    pose proof (counted_step env st seen recordsSeen result Hcounted
                  ltac:(lia)) as Hcounted'.
    pose proof (inStep_step env files st chunks seen recordsSeen result
                  Hcounted Hstep Hnofail ltac:(lia)) as Hstep'.
    rewrite Hnext in Hcounted', Hstep'. cbn [fst snd] in Hcounted', Hstep'.
    specialize (Hcounted' eq_refl).
    destruct (Hstep' eq_refl) as (Hl & Hh & chunks1 & Hstep1 & Hconcat1).
    destruct (IH st1 (S seen) _ chunks1 st' Hcounted' Hstep1 Hnofail
                ltac:(lia) Hrun) as (chunks' & Hstep2 & Hconcat2).
    exists chunks'. split; [exact Hstep2 |].
    rewrite Hconcat2, Hconcat1, Hl, Hh. cbn [acceptedLines].
    destruct (outcome env (lineCount st) (heap st) result) as [[count h] line].
    cbn [fst snd]. rewrite <- app_assoc. destruct line; reflexivity.
Qed.

(** X19.  When no write fails, the files [main] leaves hold the lines of the
    accepted records: the files it created, taken in the order of their
    numbers, hold the lines in the order of the input; a file holds at most
    [CHUNK_SIZE] lines, and each file before the last holds [CHUNK_SIZE]
    lines or none; [processedCount] is the number of lines; any other file
    is as it was. *)
Theorem main_writes_the_accepted_lines env h files st :
  Z.of_nat (length (decodes env)) + 3 < 2 ^ 63 ->
  (forall count, writeFails env count = None) ->
  main env h files = (Returned, st) ->
  exists chunks : list (list string),
    Z.of_nat (length chunks) = chunkCount st
    /\ concat chunks = acceptedLines env (decodes env) 0 h
    /\ processedCount st
       = Z.of_nat (length (acceptedLines env (decodes env) 0 h))
    /\ Forall (fun lines : list string =>
                 Z.of_nat (length lines) <= CHUNK_SIZE) chunks
    /\ Forall (fun lines : list string =>
                 length lines = 0%nat \/ Z.of_nat (length lines) = CHUNK_SIZE)
              (removelast chunks)
    /\ (forall (k : nat) lines,
          chunks !! k = Some lines ->
          disk st !! outputPath (Z.of_nat k) = Some (fileOf lines))
    /\ (forall path,
          (forall k : nat, path <> outputPath (Z.of_nat k)) ->
          disk st !! path = files !! path).
Proof.
  intros Hbound Hnofail. unfold main. cbv zeta.
  destruct (mkdirFails env); [discriminate |].
  destruct (openFails env); [discriminate |].
  destruct (gzipFails env); [discriminate |].
  rewrite loop_unfold.
  set (st0 := {| lineCount := 0; processedCount := 0; chunkCount := 0;
                 currentFile := None; heap := h; disk := files; closed := [];
                 log := [] |}).
  destruct (nextChunk env st0) as [[] st1] eqn:Hnext; [discriminate |].
  destruct (nextChunk_spec env st0) as (Hl & Hp & Hh & _ & Hboundary);
    [cbn; lia | cbn; lia |].
  rewrite Hnext in Hl, Hp, Hh, Hboundary. cbn [fst snd] in Hl, Hp, Hh, Hboundary.
  destruct Hboundary as (Hk & Hfile & Hdisk & Hclosed); [reflexivity .. |].
  subst st0.
  cbn [lineCount processedCount chunkCount currentFile heap disk closed]
    in Hl, Hp, Hh, Hk, Hfile, Hdisk, Hclosed.
  assert (counted 0 0 st1) as Hstart.
  { unfold counted. rewrite Hl, Hp, Hk, Hfile, Hclosed. cbn.
    repeat split; try lia; reflexivity. }
  assert (inStep files st1 [[]]) as Hstep.
  { unfold inStep, chunked. rewrite Hp, Hk, Hfile, Hdisk.
    split; [reflexivity |]. split; [lia |]. split; [reflexivity |].
    split; [reflexivity |]. split; [reflexivity |].
    split; [vm_compute; split; discriminate |]. split; [constructor |]. split.
    - intros k lines Hlook. destruct k as [| k]; [| destruct k; discriminate].
      injection Hlook as <-. apply lookup_insert_eq.
    - intros path Hpath. apply lookup_insert_ne.
      intros Heq. apply (Hpath 0%nat). symmetry. exact Heq. }
  destruct (match decodes env with
            | [] => (Returned, st1)
            | result :: left' => loop env left' (body env st1 result)
            end) as [[] st2] eqn:Hrun; [discriminate |].
  intros Hmain. injection Hmain as <-.
  destruct (loop_inStep env files (decodes env) st1 0 0 [[]] st2 Hstart Hstep
              Hnofail ltac:(lia) Hrun) as (chunks & Hfinal & Hconcat).
  rewrite Hl, Hh in Hconcat. cbn [concat app] in Hconcat.
  destruct Hfinal as (Hlen & Hone & _ & Hprocessed & Hlast & Hrange & Hfull
                      & Hfiles & Hother).
  exists chunks.
  cbn [say lineCount processedCount chunkCount currentFile closed log disk].
  split; [exact Hlen |]. split; [exact Hconcat |].
  split; [rewrite <- Hconcat; symmetry; exact Hprocessed |].
  split.
  { assert (chunks <> []) as Hsome by (intros ->; cbn in Hlen; lia).
    rewrite (list_split_last chunks [] Hsome). apply Forall_app. split.
    - eapply Forall_impl; [exact Hfull |]. cbn beta.
      intros lines Hlines. unfold CHUNK_SIZE in *. lia.
    - constructor; [lia | constructor]. }
  split; [exact Hfull |]. split; [exact Hfiles | exact Hother].
Qed.

End FilesOfMain.
Lemma main_counts_witness :
  let run := main (H := plainTables) fourResults ∅ ∅ in
  Z.of_nat (length (decodes fourResults)) + 3 < 2 ^ 63
  /\ run = (Returned, snd run)
  /\ lineCount (snd run) = 3 /\ processedCount (snd run) = 2
  /\ chunkCount (snd run) = 2
  /\ lineCount (snd run) = Z.of_nat (records (decodes fourResults))
  /\ processedCount (snd run) / CHUNK_SIZE + 1 <= chunkCount (snd run).
Proof.
  cbv zeta.
  assert (Z.of_nat (length (decodes fourResults)) + 3 < 2 ^ 63) as Hbound
    by (vm_compute; reflexivity).
  assert (main (H := plainTables) fourResults ∅ ∅
          = (Returned, snd (main (H := plainTables) fourResults ∅ ∅))) as Hrun
    by (vm_compute; reflexivity).
  split; [exact Hbound |]. split; [exact Hrun |].
  do 3 (split; [vm_compute; reflexivity |]).
  pose proof (main_counts (H := plainTables) fourResults ∅ ∅ _ Hbound Hrun)
    as (Hlines & _ & _ & Hchunks & _).
  split; [exact Hlines | exact Hchunks].
Defined.

Lemma main_writes_the_accepted_lines_witness :
  let run := main (H := plainTables) fourResults ∅ ∅ in
  Z.of_nat (length (decodes fourResults)) + 3 < 2 ^ 63
  /\ (forall count, writeFails fourResults count = None)
  /\ run = (Returned, snd run)
  /\ acceptedLines (H := plainTables) fourResults (decodes fourResults) 0 ∅
     = ["1 Bread" ++ String (chr 10) ""; "2 Pain" ++ String (chr 10) ""]
  /\ exists chunks : list (list string),
       Z.of_nat (length chunks) = chunkCount (snd run)
       /\ concat chunks
          = acceptedLines (H := plainTables) fourResults (decodes fourResults)
                          0 ∅
       /\ (forall (k : nat) lines,
             chunks !! k = Some lines ->
             disk (snd run) !! outputPath (Z.of_nat k) = Some (fileOf lines)).
Proof.
  cbv zeta.
  assert (Z.of_nat (length (decodes fourResults)) + 3 < 2 ^ 63) as Hbound
    by (vm_compute; reflexivity).
  assert (forall count, writeFails fourResults count = None) as Hnofail
    by reflexivity.
  assert (main (H := plainTables) fourResults ∅ ∅
          = (Returned, snd (main (H := plainTables) fourResults ∅ ∅))) as Hrun
    by (vm_compute; reflexivity).
  split; [exact Hbound |]. split; [exact Hnofail |]. split; [exact Hrun |].
  split; [vm_compute; reflexivity |].
  destruct (main_writes_the_accepted_lines (H := plainTables) fourResults ∅ ∅ _
              Hbound Hnofail Hrun)
    as (chunks & Hlen & Hconcat & _ & _ & _ & Hfiles & _).
  exists chunks. split; [exact Hlen |]. split; [exact Hconcat | exact Hfiles].
Defined.

(** ** How a run ends *)

Section Endings.
Context `{CaseTables}.




End Endings.



(** ** What the patterns match *)

Lemma rounds_mono M N : included M N -> included (rounds M) (rounds N).
Proof.
  intros Hincl p s p' s' Hrounds.
  induction Hrounds as [p s | p s p1 s1 p2 s2 Hstep Hlt _ IH];
    [constructor | econstructor; eauto].
Qed.

Lemma rounds_app M p s p1 s1 p2 s2 :
  rounds M p s p1 s1 -> rounds M p1 s1 p2 s2 -> rounds M p s p2 s2.
Proof.
  intros Hfirst Hsecond.
  induction Hfirst as [p s | p s q t p1 s1 Hstep Hlt _ IH];
    [exact Hsecond | econstructor; eauto].
Qed.

(** A pattern takes a piece off the front of the input. *)
Lemma takes_span r : forall p s p' s',
  takes r p s p' s' ->
  (p' + String.length s' = p + String.length s)%nat.
Proof.
  induction r as [| f | a IHa b IHb | a IHa b IHb | g a IHa | n a IHa | | |];
    cbn [takes]; intros p s p' s' Htakes.
  - destruct Htakes as [-> ->]. reflexivity.
  - destruct Htakes as (c & -> & _ & ->). cbn [String.length]. lia.
  - destruct Htakes as (p1 & s1 & Ha & Hb).
    apply IHa in Ha. apply IHb in Hb. lia.
  - destruct Htakes as [Ha | Hb]; [apply IHa, Ha | apply IHb, Hb].
  - induction Htakes as [p s | p s p1 s1 p2 s2 Hstep Hlt _ IH];
      [reflexivity |].
    apply IHa in Hstep. lia.
  - apply IHa, Htakes.
  - destruct Htakes as (_ & -> & ->). reflexivity.
  - destruct Htakes as (_ & -> & ->). reflexivity.
  - destruct Htakes.
Qed.

Lemma run_Star g a st k :
  regexp.run (regexp.Star g a) st k
  = starLoop a g k (S (String.length (regexp.rest st))) st.
Proof. reflexivity. Qed.

(** What the search finds, the pattern takes. *)
Lemma starLoop_sound a g k
  (IHa : forall st k x, regexp.run a st k = Some x ->
     exists st', takes a (regexp.pos st) (regexp.rest st)
                   (regexp.pos st') (regexp.rest st')
                 /\ k st' = Some x) :
  forall fuel st x, starLoop a g k fuel st = Some x ->
  exists st', rounds (takes a) (regexp.pos st) (regexp.rest st)
                (regexp.pos st') (regexp.rest st')
              /\ k st' = Some x.
Proof.
  induction fuel as [| fuel IH]; intros st x Hrun; cbn [starLoop] in Hrun.
  { exists st. split; [constructor | exact Hrun]. }
  assert (Hmore : forall y,
    regexp.run a st (fun st' =>
      if (regexp.pos st <? regexp.pos st')%nat
      then starLoop a g k fuel st' else None) = Some y ->
    exists st', rounds (takes a) (regexp.pos st) (regexp.rest st)
                  (regexp.pos st') (regexp.rest st')
                /\ k st' = Some y).
  { intros y Hy. apply IHa in Hy as (st1 & Hstep & Hk).
    destruct (regexp.pos st <? regexp.pos st1)%nat eqn:Hlt; [| discriminate].
    apply Nat.ltb_lt in Hlt.
    apply IH in Hk as (st2 & Hrest & Hk).
    exists st2. split; [econstructor; eauto | exact Hk]. }
  assert (Hstay : forall y, k st = Some y ->
    exists st', rounds (takes a) (regexp.pos st) (regexp.rest st)
                  (regexp.pos st') (regexp.rest st')
                /\ k st' = Some y).
  { intros y Hy. exists st. split; [constructor | exact Hy]. }
  destruct g.
  - destruct (regexp.run a st _) as [y |] eqn:Hy.
    + injection Hrun as <-. apply Hmore. reflexivity.
    + apply Hstay, Hrun.
  - destruct (k st) as [y |] eqn:Hy.
    + injection Hrun as <-. exists st. split; [constructor | exact Hy].
    + apply Hmore, Hrun.
Qed.

Lemma run_sound r : forall st k x,
  regexp.run r st k = Some x ->
  exists st', takes r (regexp.pos st) (regexp.rest st)
                (regexp.pos st') (regexp.rest st')
              /\ k st' = Some x.
Proof.
  induction r as [| f | a IHa b IHb | a IHa b IHb | g a IHa | n a IHa | | |];
    intros st k x Hrun.
  - exists st. split; [split; reflexivity | exact Hrun].
  - cbn [regexp.run] in Hrun.
    destruct (regexp.rest st) as [| c s'] eqn:Hrest; [discriminate |].
    destruct (f c) eqn:Hc; [| discriminate].
    eexists. split; [| exact Hrun]. cbn [takes regexp.pos regexp.rest].
    exists c. auto.
  - cbn [regexp.run] in Hrun.
    apply IHa in Hrun as (st1 & Ha & Hrun).
    apply IHb in Hrun as (st2 & Hb & Hk).
    exists st2. split; [| exact Hk]. cbn [takes]. eauto.
  - cbn [regexp.run] in Hrun.
    destruct (regexp.run a st k) as [y |] eqn:Hy.
    + injection Hrun as <-. apply IHa in Hy as (st1 & Ha & Hk).
      exists st1. split; [left; exact Ha | exact Hk].
    + apply IHb in Hrun as (st1 & Hb & Hk).
      exists st1. split; [right; exact Hb | exact Hk].
  - rewrite run_Star in Hrun.
    apply (starLoop_sound a g k IHa) in Hrun. exact Hrun.
  - cbn [regexp.run] in Hrun.
    apply IHa in Hrun as (st1 & Ha & Hk).
    eexists. split; [| exact Hk]. exact Ha.
  - cbn [regexp.run] in Hrun.
    destruct (regexp.pos st =? 0)%nat eqn:Hpos; [| discriminate].
    apply Nat.eqb_eq in Hpos.
    exists st. split; [cbn [takes]; auto | exact Hrun].
  - cbn [regexp.run] in Hrun.
    destruct (regexp.rest st) eqn:Hrest; [| discriminate].
    exists st. split; [cbn [takes]; rewrite Hrest; auto | exact Hrun].
  - discriminate.
Qed.

(** What the pattern takes, the search does not miss. *)
Definition complete (a : regexp.regex) : Prop :=
  forall p s p' s', takes a p s p' s' ->
  forall st k, regexp.pos st = p -> regexp.rest st = s ->
  (forall x, regexp.pos x = p' -> regexp.rest x = s' -> k x <> None) ->
  regexp.run a st k <> None.

Lemma starLoop_complete a g k (IHa : complete a) : forall p s p' s',
  rounds (takes a) p s p' s' ->
  (forall x, regexp.pos x = p' -> regexp.rest x = s' -> k x <> None) ->
  forall fuel st, regexp.pos st = p -> regexp.rest st = s ->
  (String.length s < fuel)%nat ->
  starLoop a g k fuel st <> None.
Proof.
  induction 1 as [p s | p s p1 s1 p2 s2 Hstep Hlt _ IH];
    intros Hk fuel st Hp Hs Hfuel;
    (destruct fuel as [| fuel]; [lia |]); cbn [starLoop].
  - destruct g.
    + destruct (regexp.run a st _); [discriminate | apply Hk; assumption].
    + destruct (k st) eqn:Hst; [discriminate |].
      exfalso. apply (Hk st); assumption.
  - assert (Hmore :
      regexp.run a st (fun st' =>
        if (regexp.pos st <? regexp.pos st')%nat
        then starLoop a g k fuel st' else None) <> None).
    { apply (IHa _ _ _ _ Hstep); [assumption | assumption |].
      intros x Hx Hrest. rewrite Hp, Hx.
      destruct (p <? p1)%nat eqn:Hltb; [| apply Nat.ltb_ge in Hltb; lia].
      apply IH; [exact Hk | exact Hx | exact Hrest |].
      apply takes_span in Hstep. lia. }
    destruct g.
    + destruct (regexp.run a st _); [discriminate | contradiction].
    + destruct (k st); [discriminate | exact Hmore].
Qed.

Lemma run_complete r : complete r.
Proof.
  induction r as [| f | a IHa b IHb | a IHa b IHb | g a IHa | n a IHa | | |];
    intros p s p' s' Htakes st k Hp Hs Hk; cbn [takes] in Htakes.
  - destruct Htakes as [-> ->]. apply Hk; assumption.
  - destruct Htakes as (c & -> & Hc & ->). cbn [regexp.run].
    rewrite Hs, Hc. apply Hk; [cbn; congruence | reflexivity].
  - destruct Htakes as (p1 & s1 & Ha & Hb). cbn [regexp.run].
    apply (IHa _ _ _ _ Ha); [assumption | assumption |].
    intros x Hx Hrest. apply (IHb _ _ _ _ Hb); assumption.
  - cbn [regexp.run]. destruct Htakes as [Ha | Hb].
    + pose proof (IHa _ _ _ _ Ha st k Hp Hs Hk) as Hrun.
      destruct (regexp.run a st k); [discriminate | contradiction].
    + destruct (regexp.run a st k); [discriminate |].
      apply (IHb _ _ _ _ Hb); assumption.
  - rewrite run_Star.
    apply (starLoop_complete a g k IHa _ _ _ _ Htakes Hk); [assumption.. |].
    rewrite Hs. lia.
  - cbn [regexp.run]. apply (IHa _ _ _ _ Htakes); [assumption | assumption |].
    intros x Hx Hrest. apply Hk; assumption.
  - destruct Htakes as (Hzero & -> & ->). cbn [regexp.run].
    rewrite Hp, Hzero. apply Hk; assumption.
  - destruct Htakes as (Hend & -> & ->). cbn [regexp.run].
    rewrite Hs, Hend. apply Hk; [assumption | congruence].
  - destruct Htakes.
Qed.

(** A match at an offset, and a match somewhere. *)
Lemma matchAt_takes re s start :
  regexp.matchAt re s start <> None
  <-> exists p' s', takes (regexp.expr re) start (skip start s) p' s'.
Proof.
  unfold regexp.matchAt. split.
  - destruct (regexp.run _ _ _) as [st |] eqn:Hrun; [intros _ | congruence].
    apply run_sound in Hrun as (st' & Htakes & _). eauto.
  - intros (p' & s' & Htakes).
    pose proof (run_complete _ _ _ _ _ Htakes
      {| regexp.pos := start; regexp.rest := skip start s; regexp.caps := [] |}
      (fun st => Some st) eq_refl eq_refl) as Hrun.
    destruct (regexp.run _ _ _); [discriminate |].
    exfalso. apply Hrun; [intros; discriminate | reflexivity].
Qed.

Lemma searchFrom_found re s : forall tries start,
  regexp.searchFrom re s tries start <> None
  <-> exists k, (k <= tries)%nat /\ regexp.matchAt re s (start + k) <> None.
Proof.
  induction tries as [| tries IH]; intros start; cbn [regexp.searchFrom].
  - destruct (regexp.matchAt re s start) eqn:Hat.
    + split; [intros _ | discriminate].
      exists 0%nat. rewrite Nat.add_0_r, Hat. split; [lia | discriminate].
    + split; [congruence |]. intros (k & Hk & Hfound).
      assert (k = 0)%nat as -> by lia. rewrite Nat.add_0_r in Hfound.
      contradiction.
  - destruct (regexp.matchAt re s start) eqn:Hat.
    + split; [intros _ | discriminate].
      exists 0%nat. rewrite Nat.add_0_r, Hat. split; [lia | discriminate].
    + rewrite IH. split.
      * intros (k & Hk & Hfound). exists (S k).
        rewrite Nat.add_succ_r. split; [lia | exact Hfound].
      * intros (k & Hk & Hfound). destruct k as [| k].
        { rewrite Nat.add_0_r in Hfound. contradiction. }
        exists k. rewrite Nat.add_succ_r in Hfound. split; [lia | exact Hfound].
Qed.

Lemma FindStringSubmatch_found re s :
  regexp.FindStringSubmatch re s <> None
  <-> exists start p' s', (start <= String.length s)%nat
        /\ takes (regexp.expr re) start (skip start s) p' s'.
Proof.
  unfold regexp.FindStringSubmatch, regexp.doExecute.
  rewrite Nat.sub_0_r.
  pose proof (searchFrom_found re s (String.length s) 0) as Hsearch.
  destruct (regexp.searchFrom re s (String.length s) 0) as [m |].
  - split; [intros _ | discriminate].
    destruct Hsearch as [Hsearch _].
    destruct Hsearch as (k & Hk & Hfound); [discriminate |].
    apply matchAt_takes in Hfound as (p' & s' & Htakes). eauto.
  - split; [congruence |]. intros (start & p' & s' & Hstart & Htakes).
    exfalso. apply (proj2 Hsearch); [| reflexivity].
    exists start. split; [exact Hstart |].
    apply matchAt_takes. eauto.
Qed.

(** Sequences of patterns. *)
Lemma takesAll_app l1 l2 : forall p s p' s',
  takesAll (l1 ++ l2) p s p' s'
  <-> exists p1 s1, takesAll l1 p s p1 s1 /\ takesAll l2 p1 s1 p' s'.
Proof.
  induction l1 as [| r l1 IH]; intros p s p' s'; cbn [app takesAll].
  - split.
    + intros Hl2. exists p, s. auto.
    + intros (p1 & s1 & [-> ->] & Hl2). exact Hl2.
  - split.
    + intros (p1 & s1 & Hr & Hrest).
      apply IH in Hrest as (p2 & s2 & Hl1 & Hl2).
      exists p2, s2. split; [exists p1, s1; auto | exact Hl2].
    + intros (p2 & s2 & (p1 & s1 & Hr & Hl1) & Hl2).
      exists p1, s1. split; [exact Hr |]. apply IH. eauto.
Qed.

Lemma takesAll_one r p s p' s' :
  takesAll [r] p s p' s' <-> takes r p s p' s'.
Proof.
  cbn [takesAll]. split.
  - intros (p1 & s1 & Hr & [-> ->]). exact Hr.
  - intros Hr. exists p', s'. auto.
Qed.

Lemma flat_takes r : forall p s p' s',
  takes r p s p' s' <-> takesAll (flat r) p s p' s'.
Proof.
  induction r as [| f | a IHa b IHb | a IHa b IHb | g a IHa | n a IHa | | |];
    intros p s p' s'; cbn [flat];
    try (symmetry; apply takesAll_one).
  - reflexivity.
  - rewrite takesAll_app. cbn [takes]. split.
    + intros (p1 & s1 & Ha & Hb). exists p1, s1.
      split; [apply IHa, Ha | apply IHb, Hb].
    + intros (p1 & s1 & Ha & Hb). exists p1, s1.
      split; [apply IHa, Ha | apply IHb, Hb].
  - apply IHa.
Qed.

Lemma In_allBytes (c : ascii) : In c allBytes.
Proof.
  unfold allBytes. rewrite <- (ascii_nat_embedding c).
  apply in_map, in_seq. pose proof (nat_ascii_bounded c). lia.
Qed.

Lemma subset_spec f g :
  subset f g = true -> forall c, f c = true -> g c = true.
Proof.
  unfold subset. intros Hall c Hc.
  rewrite forallb_forall in Hall. specialize (Hall c (In_allBytes c)).
  rewrite Hc in Hall. exact Hall.
Qed.

(** The rules of the test [covers]. *)
Lemma covers_nil : included (takesAll []) (takesAll []).
Proof. intros p s p' s' Hl. exact Hl. Qed.

Lemma covers_left_alt a b l R :
  included (takesAll (flat a ++ l)) R ->
  included (takesAll (flat b ++ l)) R ->
  included (takesAll (regexp.Alt a b :: l)) R.
Proof.
  intros Ha Hb p s p' s' (p1 & s1 & [Hhead | Hhead] & Hl);
    [apply Ha | apply Hb]; apply takesAll_app; exists p1, s1;
    (split; [apply flat_takes, Hhead | exact Hl]).
Qed.

Lemma covers_right_alt a b r L :
  included L (takesAll (flat a ++ r)) \/ included L (takesAll (flat b ++ r)) ->
  included L (takesAll (regexp.Alt a b :: r)).
Proof.
  intros [Hincl | Hincl] p s p' s' Hl; apply Hincl in Hl;
    apply takesAll_app in Hl as (p1 & s1 & Hhead & Hr);
    exists p1, s1; (split; [| exact Hr]); cbn [takes];
    [left | right]; apply flat_takes, Hhead.
Qed.

Lemma covers_skip_star g b r L :
  included L (takesAll r) -> included L (takesAll (regexp.Star g b :: r)).
Proof.
  intros Hincl p s p' s' Hl. exists p, s.
  split; [constructor | apply Hincl, Hl].
Qed.

Lemma covers_chr_star f l g b r :
  included (takesAll [regexp.Chr f]) (takesAll (flat b)) ->
  included (takesAll l) (takesAll (regexp.Star g b :: r)) ->
  included (takesAll (regexp.Chr f :: l)) (takesAll (regexp.Star g b :: r)).
Proof.
  intros Hone Hrest p s p' s' (p1 & s1 & Hc & Hl).
  apply Hrest in Hl as (p2 & s2 & Hstar & Hr).
  exists p2, s2. split; [| exact Hr]. cbn [takes] in Hstar |- *.
  apply rounds_more with (p1 := p1) (s1 := s1); [| | exact Hstar].
  - apply flat_takes, Hone, takesAll_one, Hc.
  - destruct Hc as (c & _ & _ & ->). lia.
Qed.

Lemma covers_star_star ga a l g b r :
  included (takesAll (flat a)) (takesAll (flat b)) ->
  included (takesAll l) (takesAll (regexp.Star g b :: r)) ->
  included (takesAll (regexp.Star ga a :: l))
           (takesAll (regexp.Star g b :: r)).
Proof.
  intros Hone Hrest p s p' s' (p1 & s1 & Hrounds & Hl).
  apply Hrest in Hl as (p2 & s2 & Hstar & Hr).
  exists p2, s2. split; [| exact Hr]. cbn [takes] in Hrounds, Hstar |- *.
  apply rounds_app with (p1 := p1) (s1 := s1); [| exact Hstar].
  revert Hrounds. apply rounds_mono.
  intros q t q' t' Ha. apply flat_takes, Hone, flat_takes, Ha.
Qed.

Lemma covers_chr_chr f g l r :
  subset f g = true ->
  included (takesAll l) (takesAll r) ->
  included (takesAll (regexp.Chr f :: l)) (takesAll (regexp.Chr g :: r)).
Proof.
  intros Hsub Hrest p s p' s' (p1 & s1 & (c & Hs & Hc & Hp) & Hl).
  exists p1, s1. split; [| apply Hrest, Hl].
  exists c. split; [exact Hs |]. split; [| exact Hp].
  apply (subset_spec f g Hsub), Hc.
Qed.

Lemma covers_star_plus gf f l g gg g' r :
  subset f g = true -> subset f g' = true -> subset g g' = true ->
  included (takesAll l)
           (takesAll (regexp.Chr g :: regexp.Star gg (regexp.Chr g') :: r)) ->
  included (takesAll (regexp.Star gf (regexp.Chr f) :: l))
           (takesAll (regexp.Chr g :: regexp.Star gg (regexp.Chr g') :: r)).
Proof.
  intros Hfg Hfg' Hgg' Hrest p s p' s' (p1 & s1 & Hrounds & Hl).
  apply Hrest in Hl. clear Hrest. cbn [takes] in Hrounds.
  revert Hl.
  induction Hrounds as [p s | p s p1 s1 p2 s2 Hstep Hlt _ IH];
    intros Hl; [exact Hl |].
  specialize (IH Hl).
  destruct IH as (q & t & (d & Hs1 & Hd & Hq) & q2 & t2 & Hstar & Hr).
  destruct Hstep as (c & Hs & Hc & Hp1).
  exists p1, s1. split.
  { exists c. split; [exact Hs |]. split; [| exact Hp1].
    apply (subset_spec f g Hfg), Hc. }
  exists q2, t2. split; [| exact Hr]. cbn [takes] in Hstar |- *.
  apply rounds_more with (p1 := q) (s1 := t); [| lia | exact Hstar].
  exists d. split; [exact Hs1 |]. split; [| exact Hq].
  apply (subset_spec g g' Hgg'), Hd.
Qed.

Lemma covers_same_head x l r :
  included (takesAll l) (takesAll r) ->
  included (takesAll (x :: l)) (takesAll (x :: r)).
Proof.
  intros Hrest p s p' s' (p1 & s1 & Hx & Hl).
  exists p1, s1. split; [exact Hx | apply Hrest, Hl].
Qed.

Ltac covers_right IH Hc :=
  match type of Hc with
  | (if ?c then true else _) = true =>
    let E := fresh "E" in
    destruct c eqn:E;
    [ apply covers_right_alt; left; apply IH, E
    | apply covers_right_alt; right; apply IH, Hc ]
  end.

Ltac covers_skip IH Hc :=
  cbn beta iota in Hc; apply covers_skip_star, IH, Hc.

(** The test is sound. *)
Lemma covers_sound fuel : forall l r,
  covers fuel l r = true -> included (takesAll l) (takesAll r).
Proof.
  induction fuel as [| fuel IH]; [discriminate |].
  intros l r Hc. cbn [covers] in Hc.
  destruct l as [| x l'].
  { destruct r as [| y r']; [apply covers_nil |].
    destruct y; try discriminate Hc;
      [covers_right IH Hc | covers_skip IH Hc]. }
  destruct x as [| f | a b | a b | ga a | n a | | |].
  - (* Eps *)
    destruct r as [| y r']; [discriminate |].
    destruct y; try discriminate Hc;
      [covers_right IH Hc | covers_skip IH Hc].
  - (* Chr *)
    destruct r as [| y r']; [discriminate |].
    destruct y as [| g | | c d | g b | | | |]; try discriminate Hc.
    + destruct (subset f g) eqn:Hsub; [| discriminate].
      apply covers_chr_chr; [exact Hsub | apply IH, Hc].
    + covers_right IH Hc.
    + destruct (covers fuel [regexp.Chr f] (flat b)) eqn:Hone.
      * destruct (covers fuel l' (regexp.Star g b :: r')) eqn:Hrest.
        { apply covers_chr_star; apply IH; assumption. }
        apply covers_skip_star, IH, Hc.
      * apply covers_skip_star, IH, Hc.
  - (* Seq *)
    destruct r as [| y r']; [discriminate |].
    destruct y; try discriminate Hc;
      [covers_right IH Hc | covers_skip IH Hc].
  - (* Alt *)
    destruct (covers fuel (flat a ++ l') r) eqn:Ha; [| discriminate].
    apply covers_left_alt; apply IH; assumption.
  - (* Star *)
    destruct r as [| y r']; [destruct a; discriminate |].
    destruct y as [| g | | c d | g b | | | |];
      try (destruct a; discriminate Hc).
    + destruct a as [| f | | | | | | |]; try discriminate Hc.
      destruct r' as [| z r'']; [discriminate |].
      destruct z as [| | | | gg b | | | |]; try discriminate Hc.
      destruct b as [| g' | | | | | | |]; try discriminate Hc.
      destruct (subset f g && subset f g' && subset g g') eqn:Hsub;
        [| discriminate].
      apply andb_prop in Hsub as [Hsub Hgg'].
      apply andb_prop in Hsub as [Hfg Hfg'].
      apply covers_star_plus; [assumption.. |]. apply IH, Hc.
    + assert (Hc' :
        (if covers fuel (regexp.Star ga a :: l') (flat c ++ r') then true
         else covers fuel (regexp.Star ga a :: l') (flat d ++ r')) = true)
        by (destruct a; exact Hc).
      covers_right IH Hc'.
    + assert (Hc' :
        (if (if covers fuel (flat a) (flat b)
             then covers fuel l' (regexp.Star g b :: r') else false)
         then true else covers fuel (regexp.Star ga a :: l') r') = true)
        by (destruct a; exact Hc).
      clear Hc.
      destruct (covers fuel (flat a) (flat b)) eqn:Hone.
      * destruct (covers fuel l' (regexp.Star g b :: r')) eqn:Hrest.
        { apply covers_star_star; apply IH; assumption. }
        apply covers_skip_star, IH, Hc'.
      * apply covers_skip_star, IH, Hc'.
  - (* Grp *)
    destruct r as [| y r']; [discriminate |].
    destruct y; try discriminate Hc;
      [covers_right IH Hc | covers_skip IH Hc].
  - (* Bol *)
    destruct r as [| y r']; [discriminate |].
    destruct y; try discriminate Hc;
      [covers_right IH Hc | covers_skip IH Hc
      | apply covers_same_head, IH, Hc].
  - (* Eol *)
    destruct r as [| y r']; [discriminate |].
    destruct y; try discriminate Hc;
      [covers_right IH Hc | covers_skip IH Hc
      | apply covers_same_head, IH, Hc].
  - (* Never *)
    destruct r as [| y r']; [discriminate |].
    destruct y; try discriminate Hc;
      [covers_right IH Hc | covers_skip IH Hc].
Qed.

(** A pattern whose parts another pattern covers matches no text the
    other does not match. *)
Lemma covers_found fuel (inner outer : regexp.Regexp) (s : string) :
  covers fuel (flat (regexp.expr inner)) (flat (regexp.expr outer)) = true ->
  regexp.FindStringSubmatch inner s <> None ->
  regexp.FindStringSubmatch outer s <> None.
Proof.
  intros Hc Hfound.
  apply FindStringSubmatch_found in Hfound
    as (start & p' & s' & Hstart & Htakes).
  apply FindStringSubmatch_found. exists start, p', s'.
  split; [exact Hstart |].
  apply flat_takes, (covers_sound fuel _ _ Hc), flat_takes, Htakes.
Qed.

Lemma shadowed_covered :
  forallb (fun re => covers 200 (flat (regexp.expr re))
                       (flat (regexp.expr reLabelWeight)))
          (reBareWeight :: shadowedPatterns)
  = true.
Proof. vm_compute. reflexivity. Qed.

Lemma shadowed_found (re : regexp.Regexp) (s : string) :
  In re (reBareWeight :: shadowedPatterns) ->
  regexp.FindStringSubmatch re s <> None ->
  regexp.FindStringSubmatch reLabelWeight s <> None.
Proof.
  intros Hin. apply (covers_found 200).
  pose proof shadowed_covered as Hall. rewrite forallb_forall in Hall.
  apply Hall, Hin.
Qed.

Lemma shadowed_skipped (re : regexp.Regexp) (s : string) :
  In re shadowedPatterns ->
  regexp.FindStringSubmatch reLabelWeight s = None ->
  regexp.FindStringSubmatch re s = None.
Proof.
  intros Hin Hnone.
  destruct (regexp.FindStringSubmatch re s) eqn:Hre; [| reflexivity].
  exfalso. apply (shadowed_found re s); [right; exact Hin | | exact Hnone].
  rewrite Hre. discriminate.
Qed.

Section Shadowed.
Context `{CaseTables}.

Lemma firstMatch_deciding (s : string) :
  firstMatch laterPatterns s = firstMatch decidingPatterns s.
Proof.
  unfold laterPatterns, decidingPatterns. cbn [firstMatch].
  destruct (regexp.FindStringSubmatch reLabelWeight s) eqn:Hlabel;
    [reflexivity |].
  rewrite (shadowed_skipped reQtyLabelWeight s) by (cbn; tauto).
  rewrite (shadowed_skipped reBottle s) by (cbn; tauto).
  rewrite (shadowed_skipped reOunceSlashGram s) by (cbn; tauto).
  rewrite (shadowed_skipped reQtyLabelGrams s) by (cbn; tauto).
  rewrite (shadowed_skipped reWeightGrams s) by (cbn; tauto).
  rewrite (shadowed_skipped reSimple s) by (cbn; tauto).
  reflexivity.
Qed.

(** X21.  Of the ten patterns of [parseServingSize], six never decide: a text
    that the pattern [reQtyLabelWeight], [reBottle], [reOunceSlashGram],
    [reQtyLabelGrams], [reWeightGrams] or [reSimple] matches is matched by
    [reLabelWeight], which is tried before them and returns.  So is a text
    that the first pattern matches but does not return on.  The parser
    computes what it would compute with the remaining three later
    patterns alone. *)
Theorem six_patterns_never_decide (text : string) :
  (forall re, In re shadowedPatterns ->
     regexp.FindStringSubmatch re text <> None ->
     regexp.FindStringSubmatch reLabelWeight text <> None)
  /\ (regexp.FindStringSubmatch reBareWeight text <> None ->
      regexp.FindStringSubmatch reLabelWeight text <> None)
  /\ parseServingSize text = parseServingSizeWith decidingPatterns text.
Proof.
  split; [| split].
  - intros re Hin. apply shadowed_found. right. exact Hin.
  - apply shadowed_found. left. reflexivity.
  - unfold parseServingSize, parseServingSizeWith. cbv zeta.
    rewrite firstMatch_deciding. reflexivity.
Qed.

End Shadowed.

Lemma six_patterns_never_decide_witness :
  regexp.FindStringSubmatch reBottle "2 slices (57 g)" <> None
  /\ regexp.FindStringSubmatch reLabelWeight "2 slices (57 g)" <> None
  /\ regexp.FindStringSubmatch reLabelWeight "250 ml (1 glass)" = None
  /\ regexp.FindStringSubmatch reWeightFirst "250 ml (1 glass)" <> None
  /\ regexp.FindStringSubmatch reLabelWeight "(x) 30g" = None
  /\ regexp.FindStringSubmatch reUnit "(x) 30g" <> None.
Proof.
  split; [vm_compute; discriminate |].
  split.
  - apply (proj1 (six_patterns_never_decide (H := plainTables)
                    "2 slices (57 g)") reBottle).
    + right. left. reflexivity.
    + vm_compute. discriminate.
  - repeat split; vm_compute; try reflexivity; discriminate.
Defined.

(** ** Texts the cleaning steps leave alone *)

(** What a pattern takes is a number of bytes off the front. *)
Lemma takes_skip r : forall p s p' s',
  takes r p s p' s' -> exists n, p' = (p + n)%nat /\ s' = skip n s.
Proof.
  induction r as [| f | a IHa b IHb | a IHa b IHb | g a IHa | n a IHa | | |];
    cbn [takes]; intros p s p' s' Htakes.
  - destruct Htakes as [-> ->]. exists 0%nat. split; [lia | reflexivity].
  - destruct Htakes as (c & -> & _ & ->). exists 1%nat.
    split; [lia | reflexivity].
  - destruct Htakes as (p1 & s1 & Ha & Hb).
    apply IHa in Ha as (n1 & -> & ->). apply IHb in Hb as (n2 & -> & ->).
    exists (n1 + n2)%nat. split; [lia | apply skip_skip].
  - destruct Htakes as [Ha | Hb]; [apply IHa, Ha | apply IHb, Hb].
  - induction Htakes as [p s | p s p1 s1 p2 s2 Hstep Hlt _ IH].
    + exists 0%nat. split; [lia | reflexivity].
    + apply IHa in Hstep as (n1 & -> & ->). destruct IH as (n2 & -> & ->).
      exists (n1 + n2)%nat. split; [lia | apply skip_skip].
  - apply IHa, Htakes.
  - destruct Htakes as (_ & -> & ->). exists 0%nat. split; [lia | reflexivity].
  - destruct Htakes as (_ & -> & ->). exists 0%nat. split; [lia | reflexivity].
  - destruct Htakes.
Qed.

Lemma takes_forward r p s p' s' : takes r p s p' s' -> (p <= p')%nat.
Proof. intros Htakes. apply takes_skip in Htakes as (n & -> & _). lia. Qed.

Lemma takes_nothing r p s s' : takes r p s p s' -> s' = s.
Proof.
  intros Htakes. apply takes_skip in Htakes as (n & Hn & ->).
  assert (n = 0)%nat as -> by lia. reflexivity.
Qed.

(** A pattern that forces a byte of a class takes nothing from a text
    without such a byte. *)
Lemma takes_without ok r : forall p s p' s',
  takes r p s p' s' ->
  sforall (fun c => negb (ok c)) s = true ->
  forces ok r = false /\ sforall (fun c => negb (ok c)) s' = true.
Proof.
  induction r as [| f | a IHa b IHb | a IHa b IHb | g a IHa | n a IHa | | |];
    cbn [takes forces]; intros p s p' s' Htakes Hclean.
  - destruct Htakes as [-> ->]. auto.
  - destruct Htakes as (c & -> & Hc & ->). cbn [sforall] in Hclean.
    apply andb_prop in Hclean as [Hok Hclean]. split; [| exact Hclean].
    destruct (subset f ok) eqn:Hsub; [| reflexivity].
    rewrite (subset_spec f ok Hsub c Hc) in Hok. discriminate.
  - destruct Htakes as (p1 & s1 & Ha & Hb).
    destruct (IHa _ _ _ _ Ha Hclean) as [-> Hclean1].
    destruct (IHb _ _ _ _ Hb Hclean1) as [-> Hclean2]. auto.
  - destruct Htakes as [Ha | Hb].
    + destruct (IHa _ _ _ _ Ha Hclean) as [-> Hclean']. auto.
    + destruct (IHb _ _ _ _ Hb Hclean) as [-> Hclean'].
      split; [apply andb_false_r | exact Hclean'].
  - split; [reflexivity |].
    induction Htakes as [p s | p s p1 s1 p2 s2 Hstep Hlt _ IH];
      [exact Hclean |].
    apply IH. apply (IHa _ _ _ _ Hstep Hclean).
  - apply (IHa _ _ _ _ Htakes Hclean).
  - destruct Htakes as (_ & -> & ->). auto.
  - destruct Htakes as (_ & -> & ->). auto.
  - destruct Htakes.
Qed.

Lemma matchAt_forced ok re (s : string) :
  forces ok (regexp.expr re) = true ->
  sforall (fun c => negb (ok c)) s = true ->
  forall p, regexp.matchAt re s p = None.
Proof.
  intros Hforces Hclean p.
  destruct (regexp.matchAt re s p) eqn:Hat; [| reflexivity].
  assert (Hfound : regexp.matchAt re s p <> None) by (rewrite Hat; discriminate).
  apply matchAt_takes in Hfound as (p' & s' & Htakes).
  apply (takes_without ok) in Htakes as [Hnot _];
    [congruence | apply sforall_skip, Hclean].
Qed.

Lemma occurrences_none c (s : string) :
  occurrences c s = 0%nat -> sforall (fun d => negb (Ascii.eqb c d)) s = true.
Proof.
  induction s as [| d s IH]; [reflexivity |]. cbn [occurrences sforall].
  destruct (Ascii.eqb c d); [discriminate |]. intros Hnone. apply IH. lia.
Qed.

Lemma fraction_forces :
  forces (Ascii.eqb "/") (regexp.expr (regexp.MustCompile "(\d+)\s*/\s*(\d+)"))
  = true
  /\ forces regexp.isDigit (regexp.expr (regexp.MustCompile "(\d+)\s*/\s*(\d+)"))
     = true.
Proof. split; vm_compute; reflexivity. Qed.

(** X23.  [convertFractions] returns a text without a slash, and a text without
    a digit, as it is. *)
Theorem convertFractions_needs_a_fraction (input : string) :
  occurrences "/" input = 0%nat
  \/ sforall (fun c => negb (regexp.isDigit c)) input = true ->
  convertFractions input = input.
Proof.
  intros Hnone. unfold convertFractions, regexp.FindAllStringSubmatch.
  cbv zeta. rewrite FindAll_none; [reflexivity |].
  destruct Hnone as [Hslash | Hdigit].
  - apply (matchAt_forced (Ascii.eqb "/"));
      [apply fraction_forces | apply occurrences_none, Hslash].
  - apply (matchAt_forced regexp.isDigit);
      [apply fraction_forces | exact Hdigit].
Qed.

Lemma convertFractions_needs_a_fraction_witness :
  convertFractions "250 ml" = "250 ml" /\ convertFractions "and/or" = "and/or".
Proof.
  split.
  - apply (convertFractions_needs_a_fraction "250 ml"). left. reflexivity.
  - apply (convertFractions_needs_a_fraction "and/or"). right. reflexivity.
Defined.

(** A pattern that cannot take nothing moves forward, and what it takes
    starts with one of its first bytes. *)
Lemma takes_nullable r : forall p s p' s',
  takes r p s p' s' -> nullable r = false -> (p < p')%nat.
Proof.
  induction r as [| f | a IHa b IHb | a IHa b IHb | g a IHa | n a IHa | | |];
    cbn [takes nullable]; intros p s p' s' Htakes Hnull; try discriminate.
  - destruct Htakes as (c & _ & _ & ->). lia.
  - destruct Htakes as (p1 & s1 & Ha & Hb).
    pose proof (takes_forward _ _ _ _ _ Ha).
    pose proof (takes_forward _ _ _ _ _ Hb).
    apply andb_false_iff in Hnull as [Hnull | Hnull].
    + pose proof (IHa _ _ _ _ Ha Hnull). lia.
    + pose proof (IHb _ _ _ _ Hb Hnull). lia.
  - apply orb_false_iff in Hnull as [Hnulla Hnullb].
    destruct Htakes as [Ha | Hb]; [apply (IHa _ _ _ _ Ha Hnulla) |
                                   apply (IHb _ _ _ _ Hb Hnullb)].
  - apply (IHa _ _ _ _ Htakes Hnull).
  - destruct Htakes.
Qed.

Lemma takes_first r : forall p s p' s',
  takes r p s p' s' -> (p < p')%nat ->
  exists c t, s = String c t /\ first r c = true.
Proof.
  induction r as [| f | a IHa b IHb | a IHa b IHb | g a IHa | n a IHa | | |];
    cbn [takes first]; intros p s p' s' Htakes Hlt.
  - destruct Htakes as [-> _]. lia.
  - destruct Htakes as (c & -> & Hc & _). eauto.
  - destruct Htakes as (p1 & s1 & Ha & Hb).
    pose proof (takes_forward _ _ _ _ _ Ha) as Hle.
    destruct (Nat.eq_dec p p1) as [<- | Hne].
    + apply takes_nothing in Ha as Hs1. subst s1.
      destruct (IHb _ _ _ _ Hb Hlt) as (c & t & -> & Hc).
      exists c, t. split; [reflexivity |].
      destruct (nullable a) eqn:Hnull.
      * rewrite Hc. apply orb_true_r.
      * pose proof (takes_nullable _ _ _ _ _ Ha Hnull). lia.
    + destruct (IHa _ _ _ _ Ha ltac:(lia)) as (c & t & -> & Hc).
      exists c, t. rewrite Hc. auto.
  - destruct Htakes as [Ha | Hb].
    + destruct (IHa _ _ _ _ Ha Hlt) as (c & t & -> & Hc).
      exists c, t. rewrite Hc. auto.
    + destruct (IHb _ _ _ _ Hb Hlt) as (c & t & -> & Hc).
      exists c, t. rewrite Hc. split; [reflexivity | apply orb_true_r].
  - destruct Htakes as [p s | p s p1 s1 p2 s2 Hstep Hforward _]; [lia |].
    apply (IHa _ _ _ _ Hstep Hforward).
  - apply (IHa _ _ _ _ Htakes Hlt).
  - destruct Htakes as (_ & -> & _). lia.
  - destruct Htakes as (_ & -> & _). lia.
  - destruct Htakes.
Qed.

(** A pattern that starts with [^] matches at offset 0 or nowhere. *)
Lemma matchAt_anchored re (s : string) (p : nat) :
  anchored (regexp.expr re) = true ->
  regexp.matchAt re s p <> None -> p = 0%nat.
Proof.
  intros Hanchored Hfound.
  apply matchAt_takes in Hfound as (p' & s' & Htakes).
  destruct (regexp.expr re) as [| | a b | | | | | |]; try discriminate.
  destruct a; try discriminate.
  destruct Htakes as (p1 & s1 & (Hzero & _) & _). exact Hzero.
Qed.

Lemma searchFrom_none_from re (s : string) (tries start : nat) :
  (forall p, (start <= p)%nat -> regexp.matchAt re s p = None) ->
  regexp.searchFrom re s tries start = None.
Proof.
  intros Hnone.
  destruct (regexp.searchFrom re s tries start) eqn:Hsearch; [| reflexivity].
  assert (Hfound : regexp.searchFrom re s tries start <> None)
    by (rewrite Hsearch; discriminate).
  apply searchFrom_found in Hfound as (k & _ & Hat).
  rewrite Hnone in Hat by lia. contradiction.
Qed.

Lemma doExecute_anchored re (s : string) (start : nat) :
  anchored (regexp.expr re) = true ->
  (start = 0%nat -> regexp.matchAt re s 0 = None) ->
  regexp.doExecute re s start = None.
Proof.
  intros Hanchored Hzero. apply searchFrom_none_from. intros p Hp.
  destruct (regexp.matchAt re s p) eqn:Hat; [| reflexivity].
  assert (p = 0)%nat as ->
    by (apply (matchAt_anchored re s); [assumption | rewrite Hat; discriminate]).
  rewrite Hzero in Hat by lia. discriminate.
Qed.

Lemma doExecute_span re (s : string) (start a b : nat) caps :
  regexp.doExecute re s start = Some (a, b, caps) ->
  regexp.matchAt re s a <> None
  /\ exists s', takes (regexp.expr re) a (skip a s) b s'.
Proof.
  unfold regexp.doExecute. generalize (String.length s - start)%nat as tries.
  intros tries. revert start.
  induction tries as [| tries IH]; intros start; cbn [regexp.searchFrom];
    destruct (regexp.matchAt re s start) as [m |] eqn:Hat;
    try discriminate; try apply IH.
  all: intros Hm; injection Hm as ->; unfold regexp.matchAt in Hat;
    destruct (regexp.run _ _ _) as [st |] eqn:Hrun; [| discriminate];
    injection Hat as <- <- <-;
    (split; [unfold regexp.matchAt; rewrite Hrun; discriminate |]);
    apply run_sound in Hrun as (st' & Htakes & Hk);
    injection Hk as ->; exists (regexp.rest st); exact Htakes.
Qed.

(** Deleting the matches of a pattern that starts with [^] and cannot
    take nothing: the text loses bytes at its front, and a text the
    pattern does not match at its start loses none. *)
Lemma ReplaceAllString_anchored re (src : string) :
  anchored (regexp.expr re) = true ->
  nullable (regexp.expr re) = false ->
  (exists n, regexp.ReplaceAllString re src "" = skip n src)
  /\ (regexp.matchAt re src 0 = None ->
      regexp.ReplaceAllString re src "" = src).
Proof.
  intros Hanchored Hnull. unfold regexp.ReplaceAllString.
  cbn [regexp.replaceAll].
  destruct (String.length src <? 0)%nat eqn:Hlen;
    [apply Nat.ltb_lt in Hlen; lia | clear Hlen].
  destruct (regexp.doExecute re src 0) as [[[a b] caps] |] eqn:Hfirst.
  - apply doExecute_span in Hfirst as (Hat & s' & Htakes).
    assert (a = 0)%nat as ->
      by (apply (matchAt_anchored re src); assumption).
    pose proof (takes_nullable _ _ _ _ _ Htakes Hnull) as Hb.
    split; [| intros Hnone; contradiction].
    exists b.
    replace (regexp.slice src 0 0) with "" by reflexivity.
    replace (if (0 <? b)%nat || (0 =? 0)%nat then "" else "") with ""
      by (destruct ((0 <? b)%nat || (0 =? 0)%nat); reflexivity).
    rewrite !append_empty_l.
    match goal with
    | |- (if ?c then _ else _) = _ => destruct c; [reflexivity |]
    end.
    rewrite doExecute_anchored; [reflexivity | exact Hanchored |].
    intros Hzero. exfalso. revert Hzero.
    destruct (b <? 0 + regexp.widthAt src 0)%nat eqn:Hw;
      [apply Nat.ltb_lt in Hw; lia |].
    destruct (b <? 0 + 1)%nat; lia.
  - split; [exists 0%nat; reflexivity | reflexivity].
Qed.

Lemma matchAt_start re (s : string) :
  nullable (regexp.expr re) = false ->
  match s with
  | String c _ => first (regexp.expr re) c = false
  | "" => True
  end ->
  regexp.matchAt re s 0 = None.
Proof.
  intros Hnull Hstart.
  destruct (regexp.matchAt re s 0) eqn:Hat; [| reflexivity].
  assert (Hfound : regexp.matchAt re s 0 <> None)
    by (rewrite Hat; discriminate).
  apply matchAt_takes in Hfound as (p' & s' & Htakes).
  pose proof (takes_nullable _ _ _ _ _ Htakes Hnull) as Hlt.
  destruct (takes_first _ _ _ _ _ Htakes Hlt) as (c & t & Hs & Hc).
  cbn [skip] in Hs. subst s. congruence.
Qed.

Lemma descriptors_checked : forallb checkedDescriptor descriptors = true.
Proof. vm_compute. reflexivity. Qed.

Lemma strip_descriptors (l : list string) :
  Forall (fun desc => checkedDescriptor desc = true) l ->
  forall input,
  (exists n,
     fold_left (fun input desc =>
       regexp.ReplaceAllString (descriptorPattern desc) input "") l input
     = skip n input)
  /\ (startsDescriptor input = false ->
      fold_left (fun input desc =>
        regexp.ReplaceAllString (descriptorPattern desc) input "") l input
      = input).
Proof.
  induction 1 as [| desc l Hdesc _ IH]; intros input; cbn [fold_left].
  { split; [exists 0%nat |]; reflexivity. }
  unfold checkedDescriptor in Hdesc. cbv zeta in Hdesc.
  apply andb_prop in Hdesc as [Hdesc Hfirst].
  apply andb_prop in Hdesc as [Hanchored Hnull].
  apply negb_true_iff in Hnull.
  destruct (ReplaceAllString_anchored (descriptorPattern desc) input
              Hanchored Hnull) as [[n Hn] Hsame].
  split.
  - destruct (IH (regexp.ReplaceAllString (descriptorPattern desc) input ""))
      as [[m Hm] _].
    exists (n + m)%nat. rewrite Hm, Hn. apply skip_skip.
  - intros Hstart. rewrite Hsame; [apply IH, Hstart |].
    apply matchAt_start; [exact Hnull |].
    destruct input as [| c t]; [exact I |]. cbn [startsDescriptor] in Hstart.
    rewrite forallb_forall in Hfirst. specialize (Hfirst c (In_allBytes c)).
    rewrite Hstart in Hfirst.
    destruct (first (regexp.expr (descriptorPattern desc)) c);
      [discriminate | reflexivity].
Qed.

(** X24.  [handleDescriptors] takes bytes off the front of the text and does
    nothing else; it returns the text as it is unless the text starts
    with b, c, p or s in either case or with the byte 0xC5. *)
Theorem handleDescriptors_strips_the_front (input : string) :
  (exists n, handleDescriptors input = skip n input)
  /\ (startsDescriptor input = false -> handleDescriptors input = input).
Proof.
  assert (Hall : Forall (fun desc => checkedDescriptor desc = true) descriptors).
  { apply Forall_forall. intros desc Hin. apply list_elem_of_In in Hin.
    pose proof descriptors_checked as Hchecked.
    rewrite forallb_forall in Hchecked. apply Hchecked, Hin. }
  exact (strip_descriptors descriptors Hall input).
Qed.

Lemma handleDescriptors_strips_the_front_witness :
  handleDescriptors "2 slices (57 g)" = "2 slices (57 g)"
  /\ handleDescriptors "Slice  30g" = skip 7 "Slice  30g".
Proof.
  split.
  - apply (proj2 (handleDescriptors_strips_the_front "2 slices (57 g)")).
    reflexivity.
  - vm_compute. reflexivity.
Defined.

(** ** Texts without a parenthesis *)

Lemma rounds_bytes f : forall (w : string) (p : nat) (t : string),
  sforall f w = true ->
  rounds (takes (regexp.Chr f)) p (w ++ t) (p + String.length w) t.
Proof.
  induction w as [| c w IH]; intros p t Hw.
  - rewrite append_empty_l. cbn [String.length]. rewrite Nat.add_0_r.
    constructor.
  - cbn [sforall] in Hw. apply andb_prop in Hw as [Hc Hw].
    rewrite append_cons. cbn [String.length].
    apply rounds_more with (p1 := S p) (s1 := w ++ t); [| lia |].
    + exists c. auto.
    + replace (p + S (String.length w))%nat with (S p + String.length w)%nat
        by lia.
      apply IH, Hw.
Qed.

(** A text of one byte or more, all of the class [f], from its start to
    its end. *)
Lemma takesAll_bytes f (s : string) :
  s <> "" -> sforall f s = true ->
  takesAll [regexp.Bol; regexp.Chr f; regexp.Star true (regexp.Chr f);
            regexp.Eol]
           0 s (String.length s) "".
Proof.
  intros Hs Hall. destruct s as [| c w]; [contradiction |].
  cbn [sforall] in Hall. apply andb_prop in Hall as [Hc Hw].
  cbn [takesAll takes String.length].
  exists 0%nat, (String c w). split; [auto |].
  exists 1%nat, w. split; [exists c; auto |].
  exists (S (String.length w)), "". split.
  - pose proof (rounds_bytes f w 1 "" Hw) as Hrounds.
    rewrite append_empty_r in Hrounds. exact Hrounds.
  - exists (S (String.length w)), "". auto.
Qed.

Lemma label_covers_bytes :
  covers 50
    [regexp.Bol; regexp.Chr (fun d => negb (Ascii.eqb "(" d));
     regexp.Star true (regexp.Chr (fun d => negb (Ascii.eqb "(" d)));
     regexp.Eol]
    (flat (regexp.expr reLabelWeight))
  = true.
Proof. vm_compute. reflexivity. Qed.

Lemma label_found (s : string) :
  s <> "" -> occurrences "(" s = 0%nat ->
  regexp.FindStringSubmatch reLabelWeight s <> None.
Proof.
  intros Hs Hnone. apply FindStringSubmatch_found.
  exists 0%nat, (String.length s), "". split; [lia |].
  apply flat_takes, (covers_sound 50 _ _ label_covers_bytes).
  apply takesAll_bytes; [exact Hs | apply occurrences_none, Hnone].
Qed.

Section WithoutParenthesis.
Context `{CaseTables}.

(** X22.  A serving-size text that, once cleaned, is not empty and has no
    opening parenthesis is matched by [reLabelWeight]: what
    [parseServingSize] returns for it comes from the first pattern or
    from the handler of [reLabelWeight], and never from the patterns
    after it nor from the default at the end. *)
Theorem text_without_parenthesis_is_a_label (text : string) :
  cleanServingSize text <> "" ->
  occurrences "(" (cleanServingSize text) = 0%nat ->
  regexp.FindStringSubmatch reLabelWeight (cleanServingSize text) <> None
  /\ parseServingSize text
     = parseServingSizeWith [(reLabelWeight, onLabelWeight)] text.
Proof.
  intros Hs Hnone.
  pose proof (label_found _ Hs Hnone) as Hfound.
  split; [exact Hfound |].
  unfold parseServingSize, parseServingSizeWith, laterPatterns. cbv zeta.
  cbn [firstMatch].
  destruct (regexp.FindStringSubmatch reLabelWeight (cleanServingSize text));
    [reflexivity | contradiction].
Qed.

End WithoutParenthesis.

Lemma text_without_parenthesis_is_a_label_witness :
  regexp.FindStringSubmatch reLabelWeight (cleanServingSize "1/2 cup") <> None
  /\ parseServingSize (H := plainTables) "1/2 cup"
     = parseServingSizeWith (H := plainTables)
         [(reLabelWeight, onLabelWeight (H := plainTables))] "1/2 cup".
Proof.
  apply (text_without_parenthesis_is_a_label (H := plainTables) "1/2 cup").
  - vm_compute. discriminate.
  - vm_compute. reflexivity.
Defined.
